(** * Risk-Analyzer: the scoring engine, its validators and its error paths

    A shallow embedding of the Python backend (engine/heuristics.py,
    engine/scorer.py, engine/ml_model.py, routers/scan.py, routers/bulk.py)
    and the properties its specification states about it.

    Conventions of the embedding:
    - a Python [float] is an IEEE-754 binary64 value, computed with the
      correctly rounded operations of [SpecFloat] (precision 53, emax 1024);
      a decimal literal is the nearest binary64 value;
    - a Python [int] is a [Z]; a [str] is a [string] whose characters are
      code points below 256;
    - a raised exception is the [Raise] branch of [result]; [try]/[except]
      is [try_except];
    - dictionaries used as tables are [gmap string _], sets of names are
      [gset string]; [BRAND_TARGETS], whose iteration order matters, is an
      association list in insertion order. *)

From Stdlib Require Import ZArith QArith String Ascii Bool Lia.
From Stdlib Require Import Floats.SpecFloat.
From stdpp Require Import base option list gmap strings pretty.

Open Scope string_scope.
Open Scope list_scope.
Open Scope Z_scope.

(** ** Exceptions *)

Module Py.

Inductive exn :=
| ValueError (msg : string)
| OverflowError (msg : string)
| ZeroDivisionError (msg : string)
| OtherException (msg : string).

(** [str(e)] *)
Definition str (e : exn) : string :=
  match e with
  | ValueError m | OverflowError m | ZeroDivisionError m | OtherException m => m
  end.

Inductive result (A : Type) :=
| Ok (a : A)
| Raise (e : exn).
Arguments Ok {A} a.
Arguments Raise {A} e.

#[global] Instance result_ret : MRet result := fun A a => Ok a.
#[global] Instance result_bind : MBind result := fun A B f m =>
  match m with
  | Ok a => f a
  | Raise e => Raise e
  end.
#[global] Instance result_fmap : FMap result := fun A B f m =>
  match m with
  | Ok a => Ok (f a)
  | Raise e => Raise e
  end.

(** [try: body except Exception as e: handler(e)] *)
Definition try_except {A} (body : result A) (handler : exn -> result A) : result A :=
  match body with
  | Ok a => Ok a
  | Raise e => handler e
  end.

End Py.
Export Py.

(** ** Binary64 arithmetic as Python performs it *)

Module Float64.

Definition prec : Z := 53.
Definition emax : Z := 1024.
Definition float := spec_float.

(** [float(z)] for an int (correctly rounded; exact below 2^53). *)
Definition of_int (z : Z) : float := binary_normalize prec emax z 0 false.

Definition add : float -> float -> float := SFadd prec emax.
Definition mul : float -> float -> float := SFmul prec emax.
Definition div : float -> float -> float := SFdiv prec emax.
Definition ltb : float -> float -> bool := SFltb.
Definition leb : float -> float -> bool := SFleb.

(** The binary64 value a decimal literal [m / 10^k] denotes: literals are
    read with correct rounding, and so is the quotient of two exactly
    representable integers. *)
Definition lit (m : Z) (k : nat) : float := div (of_int m) (of_int (10 ^ Z.of_nat k)).

Definition zero : float := S754_zero false.
Definition f0_2 : float := Eval vm_compute in lit 2 1.
Definition f0_4 : float := Eval vm_compute in lit 4 1.
Definition f0_5 : float := Eval vm_compute in lit 5 1.
Definition f0_6 : float := Eval vm_compute in lit 6 1.
Definition f0_7 : float := Eval vm_compute in lit 7 1.
Definition f1_0 : float := Eval vm_compute in lit 1 0.
Definition f0_15 : float := Eval vm_compute in lit 15 2.
Definition f0_20 : float := Eval vm_compute in lit 20 2.
Definition f0_25 : float := Eval vm_compute in lit 25 2.
Definition f0_31 : float := Eval vm_compute in lit 31 2.
Definition f0_35 : float := Eval vm_compute in lit 35 2.
Definition f0_44 : float := Eval vm_compute in lit 44 2.
Definition f0_85 : float := Eval vm_compute in lit 85 2.
Definition f0_9 : float := Eval vm_compute in lit 9 1.
Definition f0_95 : float := Eval vm_compute in lit 95 2.

(** [x / n] for a float [x] and an int [n]: the division raises on a
    zero divisor before any IEEE division happens. *)
Definition truediv (x : float) (n : Z) : result float :=
  if n =? 0 then Raise (ZeroDivisionError "float division by zero")
  else Ok (div x (of_int n)).

(** [a / b] for two ints. *)
Definition int_truediv (a b : Z) : result float :=
  if b =? 0 then Raise (ZeroDivisionError "division by zero")
  else Ok (div (of_int a) (of_int b)).

(** [min(a, b)] and [max(a, b)] on floats: the first argument is kept
    unless the second compares strictly below (above) it. *)
Definition py_min (a b : float) : float := if ltb b a then b else a.
Definition py_max (a b : float) : float := if ltb a b then b else a.

(** [sum(xs)]: the accumulator starts at the int 0. *)
Definition py_sum (xs : list float) : float := fold_left add xs (of_int 0).

(** [max(xs)] over a non-empty sequence. *)
Definition py_max_list (xs : list float) : result float :=
  match xs with
  | [] => Raise (ValueError "max() arg is an empty sequence")
  | x :: rest => Ok (fold_left py_max rest x)
  end.

(** The integer nearest to [m * 2^e], ties to the even integer. *)
Definition round_half_even (m : positive) (e : Z) : Z :=
  match e with
  | Zneg p =>
      let d := 2 ^ Zpos p in
      let q := Zpos m / d in
      let r := Zpos m mod d in
      match 2 * r ?= d with
      | Lt => q
      | Gt => q + 1
      | Eq => if Z.even q then q else q + 1
      end
  | _ => Zpos m * 2 ^ e
  end.

(** [round(x)] with one argument: an int, ties to even; NaN and the
    infinities raise. *)
Definition py_round (x : float) : result Z :=
  match x with
  | S754_zero _ => Ok 0
  | S754_finite s m e =>
      Ok (if s then - round_half_even m e else round_half_even m e)
  | S754_infinity _ => Raise (OverflowError "cannot convert float infinity to integer")
  | S754_nan => Raise (ValueError "cannot convert float NaN to integer")
  end.

(** The exact rational value of a finite float. *)
Definition to_Q (x : float) : option Q :=
  match x with
  | S754_zero _ => Some 0%Q
  | S754_finite s m e =>
      let v := match e with
               | Zneg p => Qmake (Zpos m) (2 ^ p)
               | _ => inject_Z (Zpos m * 2 ^ e)
               end in
      Some (if s then Qopp v else v)
  | _ => None
  end.

(** [x] is finite and its exact value is [q]. *)
Definition has_value (x : float) (q : Q) : Prop :=
  match to_Q x with
  | Some v => Qeq v q
  | None => False
  end.

(** [x] is a zero or a finite value whose leading bit lies below
    [2^B]: no infinity, no NaN. *)
Definition magnitude_le (B : Z) (x : float) : Prop :=
  match x with
  | S754_zero _ => True
  | S754_finite _ m e => Zpos (digits2_pos m) + e <= B
  | _ => False
  end.

(** [x] is a binary64 value in canonical form between 0 and 1: what the
    data model allows for a severity, a confidence or a probability. *)
Definition unit_interval (x : float) : Prop :=
  valid_binary prec emax x = true /\ leb zero x = true /\ leb x f1_0 = true.

(** [x] is finite, not zero, and its leading bit lies at [2^(L-1)] or
    above. *)
Definition magnitude_ge (L : Z) (x : float) : Prop :=
  match x with
  | S754_finite _ m e => L <= Zpos (digits2_pos m) + e
  | _ => False
  end.

End Float64.

(** ** The operations of [str] the program uses *)

Module Str.

Definition code (c : ascii) : N := N_of_ascii c.

Definition in_range (lo hi : N) (c : ascii) : bool :=
  ((lo <=? code c) && (code c <=? hi))%N.

(** [c.isspace()] for a code point below 256. *)
Definition isspace (c : ascii) : bool :=
  in_range 9 13 c || in_range 28 32 c || (code c =? 133)%N || (code c =? 160)%N.

Definition isdigit (c : ascii) : bool := in_range 48 57 c.
Definition isupper_ascii (c : ascii) : bool := in_range 65 90 c.
Definition isalpha_ascii (c : ascii) : bool := in_range 65 90 c || in_range 97 122 c.

(** [c.lower()]: the ASCII capitals and the Latin-1 capitals move up by 32. *)
Definition lower_char (c : ascii) : ascii :=
  if isupper_ascii c || (in_range 192 222 c && negb (code c =? 215)%N)
  then ascii_of_N (code c + 32)
  else c.

Fixpoint lower (s : string) : string :=
  match s with
  | EmptyString => EmptyString
  | String c rest => String (lower_char c) (lower rest)
  end.

(** [len(s)] *)
Definition len (s : string) : Z := Z.of_nat (String.length s).

Fixpoint startswith (p s : string) : bool :=
  match p, s with
  | EmptyString, _ => true
  | String a p', String b s' => Ascii.eqb a b && startswith p' s'
  | String _ _, EmptyString => false
  end.

(** [sub in s] *)
Fixpoint contains (sub s : string) : bool :=
  startswith sub s ||
  match s with
  | EmptyString => false
  | String _ rest => contains sub rest
  end.

Fixpoint lstrip_with (f : ascii -> bool) (s : string) : string :=
  match s with
  | EmptyString => EmptyString
  | String c rest => if f c then lstrip_with f rest else s
  end.

Fixpoint rstrip_with (f : ascii -> bool) (s : string) : string :=
  match s with
  | EmptyString => EmptyString
  | String c rest =>
      match rstrip_with f rest with
      | EmptyString => if f c then EmptyString else String c EmptyString
      | kept => String c kept
      end
  end.

(** [s.strip()] *)
Definition strip (s : string) : string := rstrip_with isspace (lstrip_with isspace s).

(** [s.count(c)] for a one-character pattern. *)
Fixpoint count_char (c : ascii) (s : string) : Z :=
  match s with
  | EmptyString => 0
  | String d rest => (if Ascii.eqb c d then 1 else 0) + count_char c rest
  end.

Fixpoint remove_chars (f : ascii -> bool) (s : string) : string :=
  match s with
  | EmptyString => EmptyString
  | String c rest => if f c then remove_chars f rest else String c (remove_chars f rest)
  end.

(** [s.partition(c)] for a one-character separator: the text before the
    first [c], whether [c] occurs, and the text after it. *)
Fixpoint partition (c : ascii) (s : string) : string * bool * string :=
  match s with
  | EmptyString => (EmptyString, false, EmptyString)
  | String d rest =>
      if Ascii.eqb c d then (EmptyString, true, rest)
      else let '(a, found, b) := partition c rest in (String d a, found, b)
  end.

(** The text after the last [c], or [None] when [c] does not occur. *)
Fixpoint after_last (c : ascii) (s : string) : option string :=
  match s with
  | EmptyString => None
  | String d rest =>
      match after_last c rest with
      | Some t => Some t
      | None => if Ascii.eqb c d then Some rest else None
      end
  end.

(** The text before the first character satisfying [f], and the rest
    from that character on. *)
Fixpoint break_at (f : ascii -> bool) (s : string) : string * string :=
  match s with
  | EmptyString => (EmptyString, EmptyString)
  | String d rest =>
      if f d then (EmptyString, s)
      else let '(a, b) := break_at f rest in (String d a, b)
  end.

Fixpoint all_chars (f : ascii -> bool) (s : string) : bool :=
  match s with
  | EmptyString => true
  | String c rest => f c && all_chars f rest
  end.

Definition is_empty (s : string) : bool :=
  match s with EmptyString => true | _ => false end.

(** [sep.join(parts)] *)
Fixpoint join (sep : string) (parts : list string) : string :=
  match parts with
  | [] => EmptyString
  | [p] => p
  | p :: rest => p +:+ sep +:+ join sep rest
  end.

(** [str(n)] for an int, as an f-string prints it. *)
Definition of_int (n : Z) : string := pretty n.

(** [s[:n]] *)
Fixpoint take (n : nat) (s : string) : string :=
  match n, s with
  | S n', String c rest => String c (take n' rest)
  | _, _ => EmptyString
  end.

End Str.

(** ** urllib.parse.urlparse, for the attributes the analyzer reads

    [scheme], [hostname] and [path] as CPython (3.12) computes them. The
    address check CPython applies to a bracketed (IPv6) host is left out:
    a host with balanced brackets is accepted as it stands. *)

Module Urllib.

Record ParseResult := mkParse {
  scheme : string;
  netloc : string;
  path : string;
  params : string;
  query : string;
  fragment : string
}.

Definition is_c0_or_space (c : ascii) : bool := (Str.code c <=? 32)%N.
Definition is_tab_cr_lf (c : ascii) : bool :=
  (Str.code c =? 9)%N || (Str.code c =? 10)%N || (Str.code c =? 13)%N.
Definition is_scheme_char (c : ascii) : bool :=
  Str.isalpha_ascii c || Str.isdigit c ||
  Ascii.eqb c "+" || Ascii.eqb c "-" || Ascii.eqb c ".".
Definition is_netloc_delim (c : ascii) : bool :=
  Ascii.eqb c "/" || Ascii.eqb c "?" || Ascii.eqb c "#".

Definition uses_params : list string :=
  [EmptyString; "ftp"; "hdl"; "prospero"; "http"; "imap"; "https"; "shttp";
   "rtsp"; "rtspu"; "sip"; "sips"; "mms"; "sftp"; "tel"].

(** The scheme and the rest of the URL after it. *)
Definition split_scheme (url : string) : string * string :=
  let '(before, found, after) := Str.partition ":" url in
  match before with
  | String c _ =>
      if found && Str.isalpha_ascii c && Str.all_chars is_scheme_char before
      then (Str.lower before, after)
      else (EmptyString, url)
  | EmptyString => (EmptyString, url)
  end.

Definition split_netloc (url : string) : result (string * string) :=
  match url with
  | String "/" (String "/" rest) =>
      let '(nl, rest') := Str.break_at is_netloc_delim rest in
      let has_open := Str.contains "[" nl in
      let has_close := Str.contains "]" nl in
      if (has_open && negb has_close) || (has_close && negb has_open)
      then Raise (ValueError "Invalid IPv6 URL")
      else Ok (nl, rest')
  | _ => Ok (EmptyString, url)
  end.

(** [_splitparams]: the parameters start at the first [;] of the last
    path segment. *)
Definition split_params (url : string) : string * string :=
  match Str.after_last "/" url with
  | Some last =>
      let '(seg, found, ps) := Str.partition ";" last in
      if found
      then (Str.take (String.length url - String.length last + String.length seg) url, ps)
      else (url, EmptyString)
  | None =>
      let '(p, _, ps) := Str.partition ";" url in (p, ps)
  end.

Definition urlparse (url : string) : result ParseResult :=
  let url := Str.lstrip_with is_c0_or_space url in
  let url := Str.remove_chars is_tab_cr_lf url in
  let '(sch, url) := split_scheme url in
  '(nl, url) ← split_netloc url;
  let '(url, _, frag) := Str.partition "#" url in
  let '(url, _, qry) := Str.partition "?" url in
  let '(url, prm) :=
    if bool_decide (sch ∈ uses_params) && Str.contains ";" url
    then split_params url
    else (url, EmptyString) in
  Ok (mkParse sch nl url prm qry frag).

(** The [hostname] attribute: [None] when the authority names no host. *)
Definition hostname (p : ParseResult) : option string :=
  let hostinfo :=
    match Str.after_last "@" (netloc p) with
    | Some h => h
    | None => netloc p
    end in
  let '(_, have_open_br, bracketed) := Str.partition "[" hostinfo in
  let host :=
    if have_open_br
    then let '(h, _, _) := Str.partition "]" bracketed in h
    else let '(h, _, _) := Str.partition ":" hostinfo in h in
  if Str.is_empty host then None
  else
    (* a zone identifier after [%] keeps its case *)
    let '(name, percent, zone) := Str.partition "%" host in
    Some (Str.lower name +:+ (if percent then "%" else EmptyString) +:+ zone).

End Urllib.

(** ** Regular expressions, as [re] matches them

    A backtracking matcher in continuation-passing style: alternatives are
    tried left to right and repetition is greedy, so the first success is
    the match [re] reports. [re.match] anchors at the start of the string,
    where a leading [^] holds; the patterns below leave it out. *)

Module Re.

Inductive regex :=
| Eps
| Chr (f : ascii -> bool)
| Seq (a b : regex)
| Alt (a b : regex)
| Star (a : regex)
| Eol.

Definition Opt (a : regex) : regex := Alt a Eps.
Definition Plus (a : regex) : regex := Seq a (Star a).

(** [a{n}] and [a{0,n}] *)
Fixpoint Rep (n : nat) (a : regex) : regex :=
  match n with
  | O => Eps
  | S n' => Seq a (Rep n' a)
  end.
Fixpoint UpTo (n : nat) (a : regex) : regex :=
  match n with
  | O => Eps
  | S n' => Opt (Seq a (UpTo n' a))
  end.
(** [a{lo,hi}] *)
Definition Range (lo hi : nat) (a : regex) : regex := Seq (Rep lo a) (UpTo (hi - lo) a).

Definition Char (c : ascii) : regex := Chr (Ascii.eqb c).
(** A literal character under [re.IGNORECASE]. *)
Definition CharI (c : ascii) : regex :=
  Chr (fun d => Ascii.eqb (Str.lower_char c) (Str.lower_char d)).

Fixpoint Lit (s : string) : regex :=
  match s with
  | EmptyString => Eps
  | String c rest => Seq (Char c) (Lit rest)
  end.
Fixpoint LitI (s : string) : regex :=
  match s with
  | EmptyString => Eps
  | String c rest => Seq (CharI c) (LitI rest)
  end.

(** [run r s k] matches [r] at the start of [s] and hands the rest of the
    text to [k]; when [k] refuses, the matcher backtracks. A repetition
    goes on only while each round consumes a character, so the length of
    the text bounds the number of rounds. *)
Fixpoint run {A} (r : regex) (s : string) (k : string -> option A) {struct r} : option A :=
  match r with
  | Eps => k s
  | Chr f =>
      match s with
      | String c s' => if f c then k s' else None
      | EmptyString => None
      end
  | Seq a b => run a s (fun s' => run b s' k)
  | Alt a b =>
      match run a s k with
      | Some x => Some x
      | None => run b s k
      end
  | Star a =>
      (fix star (fuel : nat) (s : string) {struct fuel} : option A :=
         match fuel with
         | O => k s
         | S fuel' =>
             match run a s (fun s' =>
                      if (String.length s' <? String.length s)%nat
                      then star fuel' s' else None) with
             | Some x => Some x
             | None => k s
             end
         end) (String.length s) s
  | Eol =>
      match s with
      | EmptyString => k s
      | String "010" EmptyString => k s
      | _ => None
      end
  end.

(** [re.match(r, s)]: the text left after the match, if there is one. *)
Definition match_prefix (r : regex) (s : string) : option string :=
  run r s (fun rest => Some rest).

(** [re.match(r, s) is not None] *)
Definition matches (r : regex) (s : string) : bool :=
  match match_prefix r s with Some _ => true | None => false end.

(** [re.search(r, s) is not None] *)
Fixpoint search (r : regex) (s : string) : bool :=
  matches r s ||
  match s with
  | EmptyString => false
  | String _ rest => search r rest
  end.

(** [re.findall(r, s)] for a pattern without groups: the matches from
    left to right, none overlapping another. Every step moves at least
    one character forward: one more than the length of the text is fuel
    enough for the whole scan. *)
Fixpoint findall_from (fuel : nat) (r : regex) (s : string) : list string :=
  match fuel with
  | O => []
  | S fuel' =>
      match match_prefix r s with
      | Some rest =>
          let n := (String.length s - String.length rest)%nat in
          Str.take n s ::
            match n, s with
            | O, String _ s' => findall_from fuel' r s'
            | O, EmptyString => []
            | _, _ => findall_from fuel' r rest
            end
      | None =>
          match s with
          | String _ s' => findall_from fuel' r s'
          | EmptyString => []
          end
      end
  end.
Definition findall (r : regex) (s : string) : list string :=
  findall_from (S (String.length s)) r s.

Definition digit : regex := Chr Str.isdigit.
Definition alnum : regex := Chr (fun c => Str.isalpha_ascii c || Str.isdigit c).
Definition alnum_dash : regex :=
  Chr (fun c => Str.isalpha_ascii c || Str.isdigit c || Ascii.eqb c "-").
Definition non_space : regex := Chr (fun c => negb (Str.isspace c)).
Definition space : regex := Chr Str.isspace.

(** [\d{1,3}\.\d{1,3}\.\d{1,3}\.\d{1,3}] *)
Definition dotted_quad : regex :=
  Seq (Range 1 3 digit) (Seq (Char ".")
  (Seq (Range 1 3 digit) (Seq (Char ".")
  (Seq (Range 1 3 digit) (Seq (Char ".")
  (Range 1 3 digit)))))).

End Re.

(** ** config.py *)

Module Config.
Definition SAFE_THRESHOLD : Z := 30.
Definition SUSPICIOUS_THRESHOLD : Z := 60.
End Config.

(** ** engine/heuristics.py *)

Module Heuristics.
Import Float64.

(** One indicator dict: [{"name", "detected", "severity", "explanation"}]. *)
Record Indicator := mkIndicator {
  name : string;
  detected : bool;
  severity : float;
  explanation : string
}.

Definition SUSPICIOUS_TLDS : gset string :=
  {[ ".xyz"; ".tk"; ".ml"; ".ga"; ".cf"; ".gq"; ".top"; ".buzz";
     ".club"; ".work"; ".info"; ".click"; ".link"; ".support";
     ".review"; ".country"; ".stream"; ".download"; ".racing";
     ".win"; ".bid"; ".accountant"; ".science"; ".party" ]}.

Definition SHORTENER_DOMAINS : gset string :=
  {[ "bit.ly"; "tinyurl.com"; "t.co"; "goo.gl"; "ow.ly"; "is.gd";
     "buff.ly"; "rebrand.ly"; "cutt.ly"; "short.io"; "tiny.cc" ]}.

Definition BRAND_TARGETS : list (string * list string) :=
  [ ("paypal", ["paypa1"; "paypol"; "paypaI"; "pay-pal"; "paypall"; "paypal-secure"]);
    ("google", ["go0gle"; "googl3"; "g00gle"; "goog1e"; "google-verify"]);
    ("apple", ["app1e"; "appie"; "apple-id"; "appl3"]);
    ("microsoft", ["micros0ft"; "mlcrosoft"; "microsft"; "microsoft-verify"]);
    ("amazon", ["amaz0n"; "arnazon"; "amazon-secure"; "arnazon"]);
    ("netflix", ["netf1ix"; "netfllx"; "netflix-account"]);
    ("facebook", ["faceb00k"; "facebok"; "facebook-login"]);
    ("instagram", ["1nstagram"; "lnstagram"; "instagram-verify"]);
    ("linkedin", ["l1nkedin"; "linkedln"; "linkedin-verify"]);
    ("chase", ["chas3"; "chase-secure"; "chase-verify"]);
    ("wellsfargo", ["we11sfargo"; "wellsfarg0"; "wells-fargo-secure"]);
    ("bankofamerica", ["bankofamer1ca"; "bank0famerica"]) ].

Definition URGENCY_KEYWORDS : list string :=
  [ "verify now"; "act immediately"; "suspended"; "unauthorized";
    "confirm your"; "update your"; "expire"; "urgent"; "immediately";
    "click here"; "limited time"; "account locked"; "security alert";
    "verify your identity"; "unusual activity"; "confirm identity";
    "reset your password"; "action required"; "final warning";
    "your account will be"; "failure to"; "within 24 hours";
    "within 48 hours"; "deactivated"; "restricted" ].

(** [indicators.append(ind)] under [if cond:] *)
Definition append_if (cond : bool) (ind : Indicator) (indicators : list Indicator)
  : list Indicator :=
  if cond then indicators ++ [ind] else indicators.

(** [re.match(r"^\d{1,3}\.\d{1,3}\.\d{1,3}\.\d{1,3}$", hostname)] *)
Definition is_ip_literal (hostname : string) : bool :=
  Re.matches (Re.Seq Re.dotted_quad Re.Eol) hostname.

(** The brand loop: the first brand, in table order, one of whose
    variants occurs in the host while the brand itself does not; the two
    [break]s stop at the first such variant. *)
Definition first_variant (host_lower brand : string) (variants : list string)
  : option string :=
  List.find (fun variant =>
               Str.contains (Str.lower variant) host_lower
               && negb (Str.contains brand host_lower)) variants.

Fixpoint first_impersonation (host_lower : string) (targets : list (string * list string))
  : option (string * string) :=
  match targets with
  | [] => None
  | (brand, variants) :: rest =>
      match first_variant host_lower brand variants with
      | Some variant => Some (brand, variant)
      | None => first_impersonation host_lower rest
      end
  end.

Definition suspicious_paths : list string :=
  ["login"; "signin"; "verify"; "secure"; "account"; "banking"; "update"; "confirm"].

Definition analyze_url_heuristics (url : string) : result (list Indicator) :=
  parsed ← Urllib.urlparse url;
  let hostname := default EmptyString (Urllib.hostname parsed) in
  let path := Urllib.path parsed in
  let indicators : list Indicator := [] in
  (* 1. URL length check *)
  let indicators :=
    append_if (75 <? Str.len url)
      (mkIndicator "Excessive URL Length" true
         (py_min f1_0 (div (of_int (Str.len url - 75)) (of_int 100)))
         ("This URL is " +:+ Str.of_int (Str.len url) +:+
          " characters long. Legitimate URLs are typically shorter. Long URLs can hide malicious paths."))
      indicators in
  (* 2. IP address in URL *)
  let indicators :=
    append_if (is_ip_literal hostname)
      (mkIndicator "IP Address Instead of Domain" true f0_85
         "This URL uses an IP address instead of a domain name. Legitimate websites almost always use domain names.")
      indicators in
  (* 3. No HTTPS *)
  let indicators :=
    append_if (negb (String.eqb (Urllib.scheme parsed) "https"))
      (mkIndicator "Missing HTTPS" true f0_6
         "This URL does not use HTTPS encryption. Most legitimate sites use HTTPS to protect your data.")
      indicators in
  (* 4. Suspicious TLD *)
  let tld :=
    match Str.after_last "." hostname with
    | Some last => "." +:+ last
    | None => EmptyString
    end in
  let indicators :=
    append_if (bool_decide (Str.lower tld ∈ SUSPICIOUS_TLDS))
      (mkIndicator "Suspicious Top-Level Domain" true f0_7
         ("The domain uses '" +:+ tld +:+
          "' which is commonly associated with phishing and spam websites."))
      indicators in
  (* 5. URL shortener *)
  let indicators :=
    append_if (bool_decide (Str.lower hostname ∈ SHORTENER_DOMAINS))
      (mkIndicator "URL Shortener Detected" true f0_5
         "This URL uses a shortening service which hides the actual destination. The real URL could be malicious.")
      indicators in
  (* 6. Excessive subdomains *)
  let subdomain_count :=
    if Str.is_empty hostname then 0 else Z.max 0 (Str.count_char "." hostname - 1) in
  let indicators :=
    append_if (3 <=? subdomain_count)
      (mkIndicator "Excessive Subdomains" true
         (py_min f1_0 (mul (of_int subdomain_count) f0_2))
         ("This URL has " +:+ Str.of_int subdomain_count +:+
          " subdomains. Phishing sites often use many subdomains to mimic legitimate domains."))
      indicators in
  (* 7. @ symbol in URL *)
  let indicators :=
    append_if (Str.contains "@" url)
      (mkIndicator "@ Symbol in URL" true f0_9
         "The '@' symbol in a URL can redirect you to a different site than what's displayed. This is a common phishing technique.")
      indicators in
  (* 8. Brand impersonation / typosquatting *)
  let indicators :=
    match first_impersonation (Str.lower hostname) BRAND_TARGETS with
    | Some (brand, variant) =>
        indicators ++
         [mkIndicator "Brand Impersonation" true f0_95
            ("This domain appears to impersonate '" +:+ brand +:+
             "' using a lookalike name '" +:+ variant +:+
             "'. This is a common phishing technique.")]
    | None => indicators
    end in
  (* 9. Suspicious path keywords *)
  let path_lower := Str.lower path in
  let found_path_keywords := filter (fun kw => Str.contains kw path_lower = true) suspicious_paths in
  let indicators :=
    append_if
      (negb (bool_decide (found_path_keywords = []))
       && existsb (fun ind =>
                     bool_decide (name ind ∈
                       ["Suspicious Top-Level Domain"; "Brand Impersonation"; "Missing HTTPS"]))
                  indicators)
      (mkIndicator "Suspicious Path Keywords" true f0_6
         ("The URL path contains sensitive keywords (" +:+
          Str.join ", " found_path_keywords +:+
          ") combined with other suspicious signals."))
      indicators in
  (* 10. Double extension or encoded characters *)
  let indicators :=
    append_if (Str.contains "%2" url || Str.contains "%3" url || Str.contains ".." path)
      (mkIndicator "URL Encoding / Obfuscation" true f0_7
         "This URL contains encoded or obfuscated characters, which can hide the true destination.")
      indicators in
  Ok indicators.

(** [https?://] and then one or more characters that are neither
    whitespace, nor an angle bracket, nor a single or double quote. *)
Definition url_in_text : Re.regex :=
  Re.Seq (Re.Lit "http") (Re.Seq (Re.Opt (Re.Char "s")) (Re.Seq (Re.Lit "://")
    (Re.Plus (Re.Chr (fun c =>
       negb (Str.isspace c || Ascii.eqb c "<" || Ascii.eqb c ">"
             || Ascii.eqb c "034" || Ascii.eqb c "'")))))).

(** [(https?://[^\s]+)\s*(?:click here|verify|login|sign in)] *)
Definition link_with_action : Re.regex :=
  Re.Seq (Re.Lit "http") (Re.Seq (Re.Opt (Re.Char "s")) (Re.Seq (Re.Lit "://")
    (Re.Seq (Re.Plus Re.non_space) (Re.Seq (Re.Star Re.space)
      (Re.Alt (Re.Lit "click here") (Re.Alt (Re.Lit "verify")
        (Re.Alt (Re.Lit "login") (Re.Lit "sign in")))))))).

Definition sensitive_keywords : list string :=
  [ "password"; "credit card"; "social security"; "ssn"; "bank account";
    "routing number"; "pin number"; "date of birth"; "mother's maiden" ].
Definition generic_greetings : list string :=
  ["dear customer"; "dear user"; "dear sir"; "dear account holder"; "dear valued"].
Definition threats : list string :=
  ["will be terminated"; "will be closed"; "will be suspended"; "legal action"; "law enforcement"].

Definition found_in (text : string) (kws : list string) : list string :=
  filter (fun kw => Str.contains kw text = true) kws.

Definition analyze_email_heuristics (content : string) : list Indicator * list string :=
  let indicators : list Indicator := [] in
  let content_lower := Str.lower content in
  (* 1. Urgency language *)
  let found_urgency := found_in content_lower URGENCY_KEYWORDS in
  let indicators :=
    append_if (negb (bool_decide (found_urgency = [])))
      (mkIndicator "Urgency Language Detected" true
         (py_min f1_0 (mul (of_int (Z.of_nat (length found_urgency))) f0_15))
         ("This message uses pressure language: " +:+
          Str.join ", " (take 5 found_urgency) +:+
          ". Phishing emails create a false sense of urgency to trick you into acting quickly."))
      indicators in
  (* 2. Extract URLs from email content *)
  let urls_in_email := Re.findall url_in_text content in
  let indicators :=
    append_if (3 <? Z.of_nat (length urls_in_email))
      (mkIndicator "Multiple URLs in Message" true f0_4
         ("This message contains " +:+ Str.of_int (Z.of_nat (length urls_in_email)) +:+
          " URLs. Phishing emails often include multiple links to increase the chance of a click."))
      indicators in
  (* 3. Mismatched display text vs URL (basic check) *)
  let indicators :=
    append_if (Re.search link_with_action content_lower)
      (mkIndicator "Suspicious Link Context" true f0_6
         "A URL in this message is paired with action words like 'click here' or 'verify'. This pattern is common in phishing emails.")
      indicators in
  (* 4. Request for sensitive info *)
  let found_sensitive := found_in content_lower sensitive_keywords in
  let indicators :=
    append_if (negb (bool_decide (found_sensitive = [])))
      (mkIndicator "Request for Sensitive Information" true f0_85
         ("This message mentions sensitive data: " +:+
          Str.join ", " (take 3 found_sensitive) +:+
          ". Legitimate organizations rarely ask for this via email."))
      indicators in
  (* 5. Generic greeting *)
  let indicators :=
    append_if (existsb (fun g => Str.contains g content_lower) generic_greetings)
      (mkIndicator "Generic Greeting" true f0_35
         "This message uses a generic greeting instead of your name. Legitimate companies usually address you personally.")
      indicators in
  (* 6. Threatening language *)
  let found_threats := found_in content_lower threats in
  let indicators :=
    match found_threats with
    | first :: _ =>
        indicators ++
         [mkIndicator "Threatening Language" true f0_7
            ("This message contains threatening language: '" +:+ first +:+
             "'. Phishing emails often threaten consequences to pressure victims.")]
    | [] => indicators
    end in
  (indicators, urls_in_email).

End Heuristics.

(** ** engine/scorer.py *)

Module Scorer.
Import Float64 Heuristics.

(** The dict [predict_phishing_probability] returns. *)
Record MlResult := mkMlResult {
  probability : option float;
  available : bool;
  error : option string
}.

(** One reputation feed result; [unavailable] is [None] when the dict
    has no such key. *)
Record ApiResult := mkApiResult {
  api_name : string;
  is_threat : bool;
  confidence : float;
  unavailable : option bool;
  api_error : option string
}.

Definition WEIGHTS_FULL : gmap string float :=
  list_to_map [("domain", f0_35); ("structural", f0_25); ("language", f0_20); ("api", f0_20)].

Definition WEIGHTS_NO_API : gmap string float :=
  list_to_map [("domain", f0_44); ("structural", f0_31); ("language", f0_25); ("api", zero)].

(** [weights[key]] *)
Definition getitem (weights : gmap string float) (key : string) : result float :=
  match weights !! key with
  | Some w => Ok w
  | None => Raise (OtherException ("KeyError: " +:+ key))
  end.

Definition _classify_label (score : Z) : string :=
  if score <=? Config.SAFE_THRESHOLD then "safe"
  else if score <=? Config.SUSPICIOUS_THRESHOLD then "suspicious"
  else "dangerous".

(** [min(100, max(0, round(x)))] *)
Definition clamp (r : Z) : Z := Z.min 100 (Z.max 0 r).
Definition round_clamp (x : float) : result Z :=
  r ← py_round x; Ok (clamp r).

Definition severities (inds : list Indicator) : list float := map severity inds.

(** The max/average blend both URL sub-scores share. *)
Definition blend_score (relevant : list Indicator) : result float :=
  max_severity ← py_max_list (severities relevant);
  avg_severity ← truediv (py_sum (severities relevant)) (Z.of_nat (length relevant));
  let blended_severity := add (mul max_severity f0_6) (mul avg_severity f0_4) in
  let count_boost := py_min f1_0 (add f0_5 (mul (of_int (Z.of_nat (length relevant))) f0_2)) in
  Ok (mul (mul blended_severity (of_int 100)) count_boost).

Definition domain_indicator_names : gset string :=
  {[ "IP Address Instead of Domain";
     "Suspicious Top-Level Domain";
     "Brand Impersonation";
     "Excessive Subdomains";
     "URL Shortener Detected" ]}.

(** [ml_result and ml_result.get("available") and
    ml_result["probability"] is not None]; an absent or empty dict is
    [None]. *)
Definition ml_probability (ml_result : option MlResult) : option float :=
  match ml_result with
  | Some r => if available r then probability r else None
  | None => None
  end.

Definition compute_domain_score (url_indicators : list Indicator)
    (ml_result : option MlResult) : result Z :=
  let relevant :=
    filter (fun ind => name ind ∈ domain_indicator_names ∧ detected ind = true)
           url_indicators in
  heuristic_score ←
    match relevant with
    | [] => Ok (of_int 0)
    | _ => blend_score relevant
    end;
  let blended :=
    match ml_probability ml_result with
    | Some p =>
        let ml_score := mul p (of_int 100) in
        add (mul heuristic_score f0_6) (mul ml_score f0_4)
    | None => heuristic_score
    end in
  round_clamp blended.

Definition structural_names : gset string :=
  {[ "Excessive URL Length";
     "@ Symbol in URL";
     "URL Encoding / Obfuscation";
     "Suspicious Path Keywords";
     "Missing HTTPS" ]}.

Definition compute_structural_score (url_indicators : list Indicator) : result Z :=
  let relevant :=
    filter (fun ind => name ind ∈ structural_names ∧ detected ind = true)
           url_indicators in
  match relevant with
  | [] => Ok 0
  | _ => score ← blend_score relevant; round_clamp score
  end.

Definition compute_language_score (email_indicators : list Indicator) : result Z :=
  match email_indicators with
  | [] => Ok 0
  | _ =>
      let relevant := filter (fun ind => detected ind = true) email_indicators in
      match relevant with
      | [] => Ok 0
      | _ =>
          avg_severity ← truediv (py_sum (severities relevant)) (Z.of_nat (length relevant));
          let count_boost := py_min f1_0 (mul (of_int (Z.of_nat (length relevant))) f0_2) in
          let score := mul (mul avg_severity (of_int 100)) count_boost in
          round_clamp score
      end
  end.

(** [not r.get("unavailable", True)] *)
Definition is_available (r : ApiResult) : bool := negb (default true (unavailable r)).

Definition compute_api_score (api_results : list ApiResult) : result (Z * bool) :=
  let available_results := filter (fun r => is_available r = true) api_results in
  match available_results with
  | [] => Ok (0, false)
  | _ =>
      let threat_count :=
        fold_left (fun acc r => if is_threat r then acc + 1 else acc) available_results 0 in
      let total_checked := Z.of_nat (length available_results) in
      let total_confidence :=
        py_sum (map confidence (filter (fun r => is_threat r = true) available_results)) in
      if threat_count =? 0 then Ok (0, true)
      else
        threat_ratio ← int_truediv threat_count total_checked;
        mean_confidence ← truediv total_confidence threat_count;
        let score := add (mul threat_ratio (of_int 60)) (mul mean_confidence (of_int 40)) in
        r ← round_clamp score;
        Ok (r, true)
  end.

Definition compute_overall_score (domain_score structural_score language_score api_score : Z)
    (api_available : bool) : result (Z * string) :=
  let weights := if api_available then WEIGHTS_FULL else WEIGHTS_NO_API in
  w_domain ← getitem weights "domain";
  w_structural ← getitem weights "structural";
  w_language ← getitem weights "language";
  w_api ← getitem weights "api";
  let overall :=
    add (add (add (mul (of_int domain_score) w_domain)
                  (mul (of_int structural_score) w_structural))
             (mul (of_int language_score) w_language))
        (mul (of_int api_score) w_api) in
  overall ← round_clamp overall;
  let label := _classify_label overall in
  Ok (overall, label).

(** One card of the education list: [{"title", "content"}]. *)
Record Card := mkCard { title : string; content : string }.

Definition education_map : gmap string Card :=
  list_to_map [
    ("IP Address Instead of Domain",
     mkCard "Why IP addresses in URLs are suspicious"
       "Legitimate websites use domain names (like google.com) not raw IP addresses. If you see numbers like 192.168.1.1 in a URL, it is likely trying to bypass domain-based security filters.");
    ("Suspicious Top-Level Domain",
     mkCard "Understanding domain extensions"
       "Domain extensions like .xyz, .tk, or .ml are inexpensive and commonly used for temporary phishing sites. Trusted sites typically use .com, .org, .gov, or country-specific domains.");
    ("Brand Impersonation",
     mkCard "How to spot fake brand domains"
       "Phishers create domains that look like real brands (e.g., 'paypa1.com' instead of 'paypal.com'). Always check the domain spelling carefully before entering any information.");
    ("Missing HTTPS",
     mkCard "Why HTTPS matters"
       "HTTPS encrypts your connection. If a site asks for login or payment info without HTTPS (no lock icon), your data could be intercepted. Never enter sensitive information on HTTP sites.");
    ("Urgency Language Detected",
     mkCard "Recognizing pressure tactics"
       "Phishing messages create panic with phrases like 'Act now!' or 'Your account will be suspended.' Legitimate companies give you time to respond and never threaten immediate consequences via email.");
    ("Request for Sensitive Information",
     mkCard "When to share personal information"
       "Banks and legitimate services never ask for passwords, credit card numbers, or SSNs via email. If a message asks for this, it is almost certainly a scam.");
    ("URL Shortener Detected",
     mkCard "Hidden destinations behind short links"
       "URL shorteners (bit.ly, tinyurl) hide the real destination. Before clicking, use a URL expander tool to see where the link actually goes.");
    ("Excessive URL Length",
     mkCard "Why long URLs can be suspicious"
       "Extremely long URLs often contain hidden parameters or encoded redirects designed to confuse you and bypass security tools.");
    ("Generic Greeting",
     mkCard "Impersonal messages are a red flag"
       "Emails that start with 'Dear Customer' instead of your name are often mass-sent phishing attempts. Your bank and other services know your name.");
    ("@ Symbol in URL",
     mkCard "The @ symbol trick in URLs"
       "An '@' in a URL tells the browser to ignore everything before it and go to what follows. So 'http://google.com@evil.com' actually takes you to evil.com.")
  ].

Definition verify_tip : Card :=
  mkCard "Good practice: Always verify before trusting"
    "Even though this appears safe, always verify the sender and URL before entering personal information. Bookmark important sites and access them directly.".

Definition report_tip : Card :=
  mkCard "What to do with suspicious content"
    "Do not click any links or download attachments. If this claims to be from a company you use, go directly to their website by typing the address yourself. Report the suspicious content to the claimed organization.".

Definition generate_education (indicators : list Indicator) (label : string) : list Card :=
  let education : list Card := [] in
  let detected_names := map name (filter (fun ind => detected ind = true) indicators) in
  let education :=
    fold_left (fun education name =>
                 match education_map !! name with
                 | Some card => education ++ [card]
                 | None => education
                 end) detected_names education in
  if String.eqb label "safe" then education ++ [verify_tip]
  else if bool_decide (label ∈ ["suspicious"; "dangerous"]) then education ++ [report_tip]
  else education.

End Scorer.

(** ** engine/ml_model.py *)

Module MlModel.
Import Float64 Scorer.

(** [round(x, 4)] on a float: the decimal nearest to the exact value,
    ties to even, read back as a binary64 value (exact for magnitudes
    below 2^53 / 10^4; a probability lies between 0 and 1). *)
Definition round4 (x : float) : float :=
  match x with
  | S754_finite s m e =>
      let n := round_half_even (m * 10000) e in
      if n =? 0 then S754_zero s
      else div (of_int (if s then - n else n)) (of_int 10000)
  | _ => x
  end.

(** The accesses to the outside world a call can make: [os.path.exists]
    on the model path and [joblib.load] of the file. *)
Inductive event := PathExists | JoblibLoad.

Section Model.
(** The unpickled classifier object. *)
Variable Model : Type.
Variable MODEL_PATH : string.

(** What the outside world answers during one call: whether the model
    file exists, what [joblib.load] does with it ([Ok None] is a file
    that unpickles to [None]), and what feature extraction followed by
    [predict_proba] and [float(proba[0][1])] does. *)
Record Env := mkEnv {
  path_exists : bool;
  joblib_load : result (option Model);
  predict_proba : Model -> string -> result float
}.

(** The module globals [_model], [_model_loaded], [_model_error]. *)
Record Globals := mkGlobals {
  _model : option Model;
  _model_loaded : bool;
  _model_error : option string
}.

Definition initial : Globals := mkGlobals None false None.

Definition _load_model (env : Env) (g : Globals) : Globals * list event :=
  if _model_loaded g then (g, [])
  else if negb (path_exists env) then
    (mkGlobals (_model g) true
       (Some ("Model file not found at " +:+ MODEL_PATH +:+
              ". Run training/train_model.py first.")),
     [PathExists])
  else
    match joblib_load env with
    | Ok m => (mkGlobals m true (_model_error g), [PathExists; JoblibLoad])
    | Raise e =>
        (mkGlobals (_model g) true (Some ("Failed to load model: " +:+ Py.str e)),
         [PathExists; JoblibLoad])
    end.

Definition predict_phishing_probability (env : Env) (url : string) (g : Globals)
  : result MlResult * Globals * list event :=
  let '(g, events) := _load_model env g in
  match _model g with
  | None => (Ok (mkMlResult None false (_model_error g)), g, events)
  | Some model =>
      (try_except
         (phishing_prob ← predict_proba env model url;
          Ok (mkMlResult (Some (round4 phishing_prob)) true None))
         (fun e => Ok (mkMlResult None false (Some ("Prediction failed: " +:+ Py.str e)))),
       g, events)
  end.

(** A process: the calls made one after the other, each with what the
    world answers at that moment. *)
Fixpoint run (calls : list (Env * string)) (g : Globals)
  : list (result MlResult) * Globals * list event :=
  match calls with
  | [] => ([], g, [])
  | (env, url) :: rest =>
      let '(r, g1, ev1) := predict_phishing_probability env url g in
      let '(rs, g2, ev2) := run rest g1 in
      (r :: rs, g2, ev1 ++ ev2)
  end.

End Model.

(** How often an event occurs in a trace. *)
Definition count_event (ev : event) (events : list event) : nat :=
  length (List.filter (fun e => match e, ev with
                                | PathExists, PathExists | JoblibLoad, JoblibLoad => true
                                | _, _ => false
                                end) events).

End MlModel.

(** ** routers/scan.py *)

Module Scan.
Import Float64 Heuristics Scorer.

(** The URL pattern of [UrlScanRequest.validate_url], compiled with
    [re.IGNORECASE]; the alternation splits the whole pattern in two. *)
Definition host_label : Re.regex :=
  Re.Seq Re.alnum (Re.Opt (Re.Seq (Re.UpTo 61 Re.alnum_dash) Re.alnum)).

Definition url_pattern : Re.regex :=
  Re.Alt
    (Re.Seq (Re.LitI "http") (Re.Seq (Re.Opt (Re.CharI "s")) (Re.Seq (Re.Lit "://")
      (Re.Seq (Re.Star (Re.Seq host_label (Re.Char "."))) host_label))))
    (Re.Seq Re.dotted_quad
      (Re.Seq (Re.Opt (Re.Seq (Re.Char ":") (Re.Plus Re.digit)))
        (Re.Seq (Re.Opt (Re.Seq (Re.Char "/") (Re.Star Re.non_space))) Re.Eol))).

Definition validate_url (v : string) : result string :=
  let v := Str.strip v in
  if Str.is_empty v then Raise (ValueError "URL cannot be empty")
  else
    let v :=
      if negb (Str.startswith "http://" v || Str.startswith "https://" v)
      then "http://" +:+ v else v in
    if negb (Re.matches url_pattern v) then Raise (ValueError "Invalid URL format")
    else Ok v.

Definition validate_content (v : string) : result string :=
  let v := Str.strip v in
  if Str.is_empty v then Raise (ValueError "Email content cannot be empty")
  else if Str.len v <? 10
  then Raise (ValueError "Email content is too short to analyze meaningfully")
  else Ok v.

(** The request models: an instance exists only once its field passed
    the validator. *)
Record UrlScanRequest := mkUrlScanRequest { url : string }.
Record EmailScanRequest := mkEmailScanRequest { content : string }.

(** [status[name] = ...] for each result, later entries overwriting. *)
Definition _build_api_status (api_results : list ApiResult) : gmap string string :=
  fold_left (fun status r =>
               <[ api_name r :=
                    if default false (unavailable r) then "unavailable" else "available" ]>
                 status)
            api_results ∅.

(** The three-way bucket both endpoints apply to a severity. *)
Definition severity_label (sev : float) : string :=
  if leb f0_7 sev then "high"
  else if leb f0_4 sev then "medium"
  else "low".

(** One entry of the response's ["indicators"] list. *)
Record Reported := mkReported {
  r_name : string;
  r_severity : string;
  r_explanation : string
}.

Definition report (ind : Indicator) : Reported :=
  mkReported (name ind) (severity_label (severity ind)) (explanation ind).

(** The loop of [scan_url]: every detected indicator, in order. *)
Definition detected_indicators (inds : list Indicator) : list Reported :=
  fold_left (fun acc ind => if detected ind then acc ++ [report ind] else acc) inds [].

(** The loop of [scan_email]: every detected indicator whose name was
    not seen before. *)
Definition detected_indicators_unique (inds : list Indicator) : list Reported :=
  fst (fold_left
         (fun '(acc, seen_names) ind =>
            if detected ind && negb (bool_decide (name ind ∈ seen_names))
            then (acc ++ [report ind], {[ name ind ]} ∪ seen_names)
            else (acc, seen_names))
         inds ([], (∅ : gset string))).

Record SubScores := mkSubScores {
  domain : Z;
  structural : Z;
  language : Z;
  api_reputation : Z
}.

Section Collaborators.
(** The network-facing collaborators: the reputation feeds and the
    domain-intelligence lookups. *)
Variable Intel : Type.
Variable check_all_apis : string -> list ApiResult.
Variable gather_url_intel : string -> result Intel.
(** The text of the error the request model raises around a
    validator's message. *)
Variable validation_error : string -> string.

Definition new_UrlScanRequest (raw : string) : result UrlScanRequest :=
  try_except (v ← validate_url raw; Ok (mkUrlScanRequest v))
             (fun e => Raise (ValueError (validation_error (Py.str e)))).

Definition new_EmailScanRequest (raw : string) : result EmailScanRequest :=
  try_except (v ← validate_content raw; Ok (mkEmailScanRequest v))
             (fun e => Raise (ValueError (validation_error (Py.str e)))).

Record UrlScanResult := mkUrlScanResult {
  overall_score : Z;
  label_ : string;
  sub_scores : SubScores;
  indicators : list Reported;
  education : list Card;
  api_status : gmap string string;
  ml_status : string;
  intel : Intel;
  scan_type : string;
  scanned_input : string
}.

Definition scan_url (request : UrlScanRequest) : result UrlScanResult :=
  let url := url request in
  (* Layer 1: Heuristic analysis *)
  url_indicators ← analyze_url_heuristics url;
  (* Layer 2: ML prediction (disabled) *)
  let ml_result := Some (mkMlResult None false None) in
  (* Layer 3: External API checks *)
  let api_results := check_all_apis url in
  domain_score ← compute_domain_score url_indicators ml_result;
  structural_score ← compute_structural_score url_indicators;
  let language_score := 0 in
  '(api_score, api_available) ← compute_api_score api_results;
  '(overall, lbl) ← compute_overall_score domain_score structural_score
                       language_score api_score api_available;
  let education := generate_education url_indicators lbl in
  let detected := detected_indicators url_indicators in
  (* Layer 4: URL Intelligence gathering *)
  intel ← gather_url_intel url;
  Ok (mkUrlScanResult overall lbl
        (mkSubScores domain_score structural_score language_score api_score)
        detected education (_build_api_status api_results) "disabled" intel
        "url" url).

Record EmailScanResult := mkEmailScanResult {
  e_overall_score : Z;
  e_label : string;
  e_sub_scores : SubScores;
  e_indicators : list Reported;
  e_education : list Card;
  e_api_status : gmap string string;
  e_ml_status : string;
  e_scan_type : string;
  e_scanned_input : string;
  e_extracted_urls : list string
}.

(** The loop over the extracted URLs: both lists grow in step. *)
Fixpoint scan_extracted (urls : list string)
    (all_url_indicators : list Indicator) (all_api_results : list ApiResult)
  : result (list Indicator * list ApiResult) :=
  match urls with
  | [] => Ok (all_url_indicators, all_api_results)
  | url :: rest =>
      url_inds ← analyze_url_heuristics url;
      scan_extracted rest (all_url_indicators ++ url_inds)
                     (all_api_results ++ check_all_apis url)
  end.

Definition scan_email (request : EmailScanRequest) : result EmailScanResult :=
  let content := content request in
  (* Layer 1a: Email language heuristics *)
  let '(email_indicators, extracted_urls) := analyze_email_heuristics content in
  (* Layer 1b + 2 + 3: Analyze extracted URLs *)
  let ml_result := Some (mkMlResult None false None) in
  '(all_url_indicators, all_api_results) ← scan_extracted (take 5 extracted_urls) [] [];
  domain_score ←
    match all_url_indicators with
    | [] => Ok 0
    | _ => compute_domain_score all_url_indicators ml_result
    end;
  structural_score ←
    match all_url_indicators with
    | [] => Ok 0
    | _ => compute_structural_score all_url_indicators
    end;
  language_score ← compute_language_score email_indicators;
  '(api_score, api_available) ←
    match all_api_results with
    | [] => Ok (0, false)
    | _ => compute_api_score all_api_results
    end;
  '(overall, lbl) ← compute_overall_score domain_score structural_score
                       language_score api_score api_available;
  let all_indicators := email_indicators ++ all_url_indicators in
  let education := generate_education all_indicators lbl in
  let detected := detected_indicators_unique all_indicators in
  let api_status :=
    match all_api_results with
    | [] => ∅
    | _ => _build_api_status (take 4 all_api_results)
    end in
  Ok (mkEmailScanResult overall lbl
        (mkSubScores domain_score structural_score language_score api_score)
        detected education api_status "disabled" "email"
        (Str.take 200 content +:+ (if 200 <? Str.len content then "..." else EmptyString))
        (take 5 extracted_urls)).

(** The two endpoints as the framework serves them: the body is turned
    into the request model first, and the handler runs only on an
    instance. *)
Definition post_url (raw : string) : result UrlScanResult :=
  request ← new_UrlScanRequest raw; scan_url request.

Definition post_email (raw : string) : result EmailScanResult :=
  request ← new_EmailScanRequest raw; scan_email request.

End Collaborators.

End Scan.

(** ** routers/bulk.py *)

Module Bulk.
Import Float64 Scorer Scan.

Definition validate_urls (v : list string) : result (list string) :=
  match v with
  | [] => Raise (ValueError "URL list cannot be empty")
  | _ =>
      if 10 <? Z.of_nat (length v) then Raise (ValueError "Maximum 10 URLs per bulk scan")
      else
        let cleaned :=
          fold_left (fun cleaned url =>
                       let url := Str.strip url in
                       if Str.is_empty url then cleaned else cleaned ++ [url])
                    v [] in
        match cleaned with
        | [] => Raise (ValueError "No valid URLs provided")
        | _ => Ok cleaned
        end
  end.

Record BulkScanRequest := mkBulkScanRequest { urls : list string }.

Section Collaborators.
Variable Intel : Type.
Variable check_all_apis : string -> list ApiResult.
Variable gather_url_intel : string -> result Intel.
Variable validation_error : string -> string.

Definition new_BulkScanRequest (raw : list string) : result BulkScanRequest :=
  try_except (v ← validate_urls raw; Ok (mkBulkScanRequest v))
             (fun e => Raise (ValueError (validation_error (Py.str e)))).

(** One entry of ["results"]: a scan result, or the record written by
    the [except] branch. *)
Inductive Item :=
| Scanned (r : UrlScanResult Intel)
| Failed (scanned_input : string) (error : string).

(** [r.get("overall_score")] and [r.get("label")] *)
Definition item_overall_score (r : Item) : option Z :=
  match r with
  | Scanned s => Some (overall_score Intel s)
  | Failed _ _ => None
  end.
Definition item_label (r : Item) : string :=
  match r with
  | Scanned s => label_ Intel s
  | Failed _ _ => "error"
  end.

Record Distribution := mkDistribution {
  safe : Z;
  suspicious : Z;
  dangerous : Z
}.

Record Summary := mkSummary {
  total : Z;
  scanned : Z;
  errors : Z;
  avg_score : Z;
  highest_risk : Z;
  distribution : Distribution
}.

Record Response := mkResponse {
  summary : Summary;
  results : list Item
}.

(** The body of the [for] loop: the [try] block and its [except]. *)
Definition scan_one (url : string) : result Item :=
  try_except
    (url_request ← new_UrlScanRequest validation_error url;
     result ← scan_url Intel check_all_apis gather_url_intel url_request;
     Ok (Scanned result))
    (fun e => Ok (Failed url (Py.str e))).

(** The [for] loop: an exception leaving the body would leave the
    loop and the handler with it. *)
Fixpoint scan_all (urls : list string) (results : list Item) : result (list Item) :=
  match urls with
  | [] => Ok results
  | url :: rest =>
      item ← scan_one url;
      scan_all rest (results ++ [item])
  end.

(** [sum(xs)] over ints and [max(xs, default=0)]. *)
Definition int_sum (xs : list Z) : Z := fold_left Z.add xs 0.
Definition int_max_default (xs : list Z) : Z :=
  match xs with
  | [] => 0
  | x :: rest => fold_left (fun m y => if m <? y then y else m) rest x
  end.

(** [sum(1 for r in valid_results if r.get("label") == l)] *)
Definition count_label (l : string) (valid_results : list Item) : Z :=
  fold_left (fun acc r => if String.eqb (item_label r) l then acc + 1 else acc)
            valid_results 0.

Definition scan_bulk (request : BulkScanRequest) : result Response :=
  results ← scan_all (urls request) [];
  (* Summary stats *)
  let valid_results := filter (fun r => item_overall_score r ≠ None) results in
  let scores := omap item_overall_score valid_results in
  avg ←
    match valid_results with
    | [] => Ok 0
    | _ =>
        mean ← int_truediv (int_sum scores) (Z.of_nat (length valid_results));
        py_round mean
    end;
  Ok (mkResponse
        (mkSummary
           (Z.of_nat (length results))
           (Z.of_nat (length valid_results))
           (Z.of_nat (length results) - Z.of_nat (length valid_results))
           avg
           (int_max_default scores)
           (mkDistribution
              (count_label "safe" valid_results)
              (count_label "suspicious" valid_results)
              (count_label "dangerous" valid_results)))
        results).

Definition post_bulk (raw : list string) : result Response :=
  request ← new_BulkScanRequest raw; scan_bulk request.

(** For the statement of the batch property: what scanning one URL on its
    own gives, the entry that outcome becomes, the entries that carry a
    score, and how many of them bear a label. *)
Definition attempt (url : string) : result (UrlScanResult Intel) :=
  url_request ← new_UrlScanRequest validation_error url;
  scan_url Intel check_all_apis gather_url_intel url_request.

Definition item_of (url : string) : Item :=
  match attempt url with
  | Ok r => Scanned r
  | Raise e => Failed url (Py.str e)
  end.

Definition scored (results : list Item) : list (UrlScanResult Intel) :=
  omap (fun r => match r with Scanned s => Some s | Failed _ _ => None end) results.

Definition labelled (l : string) (rs : list (UrlScanResult Intel)) : Z :=
  Z.of_nat (length (filter (fun r => label_ Intel r = l) rs)).

End Collaborators.

End Bulk.

(** ** The scoring rules in the specification's words

    Second definitions, written from the prose of the specification, to be
    compared with the functions of [Scorer]. Each [*_final] is the value a
    score has just before it is rounded and clamped. *)

Module Spec.
Import Float64 Heuristics Scorer.

(** The detected indicators of one category. *)
Definition fired (category : gset string) (inds : list Indicator) : list Indicator :=
  filter (fun ind => name ind ∈ category ∧ detected ind = true) inds.

Definition count {A} (xs : list A) : Z := Z.of_nat (length xs).

Definition avg (xs : list float) : result float := truediv (py_sum xs) (count xs).

(** [blended = 0.6 x max + 0.4 x avg], [countBoost = min(1, 0.5 + 0.2 x count)],
    [heuristicScore = blended x 100 x countBoost]; 0 when none fired. *)
Definition heuristic_score (fired : list Indicator) : result float :=
  match fired with
  | [] => Ok zero
  | _ =>
      mx ← py_max_list (severities fired);
      av ← avg (severities fired);
      let blended := add (mul f0_6 mx) (mul f0_4 av) in
      let count_boost := py_min f1_0 (add f0_5 (mul f0_2 (of_int (count fired)))) in
      Ok (mul (mul blended (of_int 100)) count_boost)
  end.

Definition domain_final (inds : list Indicator) (ml : option MlResult) : result float :=
  h ← heuristic_score (fired domain_indicator_names inds);
  Ok match ml_probability ml with
     | Some p => add (mul f0_6 h) (mul f0_4 (mul p (of_int 100)))
     | None => h
     end.

Definition structural_final (inds : list Indicator) : result float :=
  heuristic_score (fired structural_names inds).

(** [avg(severity) x 100 x min(1, count x 0.2)]; 0 when none fired. *)
Definition language_final (inds : list Indicator) : result float :=
  let fired := filter (fun ind => detected ind = true) inds in
  match fired with
  | [] => Ok zero
  | _ =>
      av ← avg (severities fired);
      Ok (mul (mul av (of_int 100)) (py_min f1_0 (mul (of_int (count fired)) f0_2)))
  end.

Definition available_feeds (feeds : list ApiResult) : list ApiResult :=
  filter (fun r => is_available r = true) feeds.
Definition threat_hits (feeds : list ApiResult) : list ApiResult :=
  filter (fun r => is_threat r = true) (available_feeds feeds).

(** [threatRatio x 60 + (sumOfConfidenceOverThreatHits / threatCount) x 40] *)
Definition api_final (feeds : list ApiResult) : result float :=
  threat_ratio ← int_truediv (count (threat_hits feeds)) (count (available_feeds feeds));
  mean ← truediv (py_sum (map confidence (threat_hits feeds))) (count (threat_hits feeds));
  Ok (add (mul threat_ratio (of_int 60)) (mul mean (of_int 40))).

Definition api_score (feeds : list ApiResult) : result (Z * bool) :=
  match available_feeds feeds, threat_hits feeds with
  | [], _ => Ok (0, false)
  | _, [] => Ok (0, true)
  | _, _ => x ← api_final feeds; r ← round_clamp x; Ok (r, true)
  end.

(** The two weight tables, as the four numbers the specification lists. *)
Definition weights (api_available : bool) : float * float * float * float :=
  if api_available then (f0_35, f0_25, f0_20, f0_20)
  else (f0_44, f0_31, f0_25, zero).

Definition overall_final (d s l a : Z) (api_available : bool) : float :=
  let '(wd, ws, wl, wa) := weights api_available in
  add (add (add (mul (of_int d) wd) (mul (of_int s) ws)) (mul (of_int l) wl))
      (mul (of_int a) wa).

(** The rational [k + 0.5]. *)
Definition half_above (k : Z) : Q := (inject_Z k + (1 # 2))%Q.

(** The tie-breaking rule of the final rounding: the even neighbour. *)
Definition half_to_even (k : Z) : Z := if Z.even k then k else k + 1.

End Spec.

(** ** utils/url_features.py *)

Module UrlFeatures.
Import Float64.

(** [c.isdigit()], [c.isalpha()] and [c.isalnum()] for a code point
    below 256: the superscript digits count as digits, the vulgar
    fractions as alphanumeric only. *)
Definition isdigit (c : ascii) : bool :=
  Str.in_range 48 57 c || Str.in_range 178 179 c || (Str.code c =? 185)%N.

Definition isalpha (c : ascii) : bool :=
  Str.in_range 65 90 c || Str.in_range 97 122 c
  || (Str.code c =? 170)%N || (Str.code c =? 181)%N || (Str.code c =? 186)%N
  || Str.in_range 192 214 c || Str.in_range 216 246 c || Str.in_range 248 255 c.

Definition isalnum (c : ascii) : bool :=
  isalpha c || isdigit c || Str.in_range 188 190 c.

(** [sum(1 for c in s if f(c))] *)
Fixpoint count_if (f : ascii -> bool) (s : string) : Z :=
  match s with
  | EmptyString => 0
  | String c rest => (if f c then 1 else 0) + count_if f rest
  end.

(** [s.split(c)] for a one-character separator. *)
Fixpoint split (c : ascii) (s : string) : list string :=
  match s with
  | EmptyString => [EmptyString]
  | String d rest =>
      if Ascii.eqb c d then EmptyString :: split c rest
      else match split c rest with
           | first :: others => String d first :: others
           | [] => [String d EmptyString]
           end
  end.

(** [len([p for p in s.split(c) if p])] *)
Definition count_parts (c : ascii) (s : string) : Z :=
  Z.of_nat (length (filter (fun p => p <> EmptyString) (split c s))).

(** [freq[ch] = freq.get(ch, 0) + 1]: a dict keeps its keys in the order
    of their first insertion, and the entropy sums in that order. *)
Fixpoint bump (ch : ascii) (freq : list (ascii * Z)) : list (ascii * Z) :=
  match freq with
  | [] => [(ch, 0 + 1)]
  | (k, n) :: rest =>
      if Ascii.eqb k ch then (k, n + 1) :: rest else (k, n) :: bump ch rest
  end.

(** A feature value: an int or a float. *)
Inductive value :=
| VInt (z : Z)
| VFloat (f : float).

Definition FEATURE_NAMES : list string :=
  [ "url_length"; "hostname_length"; "path_length"; "digit_count"; "letter_count";
    "special_count"; "dot_count"; "hyphen_count"; "underscore_count"; "slash_count";
    "at_count"; "question_count"; "ampersand_count"; "equals_count"; "subdomain_count";
    "path_depth"; "query_param_count"; "has_https"; "has_ip"; "domain_entropy";
    "digit_ratio"; "special_ratio" ].

(** [[features_dict[name] for name in FEATURE_NAMES]] *)
Definition url_features_to_array (features_dict : gmap string value) : result (list value) :=
  mapM (fun name =>
          match features_dict !! name with
          | Some v => Ok v
          | None => Raise (OtherException ("KeyError: " +:+ name))
          end) FEATURE_NAMES.

Section Log2.
(** [math.log2], the C library's. *)
Variable math_log2 : float -> result float.

Definition _shannon_entropy (text : string) : result float :=
  if Str.is_empty text then Ok zero
  else
    let freq := fold_left (fun freq ch => bump ch freq) (list_ascii_of_string text) [] in
    let length := Str.len text in
    entropy ←
      fold_left (fun entropy count =>
                   entropy ← entropy;
                   p ← int_truediv count length;
                   l ← math_log2 p;
                   Ok (SFsub prec emax entropy (mul p l)))
                (map snd freq) (Ok zero);
    Ok (MlModel.round4 entropy).

(** [x / n if n > 0 else 0], then [round(_, 4)]: the int 0 stays an
    int. *)
Definition ratio (x n : Z) : result value :=
  if 0 <? n then r ← int_truediv x n; Ok (VFloat (MlModel.round4 r))
  else Ok (VInt 0).

Definition extract_url_features (url : string) : result (gmap string value) :=
  parsed ← Urllib.urlparse url;
  let hostname := default EmptyString (Urllib.hostname parsed) in
  let path := Urllib.path parsed in
  let query := Urllib.query parsed in
  (* Basic length features *)
  let url_length := Str.len url in
  let hostname_length := Str.len hostname in
  let path_length := Str.len path in
  (* Character counts *)
  let digit_count := count_if isdigit url in
  let letter_count := count_if isalpha url in
  let special_count :=
    count_if (fun c => negb (isalnum c)
                       && negb (Ascii.eqb c ":" || Ascii.eqb c "/" || Ascii.eqb c ".")) url in
  (* Structural features *)
  let dot_count := Str.count_char "." url in
  let hyphen_count := Str.count_char "-" url in
  let underscore_count := Str.count_char "_" url in
  let slash_count := Str.count_char "/" url - 2 in
  let at_count := Str.count_char "@" url in
  let question_count := Str.count_char "?" url in
  let ampersand_count := Str.count_char "&" url in
  let equals_count := Str.count_char "=" url in
  (* Domain features *)
  let subdomain_count :=
    if Str.is_empty hostname then 0 else Z.max 0 (Str.count_char "." hostname - 1) in
  let path_depth := count_parts "/" path in
  let query_param_count := if Str.is_empty query then 0 else count_parts "&" query in
  (* Boolean features (as 0/1) *)
  let has_https := if String.eqb (Urllib.scheme parsed) "https" then 1 else 0 in
  let has_ip := if Heuristics.is_ip_literal hostname then 1 else 0 in
  (* Entropy *)
  domain_entropy ← _shannon_entropy hostname;
  (* Ratios *)
  digit_ratio ← ratio digit_count url_length;
  special_ratio ← ratio special_count url_length;
  Ok (list_to_map
        [ ("url_length", VInt url_length);
          ("hostname_length", VInt hostname_length);
          ("path_length", VInt path_length);
          ("digit_count", VInt digit_count);
          ("letter_count", VInt letter_count);
          ("special_count", VInt special_count);
          ("dot_count", VInt dot_count);
          ("hyphen_count", VInt hyphen_count);
          ("underscore_count", VInt underscore_count);
          ("slash_count", VInt (Z.max 0 slash_count));
          ("at_count", VInt at_count);
          ("question_count", VInt question_count);
          ("ampersand_count", VInt ampersand_count);
          ("equals_count", VInt equals_count);
          ("subdomain_count", VInt subdomain_count);
          ("path_depth", VInt path_depth);
          ("query_param_count", VInt query_param_count);
          ("has_https", VInt has_https);
          ("has_ip", VInt has_ip);
          ("domain_entropy", VFloat domain_entropy);
          ("digit_ratio", digit_ratio);
          ("special_ratio", special_ratio) ]).

End Log2.

End UrlFeatures.

(** ** engine/intel.py: the two lookups that need no certificate, WHOIS
    or DNS data *)

Module Intel.

Definition SHORTENER_DOMAINS : gset string :=
  {[ "bit.ly"; "tinyurl.com"; "t.co"; "goo.gl"; "ow.ly";
     "is.gd"; "buff.ly"; "rebrand.ly"; "cutt.ly"; "shorturl.at";
     "tiny.cc" ]}.



(** The dict of [unshorten_url]; the key ["redirect_chain_length"] is
    there only after a request. *)
Record Unshortened := mkUnshortened {
  is_shortened : bool;
  final_url : string;
  redirect_chain_length : option Z;
  u_error : option string
}.

(** What [requests.head(url, allow_redirects=True, ...)] answers:
    [response.url] and [len(response.history)], or the exception it
    raises. *)
Record Response := mkResponse {
  response_url : string;
  history_length : Z
}.

Section Requests.
Variable requests_head : string -> result Response.

Definition unshorten_url (url : string) : result Unshortened :=
  try_except
    (parsed ← Urllib.urlparse url;
     match Urllib.hostname parsed with
     | None => Ok (mkUnshortened false url None None)
     | Some hostname =>
         (* Only unshorten known shortener domains *)
         if bool_decide (hostname ∉ SHORTENER_DOMAINS)
         then Ok (mkUnshortened false url None None)
         else
           response ← requests_head url;
           let final_url := response_url response in
           Ok (mkUnshortened (negb (String.eqb final_url url)) final_url
                 (Some (history_length response)) None)
     end)
    (fun e => Ok (mkUnshortened false url None (Some (Py.str e)))).

End Requests.

End Intel.

(** ** Notions the properties are stated with *)

Module Notions.
Import Heuristics Scorer Scan.


Definition is_alnum (c : ascii) : bool := Str.isalpha_ascii c || Str.isdigit c.

Definition after_scheme : Re.regex :=
  Re.Seq (Re.Star (Re.Seq host_label (Re.Char "."))) host_label.

(** The URL a request ends up with: the stripped input, with [http://]
    put in front unless it starts with [http://] or [https://]. *)
Definition with_scheme (raw : string) : string :=
  let v := Str.strip raw in
  if negb (Str.startswith "http://" v || Str.startswith "https://" v)
  then "http://" +:+ v else v.

End Notions.

(** * Properties *)

(** ** Magnitudes: when binary64 arithmetic stays finite *)

Section Magnitude.
Import Float64.

Lemma digits2_pos_size (p : positive) : digits2_pos p = Pos.size p.
Proof. induction p; simpl; congruence. Qed.

Lemma Zdigits2_log2 (m : Z) : 0 < m -> Zdigits2 m = Z.log2 m + 1.
Proof.
  destruct m as [| p | p]; try lia. intros _. simpl.
  rewrite digits2_pos_size. destruct p; simpl; lia.
Qed.

Lemma Zdigits2_nonneg (m : Z) : 0 <= Zdigits2 m.
Proof. destruct m; simpl; lia. Qed.

Lemma Zdigits2_le (a b : Z) : 0 <= a <= b -> Zdigits2 a <= Zdigits2 b.
Proof.
  intros [Ha Hab]. destruct (Z.eq_dec a 0) as [-> | Hne].
  - apply Zdigits2_nonneg.
  - rewrite !Zdigits2_log2 by lia. pose proof (Z.log2_le_mono a b Hab). lia.
Qed.

Lemma Zdigits2_succ (m : Z) : 0 <= m -> Zdigits2 (m + 1) <= Zdigits2 m + 1.
Proof.
  intros Hm. destruct (Z.eq_dec m 0) as [-> | Hne]; [simpl; lia |].
  rewrite !Zdigits2_log2 by lia.
  pose proof (Z.log2_succ_le m). unfold Z.succ in *. lia.
Qed.

Lemma Zdigits2_div_pow2 (m n : Z) :
  0 <= m -> 0 <= n -> 0 < m / 2 ^ n -> Zdigits2 (m / 2 ^ n) + n <= Zdigits2 m.
Proof.
  intros Hm Hn Hq.
  assert (0 < m).
  { destruct (Z.eq_dec m 0) as [-> | ?]; [rewrite Z.div_0_l in Hq; lia | lia]. }
  assert (Hpow : 0 < 2 ^ n) by (apply Z.pow_pos_nonneg; lia).
  assert (Hge : 2 ^ n <= m).
  { pose proof (Z.mul_div_le m (2 ^ n) Hpow). nia. }
  apply Z.log2_le_pow2 in Hge; [| lia].
  rewrite !Zdigits2_log2 by lia.
  rewrite <- Z.shiftr_div_pow2 by lia.
  rewrite Z.log2_shiftr by lia. lia.
Qed.

Lemma Zdigits2_mul (a b : Z) :
  0 < a -> 0 < b -> Zdigits2 (a * b) <= Zdigits2 a + Zdigits2 b.
Proof.
  intros Ha Hb. rewrite !Zdigits2_log2 by lia.
  pose proof (Z.log2_mul_above a b ltac:(lia) ltac:(lia)). lia.
Qed.

Lemma shr_1_m (r : shr_record) : 0 <= shr_m r -> shr_m (shr_1 r) = shr_m r / 2.
Proof.
  destruct r as [m rb sb]. simpl. intros Hm.
  destruct m as [| [p | p |] | p]; try lia; simpl shr_m.
  - reflexivity.
  - rewrite Pos2Z.inj_xI. rewrite Z.add_comm, Z.mul_comm, Z.div_add by lia. reflexivity.
  - rewrite Pos2Z.inj_xO. rewrite Z.mul_comm, Z.div_mul by lia. reflexivity.
  - reflexivity.
Qed.

Lemma iter_shr_1_m (n : positive) (r : shr_record) :
  0 <= shr_m r -> shr_m (SpecFloat.iter_pos shr_1 n r) = shr_m r / 2 ^ Zpos n.
Proof.
  revert r. induction n as [n IH | n IH |]; intros r Hr; simpl SpecFloat.iter_pos.
  - assert (Hp : 0 < 2 ^ Zpos n) by (apply Z.pow_pos_nonneg; lia).
    assert (H1 : 0 <= shr_m (shr_1 r)) by (rewrite shr_1_m by lia; apply Z.div_pos; lia).
    assert (H2 : 0 <= shr_m (SpecFloat.iter_pos shr_1 n (shr_1 r)))
      by (rewrite IH by lia; apply Z.div_pos; lia).
    rewrite IH, IH, shr_1_m by lia.
    rewrite !Z.div_div by lia. f_equal.
    rewrite Pos2Z.inj_xI, <- Z.pow_add_r, <- Z.pow_succ_r by lia.
    f_equal. lia.
  - assert (Hp : 0 < 2 ^ Zpos n) by (apply Z.pow_pos_nonneg; lia).
    assert (H2 : 0 <= shr_m (SpecFloat.iter_pos shr_1 n r))
      by (rewrite IH by lia; apply Z.div_pos; lia).
    rewrite IH, IH by lia.
    rewrite !Z.div_div by lia. f_equal.
    rewrite Pos2Z.inj_xO, <- Z.pow_add_r by lia. f_equal. lia.
  - rewrite shr_1_m by lia. reflexivity.
Qed.

Lemma shr_record_of_loc_m (m : Z) (l : location) : shr_m (shr_record_of_loc m l) = m.
Proof. destruct l as [| []]; reflexivity. Qed.

Lemma round_nearest_even_bounds (m : Z) (l : location) :
  m <= round_nearest_even m l <= m + 1.
Proof.
  unfold round_nearest_even. destruct l as [| []]; try lia.
  destruct (Z.even m); lia.
Qed.

(** One normalising shift: the mantissa does not grow, the exponent
    becomes the larger of the old one and the canonical one, and the
    position of the leading bit does not move up. *)
Lemma shr_fexp_bounds (m e : Z) (l : location) (r : shr_record) (e' : Z) :
  0 <= m ->
  shr_fexp prec emax m e l = (r, e') ->
  0 <= shr_m r <= m /\
  e' = Z.max e (fexp prec emax (Zdigits2 m + e)) /\
  Zdigits2 (shr_m r) + e' <= Z.max (Zdigits2 m + e) e'.
Proof.
  intros Hm. unfold shr_fexp, shr.
  destruct (fexp prec emax (Zdigits2 m + e) - e) as [| n | n] eqn:Hn;
    intros [= <- <-]; rewrite ?shr_record_of_loc_m; try (repeat split; lia).
  rewrite iter_shr_1_m by (rewrite shr_record_of_loc_m; lia).
  rewrite shr_record_of_loc_m.
  assert (Hp : 0 < 2 ^ Zpos n) by (apply Z.pow_pos_nonneg; lia).
  assert (Hq : 0 <= m / 2 ^ Zpos n) by (apply Z.div_pos; lia).
  assert (Hle : m / 2 ^ Zpos n <= m).
  { apply Z.div_le_upper_bound; [lia | nia]. }
  repeat split; try lia.
  destruct (Z.eq_dec (m / 2 ^ Zpos n) 0) as [-> | Hne]; [simpl; lia |].
  pose proof (Zdigits2_div_pow2 m (Zpos n) Hm ltac:(lia) ltac:(lia)). lia.
Qed.

(** Rounding a mantissa whose leading bit sits below [2^T] yields zero
    or a finite value below [2^(T+1)]: never an infinity, never NaN. *)
Lemma binary_round_aux_magnitude (s : bool) (mx ex : Z) (lx : location) (T : Z) :
  0 <= mx -> Zdigits2 mx + ex <= T -> ex <= 971 -> -1074 <= T <= 1023 ->
  magnitude_le (T + 1) (binary_round_aux prec emax s mx ex lx).
Proof.
  intros Hmx HT Hex HTr. unfold binary_round_aux.
  destruct (shr_fexp prec emax mx ex lx) as [r1 e1] eqn:H1.
  apply shr_fexp_bounds in H1; [| lia]. destruct H1 as (Hm1 & He1 & Hd1).
  pose proof (round_nearest_even_bounds (shr_m r1) (loc_of_shr_record r1)) as Hrne.
  set (m2 := round_nearest_even (shr_m r1) (loc_of_shr_record r1)) in *.
  destruct (shr_fexp prec emax m2 e1 loc_Exact) as [r2 e2] eqn:H2.
  apply shr_fexp_bounds in H2; [| lia]. destruct H2 as (Hm2 & He2 & Hd2).
  pose proof (Zdigits2_nonneg mx) as Hdx.
  pose proof (Zdigits2_nonneg (shr_m r1)) as Hd1n.
  assert (Hd2' : Zdigits2 m2 <= Zdigits2 (shr_m r1) + 1).
  { etransitivity; [apply (Zdigits2_le m2 (shr_m r1 + 1)); lia |].
    apply Zdigits2_succ; lia. }
  unfold fexp, emin, prec, emax in *.
  destruct (shr_m r2) as [| p | p] eqn:Hr2; [exact I | | lia].
  simpl Zdigits2 in Hd2.
  destruct (Z.leb_spec e2 (1024 - 53)); simpl; lia.
Qed.

Lemma iter_xO_pow2 (m d : positive) : Zpos (Pos.iter xO m d) = Zpos m * 2 ^ Zpos d.
Proof.
  induction d as [| d IH] using Pos.peano_ind.
  - simpl. lia.
  - rewrite Pos.iter_succ, Pos2Z.inj_xO, IH, Pos2Z.inj_succ, Z.pow_succ_r by lia. lia.
Qed.

(** Aligning a mantissa to a smaller exponent keeps its value, hence the
    position of its leading bit. *)
Lemma shl_align_spec (mx : positive) (ex ex' : Z) (m' : positive) (e' : Z) :
  shl_align mx ex ex' = (m', e') ->
  e' <= ex /\ (ex' <= ex -> e' = ex') /\
  Zpos m' = Zpos mx * 2 ^ (ex - e') /\
  Zpos (digits2_pos m') + e' = Zpos (digits2_pos mx) + ex.
Proof.
  unfold shl_align. destruct (ex' - ex) as [| d | d] eqn:Hd; intros [= <- <-].
  - rewrite Z.sub_diag. simpl. repeat split; lia.
  - rewrite Z.sub_diag. simpl. repeat split; lia.
  - assert (Hk : ex - ex' = Zpos d) by lia.
    rewrite Hk, iter_xO_pow2. repeat split; try lia.
    change (Zpos (digits2_pos (Pos.iter xO mx d))) with (Zdigits2 (Zpos (Pos.iter xO mx d))).
    change (Zpos (digits2_pos mx)) with (Zdigits2 (Zpos mx)).
    rewrite iter_xO_pow2.
    assert (0 < 2 ^ Zpos d) by (apply Z.pow_pos_nonneg; lia).
    rewrite !Zdigits2_log2 by nia.
    rewrite Z.log2_mul_pow2 by lia. lia.
Qed.

Lemma binary_round_magnitude (s : bool) (mx : positive) (ex T : Z) :
  Zpos (digits2_pos mx) + ex <= T -> ex <= 971 -> -1074 <= T <= 1023 ->
  magnitude_le (T + 1) (binary_round prec emax s mx ex).
Proof.
  intros HT Hex HTr. unfold binary_round.
  destruct (shl_align mx ex _) as [mz ez] eqn:Hal.
  apply shl_align_spec in Hal. destruct Hal as (He & _ & _ & Hd).
  apply binary_round_aux_magnitude; simpl Zdigits2; lia.
Qed.

Lemma of_int_magnitude (z B : Z) :
  Zdigits2 z <= B -> 0 <= B <= 1023 -> magnitude_le (B + 1) (of_int z).
Proof.
  intros Hz HB. unfold of_int, binary_normalize.
  destruct z as [| p | p]; [exact I | |];
    apply binary_round_magnitude; simpl in *; lia.
Qed.

Lemma magnitude_le_mono (B B' : Z) (x : float) :
  B <= B' -> magnitude_le B x -> magnitude_le B' x.
Proof. destruct x; simpl; auto. lia. Qed.

Lemma magnitude_ge_mono (L L' : Z) (x : float) :
  L <= L' -> magnitude_ge L' x -> magnitude_ge L x.
Proof. destruct x; simpl; auto. lia. Qed.

Lemma mul_magnitude (x y : float) (Bx By : Z) :
  magnitude_le Bx x -> magnitude_le By y -> -1074 <= Bx + By <= 973 ->
  magnitude_le (Bx + By + 1) (mul x y).
Proof.
  destruct x as [sx | sx | | sx mx ex], y as [sy | sy | | sy my ey];
    simpl; try tauto.
  intros Hx Hy HB.
  apply binary_round_aux_magnitude; try lia.
  pose proof (Zdigits2_mul (Zpos mx) (Zpos my) ltac:(lia) ltac:(lia)) as Hm.
  simpl in Hm |- *. lia.
Qed.

Lemma add_magnitude (x y : float) (B : Z) :
  magnitude_le B x -> magnitude_le B y -> -1074 <= B <= 972 ->
  magnitude_le (B + 2) (add x y).
Proof.
  destruct x as [sx | sx | | sx mx ex], y as [sy | sy | | sy my ey];
    simpl; try tauto; try (intros; lia).
  - destruct sx, sy; simpl; tauto.
  - intros Hx Hy HB.
    destruct (shl_align mx ex (Z.min ex ey)) as [mx' ex'] eqn:Hax.
    destruct (shl_align my ey (Z.min ex ey)) as [my' ey'] eqn:Hay.
    apply shl_align_spec in Hax, Hay.
    destruct Hax as (_ & Hex' & _ & Hdx). destruct Hay as (_ & Hey' & _ & Hdy).
    specialize (Hex' ltac:(lia)). specialize (Hey' ltac:(lia)). subst ex' ey'.
    simpl fst.
    set (z := cond_Zopp sx (Zpos mx') + cond_Zopp sy (Zpos my')).
    assert (Hz : Z.abs z <= 2 * Z.max (Zpos mx') (Zpos my')).
    { unfold z, cond_Zopp. destruct sx, sy; lia. }
    assert (Hdz : Zdigits2 (Z.abs z) <= Z.max (Zdigits2 (Zpos mx')) (Zdigits2 (Zpos my')) + 1).
    { etransitivity; [apply Zdigits2_le; split; [lia | exact Hz] |].
      rewrite !Zdigits2_log2 by lia.
      rewrite Z.log2_double by lia.
      destruct (Z.max_spec (Zpos mx') (Zpos my')) as [[_ ->] | [_ ->]]; lia. }
    assert (Hdz' : Zdigits2 z = Zdigits2 (Z.abs z)) by (destruct z; reflexivity).
    simpl Zdigits2 in Hdz at 2 3.
    unfold binary_normalize.
    destruct z as [| p | p] eqn:Hzp; [exact I | |];
      apply (magnitude_le_mono (B + 1 + 1)); try lia;
      apply binary_round_magnitude; simpl in *; lia.
Qed.

(** A value of bounded magnitude is one [round] accepts. *)
Lemma py_round_total (x : float) (B : Z) :
  magnitude_le B x -> exists r, py_round x = Ok r.
Proof. destruct x; simpl; try tauto; eauto. Qed.

(** Above the smallest subnormal, the normalising shift keeps the
    leading bit where it is. *)
Lemma shr_fexp_exact (m e : Z) (l : location) (r : shr_record) (e' : Z) :
  0 < m -> -1074 < Zdigits2 m + e ->
  shr_fexp prec emax m e l = (r, e') ->
  0 < shr_m r /\ Zdigits2 (shr_m r) + e' = Zdigits2 m + e.
Proof.
  intros Hm Hlow. unfold shr_fexp, shr.
  destruct (fexp prec emax (Zdigits2 m + e) - e) as [| n | n] eqn:Hn;
    intros [= <- <-]; rewrite ?shr_record_of_loc_m; try (split; lia).
  rewrite iter_shr_1_m by (rewrite shr_record_of_loc_m; lia).
  rewrite shr_record_of_loc_m.
  assert (Hnd : Zpos n <= Z.log2 m).
  { unfold fexp, emin, prec, emax in Hn. rewrite Zdigits2_log2 in Hn, Hlow by lia. lia. }
  assert (Hpow : 2 ^ Zpos n <= m) by (apply Z.log2_le_pow2; lia).
  assert (Hp : 0 < 2 ^ Zpos n) by (apply Z.pow_pos_nonneg; lia).
  assert (Hq : 0 < m / 2 ^ Zpos n) by (apply Z.div_str_pos; lia).
  split; [exact Hq |].
  rewrite !Zdigits2_log2 by lia.
  rewrite <- Z.shiftr_div_pow2, Z.log2_shiftr by lia. lia.
Qed.

Lemma binary_round_aux_finite (s : bool) (mx ex : Z) (lx : location) (T : Z) :
  0 < mx -> Zdigits2 mx + ex <= T -> ex <= 971 -> -1074 < Zdigits2 mx + ex -> T <= 1023 ->
  magnitude_le (T + 1) (binary_round_aux prec emax s mx ex lx) /\
  magnitude_ge (Zdigits2 mx + ex) (binary_round_aux prec emax s mx ex lx).
Proof.
  intros Hmx HT Hex Hlow HTr.
  split; [apply binary_round_aux_magnitude; lia |].
  pose proof (binary_round_aux_magnitude s mx ex lx T ltac:(lia) HT Hex ltac:(lia)) as Hup.
  unfold binary_round_aux in *.
  destruct (shr_fexp prec emax mx ex lx) as [r1 e1] eqn:H1.
  apply shr_fexp_exact in H1; try lia. destruct H1 as (Hm1 & Hd1).
  pose proof (round_nearest_even_bounds (shr_m r1) (loc_of_shr_record r1)) as Hrne.
  set (m2 := round_nearest_even (shr_m r1) (loc_of_shr_record r1)) in *.
  pose proof (Zdigits2_le (shr_m r1) m2 ltac:(lia)) as Hd2.
  destruct (shr_fexp prec emax m2 e1 loc_Exact) as [r2 e2] eqn:H2.
  apply shr_fexp_exact in H2; try lia. destruct H2 as (Hm3 & Hd3).
  destruct (shr_m r2) as [| p | p] eqn:Hr2; try lia.
  destruct (e2 <=? emax - prec); [| contradiction].
  simpl in Hd3 |- *. lia.
Qed.

Lemma of_int_finite (z : Z) (B : Z) :
  0 < z -> Zdigits2 z <= B -> B <= 1023 ->
  magnitude_le (B + 1) (of_int z) /\ magnitude_ge (Zdigits2 z) (of_int z).
Proof.
  intros Hz HB HBr. destruct z as [| p | p]; try lia.
  unfold of_int, binary_normalize, binary_round.
  destruct (shl_align p 0 _) as [mz ez] eqn:Hal.
  apply shl_align_spec in Hal. destruct Hal as (He & _ & _ & Hd).
  simpl in HB.
  pose proof (binary_round_aux_finite false (Zpos mz) ez loc_Exact B) as H.
  simpl Zdigits2 in H. rewrite Hd, Z.add_0_r in H.
  apply H; lia.
Qed.

Lemma div_eucl_div (a b q r : Z) : Z.div_eucl a b = (q, r) -> q = a / b.
Proof. unfold Z.div. now intros ->. Qed.

(** Dividing by a finite non-zero value whose leading bit is known
    keeps the quotient finite. *)
Lemma div_magnitude (x y : float) (B L : Z) :
  magnitude_le B x -> magnitude_ge L y -> -1074 <= B - L -> B - L <= 1022 ->
  magnitude_le (B - L + 2) (div x y).
Proof.
  destruct x as [sx | sx | | sx mx ex], y as [sy | sy | | sy my ey];
    simpl; try tauto.
  intros Hx Hy Hlo Hhi.
  unfold SFdiv_core_binary.
  set (d1 := Zdigits2 (Zpos mx)). set (d2 := Zdigits2 (Zpos my)).
  set (e' := Z.min (fexp prec emax (d1 + ex - (d2 + ey))) (ex - ey)).
  set (m' := match ex - ey - e' with
             | 0 => Zpos mx
             | Zpos _ => Z.shiftl (Zpos mx) (ex - ey - e')
             | Zneg _ => 0
             end).
  destruct (Z.div_eucl m' (Zpos my)) as [q r] eqn:Hdiv.
  apply div_eucl_div in Hdiv.
  assert (Hs : 0 <= ex - ey - e') by lia.
  assert (Hm' : m' = Zpos mx * 2 ^ (ex - ey - e')).
  { unfold m'. destruct (ex - ey - e') as [| k | k] eqn:Hk; try lia.
    rewrite Z.shiftl_mul_pow2 by lia. reflexivity. }
  assert (Hpow : 0 < 2 ^ (ex - ey - e')) by (apply Z.pow_pos_nonneg; lia).
  assert (Hm'pos : 0 < m') by nia.
  assert (Hq : 0 <= q) by (subst q; apply Z.div_pos; lia).
  assert (Hdm' : Zdigits2 m' = d1 + (ex - ey - e')).
  { unfold d1. rewrite Hm', !Zdigits2_log2 by lia.
    rewrite Z.log2_mul_pow2 by lia. lia. }
  assert (Hdq : Zdigits2 q + e' <= Z.max (d1 + ex - (d2 + ey) + 1) (-1074)).
  { destruct (Z.eq_dec q 0) as [-> | Hq0].
    - simpl. unfold e', fexp, emin, prec, emax. lia.
    - assert (Hqm : q * Zpos my <= m').
      { subst q. rewrite Z.mul_comm. apply Z.mul_div_le. lia. }
      pose proof (Z.log2_mul_below q (Zpos my) ltac:(lia) ltac:(lia)) as Hb.
      pose proof (Z.log2_le_mono _ _ Hqm) as Hmono.
      unfold d2. rewrite Zdigits2_log2 in Hdm' |- * by lia.
      rewrite (Zdigits2_log2 (Zpos my)) by lia. lia. }
  subst d1 d2. simpl Zdigits2 in *.
  apply (magnitude_le_mono (B - L + 1 + 1)); [lia |].
  apply binary_round_aux_magnitude; try lia.
  unfold e', fexp, emin, prec, emax. lia.
Qed.

(** [float(a)] of a non-negative int has no minus sign. *)
Lemma of_int_nonneg (a : Z) :
  0 <= a ->
  match of_int a with
  | S754_zero s | S754_infinity s | S754_finite s _ _ => s = false
  | S754_nan => True
  end.
Proof.
  intros Ha. destruct a as [| p | p]; [reflexivity | | lia].
  unfold of_int, binary_normalize, binary_round.
  destruct (shl_align p 0 _) as [mz ez].
  unfold binary_round_aux.
  destruct (shr_fexp prec emax (Zpos mz) ez loc_Exact) as [r1 e1].
  destruct (shr_fexp prec emax _ e1 loc_Exact) as [r2 e2].
  destruct (shr_m r2); auto. destruct (e2 <=? emax - prec); auto.
Qed.

(** Adding +0.0 changes nothing that [round] can see. *)
Lemma round_add_zero (x : float) : py_round (add x zero) = py_round x.
Proof. destruct x as [[|] | [|] | | s m e]; reflexivity. Qed.

Lemma mul_comm (x y : float) : mul x y = mul y x.
Proof.
  destruct x as [sx | sx | | sx mx ex], y as [sy | sy | | sy my ey]; simpl;
    rewrite ?(xorb_comm sx sy); try reflexivity.
  now rewrite (Pos.mul_comm mx my), (Z.add_comm ex ey).
Qed.

End Magnitude.

(** ** Comparison of binary64 values *)

Section Comparison.
Import Float64.





(** A value of the unit interval lies below 2. *)
Lemma unit_interval_magnitude (x : float) : unit_interval x -> magnitude_le 1 x.
Proof.
  intros (Hv & H0 & H1). destruct x as [s | [|] | | [|] m e]; simpl; auto;
    try discriminate.
  unfold valid_binary, bounded, canonical_mantissa in Hv.
  apply andb_prop in Hv as [Hc _]. apply Z.eqb_eq in Hc.
  unfold fexp, emin, prec, emax in Hc.
  unfold leb, SFleb, SFcompare, f1_0 in H1.
  destruct (Z.compare_spec e (-52)); try discriminate; lia.
Qed.

End Comparison.

(** ** Rounding to the nearest integer *)

Section Rounding.
Import Float64.

Lemma pow2_pos_split (p : positive) : exists d', 2 ^ Zpos p = 2 * d' /\ 0 < d'.
Proof.
  exists (2 ^ (Zpos p - 1)). split.
  - rewrite <- Z.pow_succ_r by lia. f_equal. lia.
  - apply Z.pow_pos_nonneg; lia.
Qed.

(** [round] on a value exactly half-way between [k] and [k + 1] picks
    the even one of the two. *)
Lemma py_round_half (x : float) (k : Z) :
  0 <= k -> has_value x (Spec.half_above k) -> py_round x = Ok (Spec.half_to_even k).
Proof.
  intros Hk. unfold has_value, to_Q, Spec.half_above.
  destruct x as [s | s | | s m e]; try contradiction.
  - unfold Qeq. simpl. lia.
  - destruct e as [| e | e].
    + destruct s; unfold Qeq; simpl; lia.
    + destruct s; unfold Qeq; simpl; lia.
    + destruct s; unfold Qeq; simpl Qnum; simpl Qden; [lia |].
      rewrite Pos2Z.inj_pow. intros Hv.
      destruct (pow2_pos_split e) as (d' & Hd & Hd').
      assert (Hm : Zpos m = k * 2 ^ Zpos e + d') by nia.
      simpl py_round. unfold round_half_even.
      assert (Hq : Zpos m / 2 ^ Zpos e = k).
      { symmetry. apply (Z.div_unique _ _ k d'); lia. }
      assert (Hr : Zpos m mod 2 ^ Zpos e = d').
      { symmetry. apply (Z.mod_unique _ _ k d'); lia. }
      rewrite Hq, Hr. replace (2 * d' ?= 2 ^ Zpos e) with Eq
        by (symmetry; apply Z.compare_eq_iff; lia).
      reflexivity.
Qed.

End Rounding.

(** ** The exception monad *)

Section ResultMonad.

Lemma bind_Ok {A B} (m : result A) (f : A -> result B) (b : B) :
  m ≫= f = Ok b <-> exists a, m = Ok a /\ f a = Ok b.
Proof.
  split.
  - destruct m as [a | e]; [exists a; now split | discriminate].
  - intros (a & -> & H). exact H.
Qed.

Lemma bind_ext {A B} (m : result A) (f g : A -> result B) :
  (forall a, f a = g a) -> m ≫= f = m ≫= g.
Proof. intros H. destruct m; simpl; [apply H | reflexivity]. Qed.

Lemma bind_assoc {A B C} (m : result A) (f : A -> result B) (g : B -> result C) :
  (m ≫= f) ≫= g = m ≫= (fun a => f a ≫= g).
Proof. now destruct m. Qed.

Lemma try_except_Ok {A} (body : result A) (h : exn -> result A) :
  (forall e, exists a, h e = Ok a) -> exists a, try_except body h = Ok a.
Proof.
  intros Hh. destruct body as [a | e]; [now exists a | apply Hh].
Qed.

End ResultMonad.

(** Inversion of a chain of binds that is known to have returned. *)
Ltac invert_bind H :=
  let a := fresh "v" in
  let Ha := fresh "Hv" in
  apply bind_Ok in H; destruct H as (a & Ha & H); cbn beta iota in H.

(** The same through a whole chain, splitting the pairs bound on the way. *)
Ltac invert_binds H :=
  repeat first
    [ match type of H with
      | context [match ?p with pair _ _ => _ end] => is_var p; destruct p
      end
    | invert_bind H ].

(** ** The scorer against the rules of the specification *)

Section Refinement.
Import Float64 Heuristics Scorer.

(** Counting with [sum(1 for ...)] is taking the length of the filter. *)
Lemma count_fold_length {A} (p : A -> bool) (l : list A) (acc : Z) :
  fold_left (fun acc r => if p r then acc + 1 else acc) l acc
  = acc + Z.of_nat (length (filter (fun r => p r = true) l)).
Proof.
  revert acc. induction l as [| x l IH]; intros acc; simpl; [lia |].
  rewrite IH. rewrite filter_cons.
  destruct (p x) eqn:Hp; case_decide; try congruence; simpl length; lia.
Qed.

Lemma length_nonzero {A} (x : A) (l : list A) : (Z.of_nat (length (x :: l)) =? 0) = false.
Proof. apply Z.eqb_neq. simpl length. lia. Qed.

(** The blend of the code is the heuristic score of the specification. *)
Lemma blend_score_spec (relevant : list Indicator) :
  relevant <> [] -> blend_score relevant = Spec.heuristic_score relevant.
Proof.
  intros Hne. unfold blend_score, Spec.heuristic_score, Spec.avg, Spec.count, severities.
  destruct relevant as [| ind rest]; [congruence |].
  rewrite length_map.
  apply bind_ext; intros mx. apply bind_ext; intros av.
  now rewrite (mul_comm f0_6 mx), (mul_comm f0_4 av), (mul_comm f0_2).
Qed.

Lemma compute_domain_score_spec (inds : list Indicator) (ml : option MlResult) :
  compute_domain_score inds ml = (x ← Spec.domain_final inds ml; round_clamp x).
Proof.
  unfold compute_domain_score, Spec.domain_final.
  fold (Spec.fired domain_indicator_names inds).
  destruct (Spec.fired domain_indicator_names inds) as [| ind rest] eqn:Hf.
  - cbn [mbind result_bind mret result_ret].
    destruct (ml_probability ml) as [p |]; [| reflexivity].
    unfold Spec.heuristic_score. cbn [mbind result_bind].
    now rewrite (mul_comm f0_6), (mul_comm f0_4).
  - rewrite blend_score_spec by discriminate.
    destruct (Spec.heuristic_score (ind :: rest)) as [h |];
      cbn [mbind result_bind]; [| reflexivity].
    destruct (ml_probability ml) as [p |]; [| reflexivity].
    now rewrite (mul_comm f0_6), (mul_comm f0_4).
Qed.

Lemma compute_structural_score_spec (inds : list Indicator) :
  compute_structural_score inds = (x ← Spec.structural_final inds; round_clamp x).
Proof.
  unfold compute_structural_score, Spec.structural_final.
  fold (Spec.fired structural_names inds).
  destruct (Spec.fired structural_names inds) as [| ind rest]; [reflexivity |].
  now rewrite blend_score_spec.
Qed.

Lemma compute_language_score_spec (inds : list Indicator) :
  compute_language_score inds = (x ← Spec.language_final inds; round_clamp x).
Proof.
  unfold compute_language_score, Spec.language_final, Spec.avg, Spec.count, severities.
  destruct inds as [| i0 inds0]; [reflexivity |].
  destruct (filter _ (i0 :: inds0)) as [| ind rest]; [reflexivity |].
  rewrite length_map, bind_assoc. reflexivity.
Qed.

Lemma compute_api_score_spec (feeds : list ApiResult) :
  compute_api_score feeds = Spec.api_score feeds.
Proof.
  unfold compute_api_score, Spec.api_score, Spec.api_final, Spec.threat_hits, Spec.count.
  fold (Spec.available_feeds feeds).
  destruct (Spec.available_feeds feeds) as [| r rest] eqn:Hav; [reflexivity |].
  rewrite count_fold_length, Z.add_0_l.
  destruct (filter (fun r => is_threat r = true) (r :: rest)) as [| t ts] eqn:Hth;
    [reflexivity |].
  unfold int_truediv, truediv.
  rewrite !(length_nonzero t ts), (length_nonzero r rest). reflexivity.
Qed.

Lemma no_available_feed (feeds : list ApiResult) :
  Spec.available_feeds feeds = [] -> compute_api_score feeds = Ok (0, false).
Proof. intros H. rewrite compute_api_score_spec. unfold Spec.api_score. now rewrite H. Qed.

Lemma compute_overall_score_unfold (d s l a : Z) (avail : bool) :
  compute_overall_score d s l a avail =
  overall ← round_clamp (Spec.overall_final d s l a avail);
  Ok (overall, _classify_label overall).
Proof. destruct avail; reflexivity. Qed.

Lemma clamp_range (r : Z) : 0 <= clamp r <= 100.
Proof. unfold clamp. lia. Qed.

Lemma compute_overall_score_range (d s l a : Z) (avail : bool) (o : Z) (lbl : string) :
  compute_overall_score d s l a avail = Ok (o, lbl) -> 0 <= o <= 100.
Proof.
  rewrite compute_overall_score_unfold. unfold round_clamp.
  destruct (py_round _) as [r | e]; simpl; [| discriminate].
  intros [= <- _]. apply clamp_range.
Qed.

End Refinement.

(** ** The scores always come out on data of the model *)

Section Totality.
Import Float64 Heuristics Scorer.

Lemma score_magnitude (a : Z) : 0 <= a <= 100 -> magnitude_le 8 (of_int a).
Proof.
  intros Ha. apply (of_int_magnitude a 7); [| lia].
  change 7 with (Zdigits2 127). apply Zdigits2_le. lia.
Qed.

(** A sub-score times the weight 0.0 is exactly +0.0. *)
Lemma score_times_zero (a : Z) : 0 <= a <= 100 -> mul (of_int a) zero = zero.
Proof.
  intros Ha. pose proof (of_int_nonneg a ltac:(lia)) as Hs.
  pose proof (score_magnitude a Ha) as Hm.
  destruct (of_int a) as [s | s | | s m e]; simpl in *; try tauto; now subst s.
Qed.

Lemma weighted_term_magnitude (a : Z) (w : float) :
  0 <= a <= 100 -> magnitude_le 0 w -> magnitude_le 9 (mul (of_int a) w).
Proof.
  intros Ha Hw. apply (mul_magnitude (of_int a) w 8 0); auto using score_magnitude. lia.
Qed.

Lemma weights_magnitude (avail : bool) :
  let '(wd, ws, wl, wa) := Spec.weights avail in
  magnitude_le 0 wd /\ magnitude_le 0 ws /\ magnitude_le 0 wl /\ magnitude_le 0 wa.
Proof. destruct avail; simpl; repeat split; lia. Qed.

Lemma overall_final_magnitude (d s l a : Z) (avail : bool) :
  0 <= d <= 100 -> 0 <= s <= 100 -> 0 <= l <= 100 -> 0 <= a <= 100 ->
  magnitude_le 15 (Spec.overall_final d s l a avail).
Proof.
  intros Hd Hs Hl Ha. unfold Spec.overall_final.
  pose proof (weights_magnitude avail) as Hw.
  destruct (Spec.weights avail) as [[[wd ws] wl] wa].
  destruct Hw as (Hwd & Hws & Hwl & Hwa).
  apply (add_magnitude _ _ 13); [| | lia].
  - apply (add_magnitude _ _ 11); [| | lia].
    + apply (add_magnitude _ _ 9); auto using weighted_term_magnitude. lia.
    + apply (magnitude_le_mono 9); auto using weighted_term_magnitude. lia.
  - apply (magnitude_le_mono 9); auto using weighted_term_magnitude. lia.
Qed.

Lemma py_max_list_elem (xs : list float) :
  xs <> [] -> exists m, py_max_list xs = Ok m /\ m ∈ xs.
Proof.
  destruct xs as [| x xs]; [congruence |]. intros _. simpl. eexists. split; [reflexivity |].
  revert x. induction xs as [| y xs IH]; intros x; simpl; [left |].
  specialize (IH (py_max x y)). unfold py_max in *.
  destruct (ltb x y).
  - now right.
  - apply elem_of_cons in IH as [-> | IH]; [left | right; now right].
Qed.

Lemma py_min_magnitude (a b : float) (B : Z) :
  magnitude_le B a -> magnitude_le B b -> magnitude_le B (py_min a b).
Proof. unfold py_min. now destruct (ltb b a). Qed.

Lemma fold_add_magnitude (xs : list float) (B : Z) (acc : float) (Bacc : Z) :
  Forall (magnitude_le B) xs -> magnitude_le Bacc acc ->
  B <= Bacc -> -1074 <= Bacc -> Bacc + 2 * Z.of_nat (length xs) <= 974 ->
  magnitude_le (Bacc + 2 * Z.of_nat (length xs)) (fold_left add xs acc).
Proof.
  intros Hxs. revert acc Bacc.
  induction Hxs as [| x xs Hx _ IH]; intros acc Bacc Hacc HB Hlo Hhi; simpl fold_left.
  - simpl. now rewrite Z.add_0_r.
  - simpl length in *.
    replace (Bacc + 2 * Z.of_nat (S (length xs)))
      with ((Bacc + 2) + 2 * Z.of_nat (length xs)) by lia.
    apply IH; try lia.
    apply add_magnitude; [exact Hacc | | lia].
    now apply (magnitude_le_mono B).
Qed.

(** The sum of at most a hundred values below 2 is finite. *)
Lemma py_sum_magnitude (xs : list float) :
  Forall (magnitude_le 1) xs -> (length xs <= 100)%nat ->
  magnitude_le 201 (py_sum xs).
Proof.
  intros Hxs Hlen. unfold py_sum.
  apply (magnitude_le_mono (1 + 2 * Z.of_nat (length xs))); [lia |].
  apply (fold_add_magnitude xs 1); try lia; [exact Hxs | exact I].
Qed.

(** A count between 1 and 100 converts to a float of at least 1. *)
Lemma count_divisor (n : Z) : 1 <= n <= 100 -> magnitude_ge 1 (of_int n).
Proof.
  intros Hn. apply (magnitude_ge_mono 1 (Zdigits2 n)).
  - change 1 with (Zdigits2 1). apply Zdigits2_le. lia.
  - apply (of_int_finite n 7); try lia.
    change 7 with (Zdigits2 127). apply Zdigits2_le. lia.
Qed.

Lemma truediv_magnitude (x : float) (n B : Z) :
  magnitude_le B x -> 1 <= n <= 100 -> -1073 <= B <= 1023 ->
  exists q, truediv x n = Ok q /\ magnitude_le (B + 1) q.
Proof.
  intros Hx Hn HB. unfold truediv.
  replace (n =? 0) with false by (symmetry; apply Z.eqb_neq; lia).
  eexists. split; [reflexivity |].
  replace (B + 1) with (B - 1 + 2) by lia.
  apply div_magnitude; auto using count_divisor; lia.
Qed.

Lemma round_clamp_total (x : float) (B : Z) :
  magnitude_le B x -> exists r, round_clamp x = Ok r /\ 0 <= r <= 100.
Proof.
  intros Hx. destruct (py_round_total x B Hx) as [r Hr].
  exists (clamp r). unfold round_clamp. rewrite Hr. split; [reflexivity | apply clamp_range].
Qed.

Lemma int_truediv_magnitude (a b : Z) :
  0 <= a <= 100 -> 1 <= b <= 100 ->
  exists q, int_truediv a b = Ok q /\ magnitude_le 9 q.
Proof.
  intros Ha Hb. unfold int_truediv.
  replace (b =? 0) with false by (symmetry; apply Z.eqb_neq; lia).
  eexists. split; [reflexivity |].
  apply (div_magnitude _ _ 8 1); auto using score_magnitude, count_divisor; lia.
Qed.

Lemma severities_magnitude (inds : list Indicator) :
  Forall (fun ind => unit_interval (severity ind)) inds ->
  Forall (magnitude_le 1) (severities inds).
Proof.
  intros H. unfold severities. apply Forall_map.
  eapply Forall_impl; [exact H |]. intros ind. apply unit_interval_magnitude.
Qed.

Lemma count_range {A} (xs : list A) :
  xs <> [] -> (length xs <= 100)%nat -> 1 <= Spec.count xs <= 100.
Proof. unfold Spec.count. destruct xs; [congruence |]. simpl length. lia. Qed.

(** The mean of at most a hundred values of the unit interval. *)
Lemma avg_total (xs : list float) :
  xs <> [] -> (length xs <= 100)%nat -> Forall (magnitude_le 1) xs ->
  exists av, Spec.avg xs = Ok av /\ magnitude_le 202 av.
Proof.
  intros Hne Hlen Hxs. unfold Spec.avg.
  apply (truediv_magnitude _ _ 201); [now apply py_sum_magnitude | | lia].
  now apply count_range.
Qed.

Lemma heuristic_score_total (fired : list Indicator) :
  (length fired <= 100)%nat ->
  Forall (fun ind => unit_interval (severity ind)) fired ->
  exists h, Spec.heuristic_score fired = Ok h /\ magnitude_le 223 h.
Proof.
  intros Hlen Hunit. unfold Spec.heuristic_score.
  destruct fired as [| ind rest] eqn:Hf; [exists zero; split; [reflexivity | exact I] |].
  rewrite <- Hf in *. assert (Hne : fired <> []) by (rewrite Hf; discriminate).
  pose proof (severities_magnitude fired Hunit) as Hsev.
  assert (Hsne : severities fired <> []) by (rewrite Hf; discriminate).
  assert (Hslen : (length (severities fired) <= 100)%nat)
    by (unfold severities; now rewrite length_map).
  destruct (py_max_list_elem _ Hsne) as (mx & -> & Hmx).
  destruct (avg_total _ Hsne Hslen Hsev) as (av & -> & Hav).
  cbn [mbind result_bind]. eexists. split; [reflexivity |].
  assert (Hmxm : magnitude_le 1 mx).
  { rewrite Forall_forall in Hsev. now apply Hsev. }
  apply (mul_magnitude _ _ 213 9); [| | lia].
  - apply (mul_magnitude _ _ 204 8); [| apply score_magnitude; lia | lia].
    apply (add_magnitude _ _ 202); [| | lia].
    + apply (magnitude_le_mono 2); [lia |].
      apply (mul_magnitude f0_6 mx 0 1); [simpl; lia | exact Hmxm | lia].
    + apply (mul_magnitude f0_4 av (-1) 202); [simpl; lia | exact Hav | lia].
  - apply py_min_magnitude; [simpl; lia |].
    apply (add_magnitude _ _ 7); [simpl; lia | | lia].
    apply (mul_magnitude f0_2 _ (-2) 8); [simpl; lia | | lia].
    apply score_magnitude. pose proof (count_range fired Hne Hlen). lia.
Qed.

Lemma fired_bounds (category : gset string) (inds : list Indicator) :
  (length inds <= 100)%nat ->
  Forall (fun ind => unit_interval (severity ind)) inds ->
  (length (Spec.fired category inds) <= 100)%nat /\
  Forall (fun ind => unit_interval (severity ind)) (Spec.fired category inds).
Proof.
  intros Hlen Hunit. unfold Spec.fired. split.
  - etransitivity; [apply length_filter | exact Hlen].
  - apply Forall_forall. intros ind Hin. apply list_elem_of_filter in Hin as [_ Hin].
    rewrite Forall_forall in Hunit. now apply Hunit.
Qed.

(** On indicators of the data model the domain sub-score always comes
    out, and lies between 0 and 100. *)
Lemma compute_domain_score_total (inds : list Indicator) (ml : option MlResult) :
  (length inds <= 100)%nat ->
  Forall (fun ind => unit_interval (severity ind)) inds ->
  (forall p, ml_probability ml = Some p -> unit_interval p) ->
  exists r, compute_domain_score inds ml = Ok r /\ 0 <= r <= 100.
Proof.
  intros Hlen Hunit Hp. rewrite compute_domain_score_spec. unfold Spec.domain_final.
  destruct (fired_bounds domain_indicator_names inds Hlen Hunit) as [Hfl Hfu].
  destruct (heuristic_score_total _ Hfl Hfu) as (h & -> & Hh).
  cbn [mbind result_bind].
  destruct (ml_probability ml) as [p |] eqn:Hml.
  - apply (round_clamp_total _ 226).
    apply (add_magnitude _ _ 224); [| | lia].
    + apply (mul_magnitude f0_6 h 0 223); [simpl; lia | exact Hh | lia].
    + apply (magnitude_le_mono 10); [lia |].
      apply (mul_magnitude f0_4 _ (-1) 10); [simpl; lia | | lia].
      apply (mul_magnitude p _ 1 8); [| apply score_magnitude; lia | lia].
      apply unit_interval_magnitude. now apply Hp.
  - now apply (round_clamp_total _ 223).
Qed.

Lemma compute_structural_score_total (inds : list Indicator) :
  (length inds <= 100)%nat ->
  Forall (fun ind => unit_interval (severity ind)) inds ->
  exists r, compute_structural_score inds = Ok r /\ 0 <= r <= 100.
Proof.
  intros Hlen Hunit. rewrite compute_structural_score_spec. unfold Spec.structural_final.
  destruct (fired_bounds structural_names inds Hlen Hunit) as [Hfl Hfu].
  destruct (heuristic_score_total _ Hfl Hfu) as (h & -> & Hh).
  cbn [mbind result_bind]. now apply (round_clamp_total _ 223).
Qed.

Lemma compute_language_score_total (inds : list Indicator) :
  (length inds <= 100)%nat ->
  Forall (fun ind => unit_interval (severity ind)) inds ->
  exists r, compute_language_score inds = Ok r /\ 0 <= r <= 100.
Proof.
  intros Hlen Hunit. rewrite compute_language_score_spec. unfold Spec.language_final.
  set (fired := filter (fun ind => detected ind = true) inds).
  assert (Hfl : (length fired <= 100)%nat)
    by (etransitivity; [apply length_filter | exact Hlen]).
  assert (Hfu : Forall (fun ind => unit_interval (severity ind)) fired).
  { apply Forall_forall. intros ind Hin. apply list_elem_of_filter in Hin as [_ Hin].
    rewrite Forall_forall in Hunit. now apply Hunit. }
  destruct fired as [| ind rest] eqn:Hf; [now apply (round_clamp_total zero 0) |].
  rewrite <- Hf in *. assert (Hne : fired <> []) by (rewrite Hf; discriminate).
  assert (Hsne : severities fired <> []) by (rewrite Hf; discriminate).
  assert (Hslen : (length (severities fired) <= 100)%nat)
    by (unfold severities; now rewrite length_map).
  destruct (avg_total _ Hsne Hslen (severities_magnitude _ Hfu)) as (av & -> & Hav).
  cbn [mbind result_bind]. apply (round_clamp_total _ 219).
  apply (mul_magnitude _ _ 211 7); [| | lia].
  - apply (mul_magnitude _ _ 202 8); [exact Hav | apply score_magnitude; lia | lia].
  - apply py_min_magnitude; [simpl; lia |].
    apply (mul_magnitude _ f0_2 8 (-2)); [| simpl; lia | lia].
    apply score_magnitude. pose proof (count_range fired Hne Hfl). lia.
Qed.

Lemma compute_api_score_total (feeds : list ApiResult) :
  (length feeds <= 100)%nat ->
  Forall (fun r => unit_interval (confidence r)) feeds ->
  exists r avail, compute_api_score feeds = Ok (r, avail) /\ 0 <= r <= 100.
Proof.
  intros Hlen Hunit. rewrite compute_api_score_spec. unfold Spec.api_score.
  destruct (Spec.available_feeds feeds) as [| a0 arest] eqn:Hav;
    [exists 0, false; split; [reflexivity | lia] |].
  destruct (Spec.threat_hits feeds) as [| t0 trest] eqn:Hth;
    [exists 0, true; split; [reflexivity | lia] |].
  assert (Hal : (length (Spec.available_feeds feeds) <= 100)%nat)
    by (etransitivity; [apply length_filter | exact Hlen]).
  assert (Htl : (length (Spec.threat_hits feeds) <= 100)%nat)
    by (etransitivity; [apply length_filter | exact Hal]).
  assert (Hane : Spec.available_feeds feeds <> []) by (rewrite Hav; discriminate).
  assert (Htne : Spec.threat_hits feeds <> []) by (rewrite Hth; discriminate).
  pose proof (count_range _ Hane Hal) as Hca.
  pose proof (count_range _ Htne Htl) as Hct.
  unfold Spec.api_final.
  destruct (int_truediv_magnitude (Spec.count (Spec.threat_hits feeds))
              (Spec.count (Spec.available_feeds feeds)) ltac:(lia) Hca)
    as (ratio & -> & Hratio).
  assert (Hconf : Forall (magnitude_le 1) (map confidence (Spec.threat_hits feeds))).
  { apply Forall_map, Forall_forall. intros r Hin. apply unit_interval_magnitude.
    unfold Spec.threat_hits, Spec.available_feeds in Hin.
    apply list_elem_of_filter in Hin as [_ Hin].
    apply list_elem_of_filter in Hin as [_ Hin].
    rewrite Forall_forall in Hunit. now apply Hunit. }
  destruct (truediv_magnitude (py_sum (map confidence (Spec.threat_hits feeds)))
              (Spec.count (Spec.threat_hits feeds)) 201) as (mean & -> & Hmean);
    [apply py_sum_magnitude; [exact Hconf | now rewrite length_map] | exact Hct | lia |].
  cbn [mbind result_bind].
  destruct (round_clamp_total
              (add (mul ratio (of_int 60)) (mul mean (of_int 40))) 213) as (r & -> & Hr).
  - apply (add_magnitude _ _ 211); [| | lia].
    + apply (magnitude_le_mono 18); [lia |].
      apply (mul_magnitude _ _ 9 8); [exact Hratio | apply score_magnitude; lia | lia].
    + apply (mul_magnitude _ _ 202 8); [exact Hmean | apply score_magnitude; lia | lia].
  - exists r, true. split; [reflexivity | exact Hr].
Qed.

End Totality.

(** ** The overall score (C1) *)

Section OverallScore.
Import Float64 Scorer.

(** C1. The overall score is the weighted sum of the four sub-scores,
    rounded and clamped to 0..100, with the weights 0.35, 0.25, 0.20,
    0.20 when the reputation layer is available and 0.44, 0.31, 0.25,
    0.0 when it is not. Each table adds up to exactly 1.0. Without the
    reputation layer the api term is exactly +0.0 and the score is the
    rounding of the other three terms alone, whatever the api sub-score
    is. For sub-scores between 0 and 100 the function always returns. *)
Theorem compute_overall_score_weighted_sum :
  (WEIGHTS_FULL !! "domain" = Some f0_35 /\ WEIGHTS_FULL !! "structural" = Some f0_25 /\
   WEIGHTS_FULL !! "language" = Some f0_20 /\ WEIGHTS_FULL !! "api" = Some f0_20 /\
   WEIGHTS_NO_API !! "domain" = Some f0_44 /\ WEIGHTS_NO_API !! "structural" = Some f0_31 /\
   WEIGHTS_NO_API !! "language" = Some f0_25 /\ WEIGHTS_NO_API !! "api" = Some zero)
  /\ (py_sum [f0_35; f0_25; f0_20; f0_20] = f1_0 /\
      py_sum [f0_44; f0_31; f0_25; zero] = f1_0)
  /\ (forall d s l a : Z, forall avail : bool,
        0 <= d <= 100 -> 0 <= s <= 100 -> 0 <= l <= 100 -> 0 <= a <= 100 ->
        exists r : Z,
          py_round (Spec.overall_final d s l a avail) = Ok r /\
          compute_overall_score d s l a avail = Ok (clamp r, _classify_label (clamp r)) /\
          0 <= clamp r <= 100 /\
          (avail = false ->
             mul (of_int a) zero = zero /\
             py_round (add (add (mul (of_int d) f0_44) (mul (of_int s) f0_31))
                           (mul (of_int l) f0_25)) = Ok r)).
Proof.
  split; [repeat split; vm_compute; reflexivity |].
  split; [split; vm_compute; reflexivity |].
  intros d s l a avail Hd Hs Hl Ha.
  destruct (py_round_total _ _ (overall_final_magnitude d s l a avail Hd Hs Hl Ha))
    as [r Hr].
  exists r. split; [exact Hr |]. split; [| split; [apply clamp_range |]].
  - rewrite compute_overall_score_unfold. unfold round_clamp. rewrite Hr. reflexivity.
  - intros ->. split; [now apply score_times_zero |].
    rewrite <- Hr. unfold Spec.overall_final. simpl Spec.weights. cbv iota beta.
    rewrite score_times_zero by lia. symmetry. apply round_add_zero.
Qed.

Lemma compute_overall_score_weighted_sum_witness :
  exists r : Z,
    py_round (Spec.overall_final 60 54 0 0 false) = Ok r /\
    compute_overall_score 60 54 0 0 false = Ok (clamp r, _classify_label (clamp r)) /\
    0 <= clamp r <= 100 /\
    (false = false ->
       mul (of_int 0) zero = zero /\
       py_round (add (add (mul (of_int 60) f0_44) (mul (of_int 54) f0_31))
                     (mul (of_int 0) f0_25)) = Ok r).
Proof.
  apply (proj2 (proj2 compute_overall_score_weighted_sum) 60 54 0 0 false); lia.
Defined.

End OverallScore.

(** ** The reputation sub-score (C2) *)

Section ApiScore.
Import Float64 Scorer.

(** C2. The reputation sub-score: (0, unavailable) when no feed is
    available; (0, available) when feeds are available and none flags a
    threat; otherwise threatRatio x 60 plus the mean confidence of the
    flagging feeds x 40, rounded and clamped, and available. One feed
    flagging at confidence 1.0 out of two available feeds scores 70. On
    at most a hundred results with confidences between 0 and 1 the
    function always returns, with a score between 0 and 100. *)
Theorem compute_api_score_cases (feeds : list ApiResult) :
  (Spec.available_feeds feeds = [] -> compute_api_score feeds = Ok (0, false)) /\
  (Spec.available_feeds feeds <> [] -> Spec.threat_hits feeds = [] ->
     compute_api_score feeds = Ok (0, true)) /\
  (Spec.threat_hits feeds <> [] ->
     compute_api_score feeds =
       (threat_ratio ← int_truediv (Spec.count (Spec.threat_hits feeds))
                                   (Spec.count (Spec.available_feeds feeds));
        mean ← truediv (py_sum (map confidence (Spec.threat_hits feeds)))
                       (Spec.count (Spec.threat_hits feeds));
        r ← round_clamp (add (mul threat_ratio (of_int 60)) (mul mean (of_int 40)));
        Ok (r, true))) /\
  (forall t : ApiResult,
     length (Spec.available_feeds feeds) = 2%nat ->
     Spec.threat_hits feeds = [t] -> confidence t = f1_0 ->
     compute_api_score feeds = Ok (70, true)) /\
  ((length feeds <= 100)%nat ->
   Forall (fun r => unit_interval (confidence r)) feeds ->
   exists score avail,
     compute_api_score feeds = Ok (score, avail) /\ 0 <= score <= 100).
Proof.
  split; [| split; [| split; [| split]]].
  - apply no_available_feed.
  - rewrite compute_api_score_spec. unfold Spec.api_score.
    intros Hav ->. now destruct (Spec.available_feeds feeds).
  - rewrite compute_api_score_spec. unfold Spec.api_score.
    intros Hth. unfold Spec.api_final.
    destruct (Spec.available_feeds feeds) as [| r rest] eqn:Hav.
    + unfold Spec.threat_hits in Hth. rewrite Hav in Hth. now rewrite filter_nil in Hth.
    + destruct (Spec.threat_hits feeds) as [| t ts]; [congruence |].
      unfold int_truediv, truediv, Spec.count.
      rewrite !(length_nonzero t ts), (length_nonzero r rest). reflexivity.
  - rewrite compute_api_score_spec. unfold Spec.api_score.
    intros t Hlen Hth Hconf. unfold Spec.api_final, Spec.count.
    rewrite Hth, Hlen. simpl map. rewrite Hconf.
    destruct (Spec.available_feeds feeds); [discriminate |].
    vm_compute. reflexivity.
  - apply compute_api_score_total.
Qed.

Lemma compute_api_score_cases_witness :
  compute_api_score
    [ mkApiResult "google_safe_browsing" false zero (Some true) (Some "API key not configured");
      mkApiResult "virustotal" false zero None None;
      mkApiResult "phishtank" true f1_0 (Some false) None;
      mkApiResult "urlhaus" false zero (Some false) None ] = Ok (70, true).
Proof.
  eapply (proj1 (proj2 (proj2 (proj2 (compute_api_score_cases _))))); reflexivity.
Defined.

End ApiScore.

(** ** The domain sub-score (C3) *)

Section DomainScore.
Import Float64 Heuristics Scorer.



End DomainScore.

(** ** The IP-literal login page (C4) *)

Section IpLoginExample.
Import Float64 Heuristics Scorer Scan.

(** The specification's example does not come out as "dangerous": with
    every feed unavailable the URL is labelled "suspicious". *)
Lemma ip_login_url_not_dangerous :
  ~ (exists res,
        post_url unit
          (fun _ => [mkApiResult "google_safe_browsing" false zero (Some true)
                       (Some "API key not configured");
                     mkApiResult "virustotal" false zero (Some true)
                       (Some "API key not configured")])
          (fun _ => Ok tt) (fun msg => msg)
          "http://192.168.1.1/banking/login" = Ok res
        /\ label_ unit res = "dangerous").
Proof.
  intros (res & H & Hl). vm_compute in H. injection H as <-. discriminate Hl.
Qed.

(** C4 (amended). On http://192.168.1.1/banking/login the analysis fires
    IP Address Instead of Domain (0.85), Missing HTTPS (0.6) and
    Suspicious Path Keywords (0.6), in that order; with the classifier
    disabled and no reputation feed available the sub-scores are 60
    (domain) and 54 (structural), the overall score is 43 and the label
    under the default thresholds is "suspicious". *)
Theorem ip_login_url_is_suspicious :
  forall (Intel : Type) (apis : string -> list ApiResult)
         (gather : string -> result Intel) (verr : string -> string) (i : Intel),
    Spec.available_feeds (apis "http://192.168.1.1/banking/login") = [] ->
    gather "http://192.168.1.1/banking/login" = Ok i ->
    exists inds res,
      analyze_url_heuristics "http://192.168.1.1/banking/login" = Ok inds /\
      map (fun ind => (name ind, detected ind, severity ind)) inds
        = [("IP Address Instead of Domain", true, f0_85);
           ("Missing HTTPS", true, f0_6);
           ("Suspicious Path Keywords", true, f0_6)] /\
      post_url Intel apis gather verr "http://192.168.1.1/banking/login" = Ok res /\
      sub_scores Intel res = mkSubScores 60 54 0 0 /\
      overall_score Intel res = 43 /\
      label_ Intel res = "suspicious" /\
      Config.SAFE_THRESHOLD = 30 /\ Config.SUSPICIOUS_THRESHOLD = 60.
Proof.
  intros Intel apis gather verr i Hfeeds Hgather.
  eexists. eexists.
  split; [vm_compute; reflexivity |].
  split; [reflexivity |].
  split.
  - unfold post_url, new_UrlScanRequest.
    replace (validate_url "http://192.168.1.1/banking/login")
      with (Ok "http://192.168.1.1/banking/login" : result string)
      by (vm_compute; reflexivity).
    cbn [mbind result_bind try_except]. unfold scan_url. cbn [url].
    replace (compute_api_score (apis "http://192.168.1.1/banking/login"))
      with (Ok (0, false) : result (Z * bool))
      by (symmetry; now apply no_available_feed).
    rewrite Hgather.
    set (a := analyze_url_heuristics _). vm_compute in a. subst a.
    cbn [mbind result_bind].
    set (d := compute_domain_score _ _). vm_compute in d. subst d.
    cbn [mbind result_bind].
    set (s := compute_structural_score _). vm_compute in s. subst s.
    cbn [mbind result_bind].
    set (o := compute_overall_score _ _ _ _ _). vm_compute in o. subst o.
    cbn [mbind result_bind].
    reflexivity.
  - repeat split.
Qed.

Lemma ip_login_url_is_suspicious_witness :
  exists inds res,
    analyze_url_heuristics "http://192.168.1.1/banking/login" = Ok inds /\
    map (fun ind => (name ind, detected ind, severity ind)) inds
      = [("IP Address Instead of Domain", true, f0_85);
         ("Missing HTTPS", true, f0_6);
         ("Suspicious Path Keywords", true, f0_6)] /\
    post_url unit (fun _ => []) (fun _ => Ok tt) (fun msg => msg)
             "http://192.168.1.1/banking/login" = Ok res /\
    sub_scores unit res = mkSubScores 60 54 0 0 /\
    overall_score unit res = 43 /\
    label_ unit res = "suspicious" /\
    Config.SAFE_THRESHOLD = 30 /\ Config.SUSPICIOUS_THRESHOLD = 60.
Proof.
  apply (ip_login_url_is_suspicious unit (fun _ => []) (fun _ => Ok tt) (fun msg => msg) tt);
    reflexivity.
Defined.

End IpLoginExample.

(** ** The final rounding (C5) *)

Section FinalRounding.
Import Float64 Heuristics Scorer.

(** The claim of rounding half away from zero fails on the overall
    score of the sub-scores (0, 2, 0, 0): the weighted sum is exactly
    0.5 and the score is 0, not 1. *)
Lemma overall_score_tie_rounds_down :
  has_value (Spec.overall_final 0 2 0 0 true) (Spec.half_above 0) /\
  compute_overall_score 0 2 0 0 true = Ok (0, "safe") /\
  0 <> 0 + 1.
Proof.
  split; [vm_compute; reflexivity | split; [vm_compute; reflexivity | lia]].
Qed.

(** C5 (amended). Each of the four sub-scores and the overall score is
    its unrounded value passed once, at the very end, through [round]
    and the clamp to 0..100; [round] breaks ties towards the even
    integer: an unrounded value of exactly k + 0.5, k a natural number,
    gives k when k is even and k + 1 when k is odd (clamped). On data of
    the model (at most a hundred indicators or feed results, severities
    and confidences between 0 and 1) each sub-score is an integer between
    0 and 100. *)
Theorem scores_round_half_to_even :
  (forall (x : float) (k : Z),
      0 <= k -> has_value x (Spec.half_above k) ->
      round_clamp x = Ok (clamp (Spec.half_to_even k)))
  /\ (forall inds ml,
        compute_domain_score inds ml = (x ← Spec.domain_final inds ml; round_clamp x))
  /\ (forall inds,
        compute_structural_score inds = (x ← Spec.structural_final inds; round_clamp x))
  /\ (forall inds,
        compute_language_score inds = (x ← Spec.language_final inds; round_clamp x))
  /\ (forall feeds,
        Spec.threat_hits feeds <> [] ->
        compute_api_score feeds =
          (x ← Spec.api_final feeds; r ← round_clamp x; Ok (r, true)))
  /\ (forall d s l a avail,
        compute_overall_score d s l a avail =
          (r ← round_clamp (Spec.overall_final d s l a avail);
           Ok (r, _classify_label r)))
  /\ (forall (inds : list Indicator) (feeds : list ApiResult),
        (length inds <= 100)%nat -> (length feeds <= 100)%nat ->
        Forall (fun ind => unit_interval (severity ind)) inds ->
        Forall (fun r => unit_interval (confidence r)) feeds ->
        (exists r, compute_domain_score inds None = Ok r /\ 0 <= r <= 100) /\
        (exists r, compute_structural_score inds = Ok r /\ 0 <= r <= 100) /\
        (exists r, compute_language_score inds = Ok r /\ 0 <= r <= 100) /\
        (exists r avail, compute_api_score feeds = Ok (r, avail) /\ 0 <= r <= 100)).
Proof.
  split; [| split; [| split; [| split; [| split; [| split]]]]].
  - intros x k Hk Hv. unfold round_clamp. now rewrite (py_round_half x k Hk Hv).
  - apply compute_domain_score_spec.
  - apply compute_structural_score_spec.
  - apply compute_language_score_spec.
  - intros feeds Hth. rewrite compute_api_score_spec. unfold Spec.api_score.
    destruct (Spec.available_feeds feeds) as [| r rest] eqn:Hav.
    + unfold Spec.threat_hits in Hth. rewrite Hav in Hth. now rewrite filter_nil in Hth.
    + now destruct (Spec.threat_hits feeds).
  - apply compute_overall_score_unfold.
  - intros inds feeds Hli Hlf Hui Huf. split; [| split; [| split]].
    + apply compute_domain_score_total; auto. discriminate.
    + now apply compute_structural_score_total.
    + now apply compute_language_score_total.
    + now apply compute_api_score_total.
Qed.

Lemma scores_round_half_to_even_witness :
  round_clamp (lit 25 1) = Ok (clamp (Spec.half_to_even 2)) /\
  compute_api_score [mkApiResult "phishtank" true (lit 625 4) (Some false) None]
    = (x ← Spec.api_final [mkApiResult "phishtank" true (lit 625 4) (Some false) None];
       r ← round_clamp x; Ok (r, true)).
Proof.
  split.
  - apply (proj1 scores_round_half_to_even); [lia | vm_compute; reflexivity].
  - apply (proj1 (proj2 (proj2 (proj2 (proj2 scores_round_half_to_even))))).
    vm_compute. discriminate.
Defined.

End FinalRounding.

(** ** The education list (C6) *)

Section Education.
Import Float64 Heuristics Scorer Scan.

Lemma education_loop (names : list string) (acc : list Card) :
  fold_left (fun education name =>
               match education_map !! name with
               | Some card => education ++ [card]
               | None => education
               end) names acc
  = acc ++ omap (fun name => education_map !! name) names.
Proof.
  revert acc. induction names as [| n names IH]; intros acc; simpl.
  - now rewrite app_nil_r.
  - rewrite IH. destruct (education_map !! n); simpl; [now rewrite <- app_assoc | reflexivity].
Qed.

(** What [generate_education] computes: one card per detected indicator
    whose name is in the table, in order and with repetitions, then the
    tip that goes with the label. *)
Lemma generate_education_spec (indicators : list Indicator) (label : string) :
  generate_education indicators label
  = omap (fun name => education_map !! name)
         (map name (filter (fun ind => detected ind = true) indicators))
    ++ (if String.eqb label "safe" then [verify_tip]
        else if bool_decide (label ∈ ["suspicious"; "dangerous"]) then [report_tip]
        else []).
Proof.
  unfold generate_education. rewrite education_loop. simpl app at 1.
  destruct (String.eqb label "safe"); [reflexivity |].
  destruct (bool_decide _); [reflexivity | now rewrite app_nil_r].
Qed.

(** C6 (the code at the failing input). Two detected indicators of the
    same name yield the same card twice: the names are not deduplicated
    before the lookup. An e-mail with two plain-http links shows it end
    to end: "Missing HTTPS" is listed once among the indicators and its
    card appears twice in the education list. *)
Theorem generate_education_repeats_cards :
  map title
      (generate_education
         [mkIndicator "Missing HTTPS" true f0_6 "first link";
          mkIndicator "Missing HTTPS" true f0_6 "second link"]
         "suspicious")
    = ["Why HTTPS matters"; "Why HTTPS matters"; "What to do with suspicious content"]
  /\ exists res,
       post_email (fun _ => []) (fun msg => msg)
         "Hello, our notes are at http://a.example/x and http://b.example/y - thanks"
         = Ok res
       /\ map r_name (e_indicators res) = ["Missing HTTPS"]
       /\ map title (e_education res)
          = ["Why HTTPS matters"; "Why HTTPS matters";
             "Good practice: Always verify before trusting"].
Proof.
  split; [vm_compute; reflexivity |].
  eexists. split; [vm_compute; reflexivity |].
  split; vm_compute; reflexivity.
Qed.

End Education.

(** ** Loading the classifier (C7) *)

Section ModelLoading.
Import Float64 Scorer MlModel.
Context (Model : Type) (MODEL_PATH : string).

Abbreviation Env := (Env Model).
Abbreviation Globals := (Globals Model).
Abbreviation predict := (predict_phishing_probability Model MODEL_PATH).
Abbreviation run := (run Model MODEL_PATH).

(** A load sets the flag, and does nothing once the flag is set. *)
Lemma load_model_once (env : Env) (g : Globals) :
  _model_loaded Model (_load_model Model MODEL_PATH env g).1 = true /\
  (count_event JoblibLoad (_load_model Model MODEL_PATH env g).2 <= 1)%nat /\
  (count_event PathExists (_load_model Model MODEL_PATH env g).2 <= 1)%nat /\
  (_model_loaded Model g = true -> _load_model Model MODEL_PATH env g = (g, [])).
Proof.
  unfold _load_model.
  destruct (_model_loaded Model g) eqn:Hl; [simpl; auto |].
  destruct (path_exists Model env); simpl.
  - destruct (joblib_load Model env); simpl; repeat split; auto; discriminate.
  - repeat split; auto; discriminate.
Qed.

Lemma predict_state (env : Env) (url : string) (g : Globals) :
  (predict env url g).1.2 = (_load_model Model MODEL_PATH env g).1 /\
  (predict env url g).2 = (_load_model Model MODEL_PATH env g).2.
Proof.
  unfold predict_phishing_probability.
  destruct (_load_model Model MODEL_PATH env g) as [g' ev].
  now destruct (_model Model g').
Qed.

Lemma predict_never_raises (env : Env) (url : string) (g : Globals) :
  exists r, (predict env url g).1.1 = Ok r.
Proof.
  unfold predict_phishing_probability.
  destruct (_load_model Model MODEL_PATH env g) as [g' ev].
  destruct (_model Model g'); simpl; [| eauto].
  apply try_except_Ok. eauto.
Qed.

Lemma predict_without_model (env : Env) (url : string) (g : Globals) :
  _model Model (predict env url g).1.2 = None ->
  (predict env url g).1.1
  = Ok (mkMlResult None false (_model_error Model (predict env url g).1.2)).
Proof.
  unfold predict_phishing_probability.
  destruct (_load_model Model MODEL_PATH env g) as [g' ev].
  destruct (_model Model g') eqn:Hm; simpl; [rewrite Hm; discriminate | reflexivity].
Qed.

(** Once loaded without a model, every call answers the cached failure
    and touches neither the file system nor the globals. *)
Lemma predict_cached_failure (env : Env) (url : string) (g : Globals) :
  _model_loaded Model g = true -> _model Model g = None ->
  predict env url g = (Ok (mkMlResult None false (_model_error Model g)), g, []).
Proof.
  intros Hl Hm. unfold predict_phishing_probability.
  rewrite (proj2 (proj2 (proj2 (load_model_once env g))) Hl). now rewrite Hm.
Qed.

Lemma run_loaded (calls : list (Env * string)) (g : Globals) :
  _model_loaded Model g = true -> (run calls g).1.2 = g /\ (run calls g).2 = [].
Proof.
  revert g. induction calls as [| [env url] calls IH]; intros g Hl; simpl; [auto |].
  destruct (predict env url g) as [[r g1] ev1] eqn:Hp.
  pose proof (predict_state env url g) as [Hg Hev]. rewrite Hp in Hg, Hev. simpl in Hg, Hev.
  rewrite (proj2 (proj2 (proj2 (load_model_once env g))) Hl) in Hg, Hev.
  simpl in Hg, Hev. subst g1 ev1.
  specialize (IH g Hl). destruct (run calls g) as [[rs g2] ev2]. simpl in *.
  destruct IH as [-> ->]. auto.
Qed.

Lemma run_cached_failure (calls : list (Env * string)) (g : Globals) :
  _model_loaded Model g = true -> _model Model g = None ->
  Forall (fun r => r = Ok (mkMlResult None false (_model_error Model g))) (run calls g).1.1.
Proof.
  intros Hl Hm. induction calls as [| [env url] calls IH]; simpl; [constructor |].
  rewrite (predict_cached_failure env url g Hl Hm).
  destruct (run calls g) as [[rs g2] ev2]. simpl in *. now constructor.
Qed.

Lemma run_events (calls : list (Env * string)) (g : Globals) :
  (count_event JoblibLoad (run calls g).2 <= 1)%nat /\
  (count_event PathExists (run calls g).2 <= 1)%nat.
Proof.
  destruct calls as [| [env url] calls]; simpl; [auto |].
  destruct (predict env url g) as [[r g1] ev1] eqn:Hp.
  pose proof (predict_state env url g) as [Hg Hev]. rewrite Hp in Hg, Hev. simpl in Hg, Hev.
  pose proof (load_model_once env g) as (Hl & Hc1 & Hc2 & _).
  rewrite <- Hg in Hl. rewrite <- Hev in Hc1, Hc2.
  pose proof (run_loaded calls g1 Hl) as [_ Hnil].
  destruct (run calls g1) as [[rs g2] ev2]. simpl in *. subst ev2.
  now rewrite app_nil_r.
Qed.

(** C7. [predict_phishing_probability] always returns a result dict,
    whatever the file system, the unpickler and the model do; in a
    process the file is looked for and unpickled at most once; a
    missing file, a failing unpickle and a failing prediction each give
    probability None, available False and their own error text; and
    after a load that left no model every later call returns the cached
    failure without touching the file system again. *)
Theorem predict_never_raises_never_reloads :
  (forall (env : Env) (url : string) (g : Globals),
      exists r, (predict env url g).1.1 = Ok r)
  /\ (forall calls : list (Env * string),
        (count_event JoblibLoad (run calls (initial Model)).2 <= 1)%nat /\
        (count_event PathExists (run calls (initial Model)).2 <= 1)%nat)
  /\ (forall (env : Env) (url : string),
        path_exists Model env = false ->
        (predict env url (initial Model)).1.1
        = Ok (mkMlResult None false
                (Some ("Model file not found at " +:+ MODEL_PATH +:+
                       ". Run training/train_model.py first."))))
  /\ (forall (env : Env) (url : string) (e : exn),
        path_exists Model env = true -> joblib_load Model env = Raise e ->
        (predict env url (initial Model)).1.1
        = Ok (mkMlResult None false (Some ("Failed to load model: " +:+ Py.str e))))
  /\ (forall (env : Env) (url : string) (g : Globals) (model : Model) (e : exn),
        _model Model (_load_model Model MODEL_PATH env g).1 = Some model ->
        predict_proba Model env model url = Raise e ->
        (predict env url g).1.1
        = Ok (mkMlResult None false (Some ("Prediction failed: " +:+ Py.str e))))
  /\ (forall (env0 : Env) (url0 : string) (calls : list (Env * string)),
        _model Model (predict env0 url0 (initial Model)).1.2 = None ->
        (run calls (predict env0 url0 (initial Model)).1.2).2 = [] /\
        (run calls (predict env0 url0 (initial Model)).1.2).1.2
          = (predict env0 url0 (initial Model)).1.2 /\
        Forall (fun r => r = (predict env0 url0 (initial Model)).1.1)
               (run calls (predict env0 url0 (initial Model)).1.2).1.1).
Proof.
  split; [apply predict_never_raises |].
  split; [intros calls; apply run_events |].
  split; [| split; [| split]].
  - intros env url Hp. unfold predict_phishing_probability, _load_model. simpl.
    now rewrite Hp.
  - intros env url e Hp Hl. unfold predict_phishing_probability, _load_model. simpl.
    now rewrite Hp, Hl.
  - intros env url g model e Hm He. unfold predict_phishing_probability.
    destruct (_load_model Model MODEL_PATH env g) as [g' ev]. simpl in Hm.
    rewrite Hm. simpl. now rewrite He.
  - intros env0 url0 calls Hnone.
    pose proof (predict_state env0 url0 (initial Model)) as [Hg _].
    pose proof (load_model_once env0 (initial Model)) as (Hl & _).
    rewrite <- Hg in Hl.
    pose proof (run_loaded calls _ Hl) as [Hsame Hnil].
    pose proof (run_cached_failure calls _ Hl Hnone) as Hall.
    repeat split; auto.
    eapply Forall_impl; [exact Hall |]. intros r ->. symmetry.
    now apply predict_without_model.
Qed.

End ModelLoading.

Lemma predict_never_raises_never_reloads_witness :
  (MlModel.predict_phishing_probability unit "models/phishing_model.joblib"
     (MlModel.mkEnv unit false (Ok (Some tt)) (fun _ _ => Ok Float64.f0_9))
     "http://example.com" (MlModel.initial unit)).1.1
  = Ok (Scorer.mkMlResult None false
          (Some ("Model file not found at " +:+ "models/phishing_model.joblib" +:+
                 ". Run training/train_model.py first."))).
Proof.
  apply (proj1 (proj2 (proj2 (predict_never_raises_never_reloads unit
                                 "models/phishing_model.joblib")))).
  reflexivity.
Defined.

(** ** Request validation (C8) *)

Section Validation.
Import Scorer Scan Bulk.

Lemma is_empty_spec (s : string) : Str.is_empty s = true <-> s = EmptyString.
Proof. destruct s; simpl; split; congruence. Qed.

Lemma validate_content_cases (raw : string) :
  (Str.strip raw = EmptyString ->
   validate_content raw = Raise (ValueError "Email content cannot be empty")) /\
  (Str.strip raw <> EmptyString -> Str.len (Str.strip raw) < 10 ->
   validate_content raw
   = Raise (ValueError "Email content is too short to analyze meaningfully")) /\
  (10 <= Str.len (Str.strip raw) -> validate_content raw = Ok (Str.strip raw)).
Proof.
  unfold validate_content. repeat split.
  - now intros ->.
  - intros Hne Hlt. destruct (Str.is_empty (Str.strip raw)) eqn:He.
    + now apply is_empty_spec in He.
    + now apply Z.ltb_lt in Hlt as ->.
  - intros Hge. destruct (Str.is_empty (Str.strip raw)) eqn:He.
    + apply is_empty_spec in He. rewrite He in Hge. unfold Str.len in Hge. simpl in Hge. lia.
    + now apply Z.ltb_ge in Hge as ->.
Qed.

Lemma validate_urls_cases (urls : list string) :
  (urls = [] -> validate_urls urls = Raise (ValueError "URL list cannot be empty")) /\
  (10 < Z.of_nat (length urls) ->
   validate_urls urls = Raise (ValueError "Maximum 10 URLs per bulk scan")).
Proof.
  unfold validate_urls. split.
  - now intros ->.
  - intros Hlen. destruct urls as [| u rest]; [simpl in Hlen; lia |].
    now apply Z.ltb_lt in Hlen as ->.
Qed.

(** C8. Validation comes before any scoring. An e-mail whose content is
    empty after trimming, or shorter than 10 characters after trimming, is
    rejected with a reason; content of exactly 10 characters after
    trimming is accepted (as is anything longer) and handed, trimmed, to
    the scan. A bulk request with no URL or with more than 10 URLs is
    rejected with a reason. A rejected request gets its rejection whatever
    the reputation feeds and the intelligence lookups would have answered:
    the handler is never entered. *)
Theorem validation_rejects_before_scoring :
  (forall raw : string,
      Str.len (Str.strip raw) < 10 ->
      exists reason,
        validate_content raw = Raise (ValueError reason) /\
        reason = (if Str.is_empty (Str.strip raw)
                  then "Email content cannot be empty"
                  else "Email content is too short to analyze meaningfully") /\
        forall apis verr,
          post_email apis verr raw = Raise (ValueError (verr reason)))
  /\ (forall raw : string,
         Str.len (Str.strip raw) = 10 ->
         validate_content raw = Ok (Str.strip raw) /\
         forall apis verr,
           post_email apis verr raw = scan_email apis (mkEmailScanRequest (Str.strip raw)))
  /\ (forall urls : list string,
         urls = [] \/ 10 < Z.of_nat (length urls) ->
         exists reason,
           validate_urls urls = Raise (ValueError reason) /\
           reason = (if bool_decide (urls = []) then "URL list cannot be empty"
                     else "Maximum 10 URLs per bulk scan") /\
           forall Intel apis gather verr,
             post_bulk Intel apis gather verr urls = Raise (ValueError (verr reason))).
Proof.
  split; [| split].
  - intros raw Hlt. pose proof (validate_content_cases raw) as (He & Hs & _).
    destruct (Str.is_empty (Str.strip raw)) eqn:Hemp.
    + apply is_empty_spec in Hemp. eexists. split; [now apply He |].
      split; [reflexivity |]. intros apis verr.
      unfold post_email, new_EmailScanRequest. now rewrite (He Hemp).
    + assert (Hne : Str.strip raw <> EmptyString).
      { intros H. apply is_empty_spec in H. congruence. }
      eexists. split; [now apply Hs |].
      split; [reflexivity |]. intros apis verr.
      unfold post_email, new_EmailScanRequest. now rewrite (Hs Hne Hlt).
  - intros raw Hlen. pose proof (validate_content_cases raw) as (_ & _ & Hok).
    specialize (Hok ltac:(lia)). split; [exact Hok |]. intros apis verr.
    unfold post_email, new_EmailScanRequest. now rewrite Hok.
  - intros urls Hbad. pose proof (validate_urls_cases urls) as (He & Hm).
    case_bool_decide as Hnil.
    + eexists. split; [now apply He |]. split; [reflexivity |].
      intros Intel apis gather verr.
      unfold post_bulk, new_BulkScanRequest. now rewrite (He Hnil).
    + destruct Hbad as [? | Hlen]; [contradiction |].
      eexists. split; [now apply Hm |]. split; [reflexivity |].
      intros Intel apis gather verr.
      unfold post_bulk, new_BulkScanRequest. now rewrite (Hm Hlen).
Qed.

Lemma validation_rejects_before_scoring_witness :
  (exists reason,
      validate_content "   hi there " = Raise (ValueError reason) /\
      reason = (if Str.is_empty (Str.strip "   hi there ")
                then "Email content cannot be empty"
                else "Email content is too short to analyze meaningfully") /\
      forall apis verr,
        post_email apis verr "   hi there " = Raise (ValueError (verr reason)))
  /\ validate_content " 0123456789  " = Ok "0123456789"
  /\ (exists reason,
         validate_urls (replicate 11 "http://example.com")
         = Raise (ValueError reason) /\
         reason = "Maximum 10 URLs per bulk scan").
Proof.
  split; [| split].
  - apply (proj1 validation_rejects_before_scoring). vm_compute. reflexivity.
  - apply (proj1 (proj2 validation_rejects_before_scoring) " 0123456789  ").
    vm_compute. reflexivity.
  - destruct (proj2 (proj2 validation_rejects_before_scoring)
                (replicate 11 "http://example.com")) as (reason & Hv & Hr & _).
    + right. vm_compute. reflexivity.
    + exists reason. split; [exact Hv | exact Hr].
Defined.

End Validation.

(** ** The bulk scan (C9) *)

Section BulkScan.
Import Float64 Scorer Scan Bulk.
Context (Intel : Type) (apis : string -> list ApiResult)
        (gather : string -> result Intel) (verr : string -> string).

Abbreviation Item := (Item Intel).
Abbreviation scan_one := (scan_one Intel apis gather verr).
Abbreviation item_of := (item_of Intel apis gather verr).
Abbreviation attempt := (attempt Intel apis gather verr).

(** The [try]/[except] of the loop body turns every outcome into an entry. *)
Lemma scan_one_item (url : string) : scan_one url = Ok (item_of url).
Proof.
  unfold Bulk.scan_one, Bulk.item_of, Bulk.attempt.
  destruct (new_UrlScanRequest verr url) as [req | e]; simpl; [| reflexivity].
  destruct (scan_url Intel apis gather req); reflexivity.
Qed.

Lemma scan_all_map (urls : list string) (acc : list Item) :
  scan_all Intel apis gather verr urls acc = Ok (acc ++ map item_of urls).
Proof.
  revert acc. induction urls as [| url urls IH]; intros acc; simpl.
  - now rewrite app_nil_r.
  - rewrite scan_one_item. simpl. rewrite IH. now rewrite <- app_assoc.
Qed.

Lemma valid_results_scored (results : list Item) :
  omap (item_overall_score Intel)
       (filter (fun r => item_overall_score Intel r <> None) results)
  = map (overall_score Intel) (scored Intel results)
  /\ length (filter (fun r => item_overall_score Intel r <> None) results)
     = length (scored Intel results).
Proof.
  induction results as [| r results [IH1 IH2]]; [split; reflexivity |].
  rewrite filter_cons. destruct r as [s | u e]; simpl; split;
    first [exact IH1 | exact IH2 | f_equal; first [exact IH1 | exact IH2]].
Qed.

Lemma count_label_scored (l : string) (results : list Item) :
  l <> "error" ->
  count_label Intel l (filter (fun r => item_overall_score Intel r <> None) results)
  = labelled Intel l (scored Intel results).
Proof.
  intros Hl. unfold count_label, labelled.
  rewrite (count_fold_length (fun r => String.eqb (item_label Intel r) l)), Z.add_0_l.
  f_equal. induction results as [| r results IH]; [reflexivity |].
  rewrite (filter_cons _ r). destruct r as [s | u e]; simpl.
  - rewrite !filter_cons. simpl.
    destruct (String.eqb_spec (label_ Intel s) l) as [Heq | Hne];
      repeat case_decide; try congruence; simpl; now rewrite IH.
  - exact IH.
Qed.

(** A score that [scan_url] reports lies between 0 and 100. *)
Lemma scan_url_score_range (req : UrlScanRequest) (r : UrlScanResult Intel) :
  scan_url Intel apis gather req = Ok r -> 0 <= overall_score Intel r <= 100.
Proof.
  intros H. unfold scan_url in H. invert_binds H. injection H as <-. simpl.
  eapply compute_overall_score_range; eassumption.
Qed.

Lemma scored_range (urls : list string) :
  Forall (fun r => 0 <= overall_score Intel r <= 100) (scored Intel (map item_of urls)).
Proof.
  induction urls as [| url urls IH]; [constructor |].
  simpl. unfold Bulk.item_of at 1, Bulk.attempt.
  destruct (new_UrlScanRequest verr url) as [req | e]; simpl; [| exact IH].
  destruct (scan_url Intel apis gather req) as [r | e] eqn:Hs; simpl; [| exact IH].
  constructor; [now apply (scan_url_score_range req) | exact IH].
Qed.

Lemma int_sum_range (xs : list Z) :
  Forall (fun x => 0 <= x <= 100) xs -> 0 <= int_sum xs <= 100 * Z.of_nat (length xs).
Proof.
  unfold int_sum. intros H.
  assert (G : forall acc, acc <= fold_left Z.add xs acc <= acc + 100 * Z.of_nat (length xs)).
  { induction H as [| x xs Hx _ IH]; intros acc; simpl fold_left; [simpl; lia |].
    specialize (IH (acc + x)). simpl length. lia. }
  specialize (G 0). lia.
Qed.

Lemma int_max_default_spec (xs : list Z) :
  xs <> [] -> int_max_default xs ∈ xs /\ Forall (fun x => x <= int_max_default xs) xs.
Proof.
  destruct xs as [| x xs]; [congruence |]. intros _. unfold int_max_default.
  assert (G : forall m, let r := fold_left (fun m y => if m <? y then y else m) xs m in
                        (r = m \/ r ∈ xs) /\ m <= r /\ Forall (fun y => y <= r) xs).
  { induction xs as [| y xs IH]; intros m; simpl; [repeat split; auto; lia |].
    specialize (IH (if m <? y then y else m)). simpl in IH.
    destruct IH as (Hin & Hle & Hall).
    destruct (Z.ltb_spec m y); repeat split; try lia.
    - destruct Hin as [-> | Hin]; right; [left | now right].
    - constructor; [lia | exact Hall].
    - destruct Hin as [-> | Hin]; [now left | right; now right].
    - constructor; [lia | exact Hall]. }
  specialize (G x). simpl in G. destruct G as (Hin & Hle & Hall). split.
  - destruct Hin as [-> | Hin]; [left | now right].
  - constructor; [exact Hle | exact Hall].
Qed.


Lemma cleaned_length (v acc : list string) :
  (length (fold_left (fun cleaned url =>
                        if Str.is_empty (Str.strip url) then cleaned
                        else cleaned ++ [Str.strip url]) v acc)
   <= length acc + length v)%nat.
Proof.
  revert acc. induction v as [| u v IH]; intros acc; simpl fold_left; [lia |].
  destruct (Str.is_empty (Str.strip u)).
  - specialize (IH acc). simpl length. lia.
  - specialize (IH (acc ++ [Str.strip u])). rewrite length_app in IH.
    simpl length in *. lia.
Qed.

(** A validated batch is not empty and has at most ten URLs. *)
Lemma validate_urls_cleaned (raw cleaned : list string) :
  validate_urls raw = Ok cleaned -> cleaned <> [] /\ (length cleaned <= 10)%nat.
Proof.
  unfold validate_urls. cbv zeta. destruct raw as [| u raw]; [discriminate |].
  destruct (Z.ltb_spec 10 (Z.of_nat (length (u :: raw)))) as [| Hlen]; [discriminate |].
  pose proof (cleaned_length (u :: raw) []) as Hc.
  destruct (fold_left _ (u :: raw) []) as [| c cs]; [discriminate |].
  intros [= <-]. split; [discriminate |]. simpl length in *. lia.
Qed.

Lemma scored_length (results : list Item) :
  (length (scored Intel results) <= length results)%nat.
Proof.
  induction results as [| [s | u e] results IH]; simpl; lia.
Qed.


End BulkScan.


(** ** The severity buckets of the two responses (C10) *)

Section SeverityBuckets.
Import Float64 Heuristics Scorer Scan.









End SeverityBuckets.

(** * Further properties of the code *)

Import Float64 Heuristics Scorer Scan Bulk Notions.

(** ** Binary64 operations keep the canonical form *)

Section Canonical.

(** The second half of a rounding step: a mantissa in canonical position,
    or one above it, is put back into canonical position. *)
Lemma shr_fexp_first (m e : Z) (l : location) (r : shr_record) (e' : Z) :
  0 <= m -> e <= fexp prec emax (Zdigits2 m + e) ->
  shr_fexp prec emax m e l = (r, e') ->
  0 <= shr_m r /\ fexp prec emax (Zdigits2 (shr_m r) + e') = e'.
Proof.
  intros Hm He H.
  pose proof (shr_fexp_bounds m e l r e' Hm H) as (Hr & He' & _).
  split; [lia |].
  destruct (Z.eq_dec m 0) as [-> | Hne].
  - assert (shr_m r = 0) as -> by lia. simpl in *.
    unfold fexp, emin, prec, emax in *. lia.
  - destruct (Z_lt_le_dec (-1074) (Zdigits2 m + e)) as [Hlow | Hlow].
    + apply shr_fexp_exact in H; [| lia | lia]. destruct H as (_ & ->). lia.
    + assert (He'' : e' = -1074) by (unfold fexp, emin, prec, emax in *; lia).
      assert (Hz : shr_m r = 0).
      { revert H. unfold shr_fexp, shr.
        destruct (fexp prec emax (Zdigits2 m + e) - e) as [| n | n] eqn:Hn;
          intros [= <- <-]; rewrite ?shr_record_of_loc_m;
          try (unfold fexp, emin, prec, emax in *; pose proof (Zdigits2_log2 m); 
               pose proof (Z.log2_nonneg m); lia).
        rewrite iter_shr_1_m by (rewrite shr_record_of_loc_m; lia).
        rewrite shr_record_of_loc_m.
        apply Z.div_small. split; [lia |].
        assert (Hd : Zdigits2 m <= Zpos n) by (unfold fexp, emin, prec, emax in *; lia).
        rewrite Zdigits2_log2 in Hd by lia.
        apply Z.log2_lt_pow2; lia. }
      rewrite Hz. simpl. unfold fexp, emin, prec, emax in *. lia.
Qed.


Lemma Zdigits2_half (m : Z) : 2 <= m -> Zdigits2 (m / 2) = Zdigits2 m - 1.
Proof.
  intros Hm. assert (0 < m / 2) by (apply Z.div_str_pos; lia).
  rewrite !Zdigits2_log2 by lia.
  change 2 with (2 ^ 1) at 1. rewrite <- Z.shiftr_div_pow2, Z.log2_shiftr by lia.
  pose proof (Z.log2_le_mono 2 m ltac:(lia)). simpl in *. lia.
Qed.

Lemma shr_fexp_second (m e m1 : Z) (r : shr_record) (e' : Z) :
  0 <= m -> fexp prec emax (Zdigits2 m + e) = e -> m <= m1 <= m + 1 ->
  shr_fexp prec emax m1 e loc_Exact = (r, e') ->
  0 <= shr_m r /\ fexp prec emax (Zdigits2 (shr_m r) + e') = e'.
Proof.
  intros Hm Hc Hm1 H.
  pose proof (shr_fexp_bounds m1 e loc_Exact r e' ltac:(lia) H) as (Hr & He' & _).
  split; [lia |].
  pose proof (Zdigits2_le m m1 ltac:(lia)) as Hlo.
  assert (Hhi : Zdigits2 m1 <= Zdigits2 m + 1).
  { etransitivity; [apply (Zdigits2_le m1 (m + 1)); lia | apply Zdigits2_succ; lia]. }
  pose proof (Zdigits2_nonneg m) as Hd0.
  revert H. unfold shr_fexp, shr.
  destruct (fexp prec emax (Zdigits2 m1 + e) - e) as [| n | n] eqn:Hn;
    intros [= <- <-]; cbn [shr_m shr_record_of_loc] in *.
  - lia.
  - assert (Hn1 : Zpos n = 1) by (unfold fexp, emin, prec, emax in *; lia).
    rewrite iter_shr_1_m by (cbn [shr_m]; lia).
    cbn [shr_m]. rewrite Hn1. change (2 ^ 1) with 2.
    assert (Hd1 : Zdigits2 m1 = Zdigits2 m + 1) by (unfold fexp, emin, prec, emax in *; lia).
    assert (2 <= m1).
    { destruct (Z.eq_dec m 0) as [-> | ?]; [| destruct (Z.eq_dec m 1) as [-> | ?]; [| lia]].
      - simpl in *. unfold fexp, emin, prec, emax in *.
        assert (m1 = 0 \/ m1 = 1) as [-> | ->] by lia; simpl in *; lia.
      - assert (m1 = 1 \/ m1 = 2) as [-> | ->] by lia; simpl in *; lia. }
    rewrite Zdigits2_half by lia. unfold fexp, emin, prec, emax in *. lia.
  - unfold fexp, emin, prec, emax in *. lia.
Qed.

(** Rounding a mantissa that carries all the bits the format keeps gives
    a value in canonical form. *)
Lemma binary_round_aux_valid (s : bool) (mx ex : Z) (lx : location) :
  0 <= mx -> ex <= fexp prec emax (Zdigits2 mx + ex) ->
  valid_binary prec emax (binary_round_aux prec emax s mx ex lx) = true.
Proof.
  intros Hmx Hex. unfold binary_round_aux.
  destruct (shr_fexp prec emax mx ex lx) as [r1 e1] eqn:H1.
  apply shr_fexp_first in H1; try lia. destruct H1 as (Hm1 & Hc1).
  pose proof (round_nearest_even_bounds (shr_m r1) (loc_of_shr_record r1)) as Hrne.
  destruct (shr_fexp prec emax _ e1 loc_Exact) as [r2 e2] eqn:H2.
  apply (shr_fexp_second (shr_m r1)) in H2; try lia. destruct H2 as (Hm2 & Hc2).
  destruct (shr_m r2) as [| p | p] eqn:Hr2; try reflexivity.
  destruct (Z.leb_spec e2 (emax - prec)); [| reflexivity].
  simpl. unfold bounded, canonical_mantissa. simpl in Hc2.
  rewrite Hc2, Z.eqb_refl. simpl. apply Z.leb_le. lia.
Qed.

Lemma binary_round_valid (s : bool) (mx : positive) (ex : Z) :
  valid_binary prec emax (binary_round prec emax s mx ex) = true.
Proof.
  unfold binary_round.
  destruct (shl_align mx ex _) as [mz ez] eqn:Hal.
  apply shl_align_spec in Hal. destruct Hal as (He & Heq & _ & Hd).
  apply binary_round_aux_valid; [lia |]. simpl Zdigits2. rewrite Hd.
  destruct (Z_le_dec (fexp prec emax (Zpos (digits2_pos mx) + ex)) ex); lia.
Qed.

Lemma binary_normalize_valid (m e : Z) (sz : bool) :
  valid_binary prec emax (binary_normalize prec emax m e sz) = true.
Proof. destruct m; simpl; auto using binary_round_valid. Qed.

Lemma of_int_valid (z : Z) : valid_binary prec emax (of_int z) = true.
Proof. apply binary_normalize_valid. Qed.

Lemma add_valid (x y : float) :
  valid_binary prec emax x = true -> valid_binary prec emax y = true ->
  valid_binary prec emax (add x y) = true.
Proof.
  intros Hx Hy. destruct x as [sx | sx | | sx mx ex], y as [sy | sy | | sy my ey];
    try reflexivity; try assumption;
    try (destruct sx, sy; reflexivity).
  apply binary_normalize_valid.
Qed.

Lemma canonical_digits (m : positive) (e : Z) :
  bounded prec emax m e = true ->
  e = fexp prec emax (Zpos (digits2_pos m) + e) /\ e <= emax - prec.
Proof.
  unfold bounded, canonical_mantissa. intros H.
  apply andb_true_iff in H. destruct H as [H1 H2].
  apply Z.eqb_eq in H1. apply Z.leb_le in H2. lia.
Qed.

Lemma mul_valid (x y : float) :
  valid_binary prec emax x = true -> valid_binary prec emax y = true ->
  valid_binary prec emax (mul x y) = true.
Proof.
  intros Hx Hy. destruct x as [sx | sx | | sx mx ex], y as [sy | sy | | sy my ey];
    try reflexivity.
  simpl in Hx, Hy. apply canonical_digits in Hx, Hy.
  unfold mul, SFmul. apply binary_round_aux_valid; [lia |].
  assert (Hd : Zdigits2 (Zpos mx) + Zdigits2 (Zpos my) - 1 <= Zdigits2 (Zpos (mx * my))).
  { rewrite !Zdigits2_log2 by lia. rewrite Pos2Z.inj_mul.
    pose proof (Z.log2_mul_below (Zpos mx) (Zpos my) ltac:(lia) ltac:(lia)). lia. }
  simpl Zdigits2 in *. unfold fexp, emin, prec, emax in *. lia.
Qed.


(** The quotient is computed with all the bits the format keeps: a
    division of finite values is in canonical form whatever they are. *)
Lemma div_valid (x y : float) : valid_binary prec emax (div x y) = true.
Proof.
  destruct x as [sx | sx | | sx mx ex], y as [sy | sy | | sy my ey]; try reflexivity.
  unfold div, SFdiv, SFdiv_core_binary.
  set (d1 := Zdigits2 (Zpos mx)). set (d2 := Zdigits2 (Zpos my)).
  set (e' := Z.min (fexp prec emax (d1 + ex - (d2 + ey))) (ex - ey)).
  set (m' := match ex - ey - e' with
             | 0 => Zpos mx
             | Zpos _ => Z.shiftl (Zpos mx) (ex - ey - e')
             | Zneg _ => 0
             end).
  destruct (Z.div_eucl m' (Zpos my)) as [q r] eqn:Hdiv.
  apply div_eucl_div in Hdiv.
  assert (Hs : 0 <= ex - ey - e') by lia.
  assert (Hm' : m' = Zpos mx * 2 ^ (ex - ey - e')).
  { unfold m'. destruct (ex - ey - e') as [| k | k] eqn:Hk; try lia.
    rewrite Z.shiftl_mul_pow2 by lia. reflexivity. }
  assert (Hpow : 0 < 2 ^ (ex - ey - e')) by (apply Z.pow_pos_nonneg; lia).
  assert (Hq : 0 <= q) by (subst q; apply Z.div_pos; nia).
  apply binary_round_aux_valid; [exact Hq |].
  assert (Hdq : d1 + (ex - ey - e') - d2 <= Zdigits2 q).
  { pose proof (Zdigits2_nonneg q).
    destruct (Z_le_dec (d1 + (ex - ey - e') - d2) 0) as [? | Hk]; [lia |].
    set (k := d1 + (ex - ey - e') - d2 - 1) in *.
    assert (H1 : 2 ^ (d1 - 1) <= Zpos mx).
    { unfold d1. rewrite Zdigits2_log2 by lia.
      replace (Z.log2 (Zpos mx) + 1 - 1) with (Z.log2 (Zpos mx)) by lia.
      apply Z.log2_spec. lia. }
    assert (H2 : Zpos my < 2 ^ d2).
    { unfold d2. rewrite Zdigits2_log2 by lia.
      replace (Z.log2 (Zpos my) + 1) with (Z.succ (Z.log2 (Zpos my))) by lia.
      apply Z.log2_spec. lia. }
    assert (Hd1 : 1 <= d1) by (unfold d1; simpl; lia).
    assert (Hd2 : 1 <= d2) by (unfold d2; simpl; lia).
    assert (Hk0 : 0 <= k) by (unfold k; lia).
    assert (Hpk : 0 < 2 ^ k) by (apply Z.pow_pos_nonneg; lia).
    assert (Hge : 2 ^ k <= q).
    { subst q. apply Z.div_le_lower_bound; [lia |].
      rewrite Hm'.
      assert (Hsplit : 2 ^ (d1 - 1) * 2 ^ (ex - ey - e') = 2 ^ d2 * 2 ^ k).
      { rewrite <- !Z.pow_add_r by lia. f_equal. unfold k. lia. }
      nia. }
    rewrite Zdigits2_log2 by lia.
    pose proof (proj1 (Z.log2_le_pow2 q k ltac:(lia)) Hge). unfold k in *. lia. }
  unfold e' in *. unfold fexp, emin, prec, emax in *. lia.
Qed.

(** ** Signs: [ltb x zero = false] says that [x] is not below zero *)

Lemma binary_round_aux_sign (s : bool) (mx ex : Z) (lx : location) :
  match binary_round_aux prec emax s mx ex lx with
  | S754_zero s' | S754_infinity s' | S754_finite s' _ _ => s' = s
  | S754_nan => True
  end.
Proof.
  unfold binary_round_aux.
  destruct (shr_fexp prec emax mx ex lx) as [r1 e1].
  destruct (shr_fexp prec emax _ e1 loc_Exact) as [r2 e2].
  destruct (shr_m r2); auto. destruct (e2 <=? emax - prec); auto.
Qed.


Lemma of_int_not_negative (a : Z) : 0 <= a -> ltb (of_int a) zero = false.
Proof.
  intros Ha. pose proof (of_int_nonneg a Ha) as H.
  destruct (of_int a) as [s | s | | s m e]; try reflexivity; subst; reflexivity.
Qed.

Lemma mul_not_negative (x y : float) :
  ltb x zero = false -> ltb y zero = false -> ltb (mul x y) zero = false.
Proof.
  destruct x as [sx | sx | | sx mx ex], y as [sy | sy | | sy my ey];
    try reflexivity; try (destruct sx, sy; (reflexivity || discriminate)).
  intros Hx Hy. destruct sx; [discriminate |]. destruct sy; [discriminate |].
  unfold mul, SFmul.
  pose proof (binary_round_aux_sign (xorb false false) (Zpos (mx * my)) (ex + ey) loc_Exact) as H.
  destruct (binary_round_aux _ _ _ _ _ _) as [s | s | | s m e]; try reflexivity;
    subst; reflexivity.
Qed.

Lemma div_not_negative (x y : float) :
  ltb x zero = false -> ltb zero y = true -> ltb (div x y) zero = false.
Proof.
  destruct x as [sx | sx | | sx mx ex], y as [sy | sy | | sy my ey];
    try reflexivity; try (destruct sx, sy; (reflexivity || discriminate)).
  intros Hx Hy. destruct sx; [discriminate |]. destruct sy; [discriminate |].
  unfold div, SFdiv.
  destruct (SFdiv_core_binary _ _ _ _ _ _) as [[mz ez] lz].
  pose proof (binary_round_aux_sign (xorb false false) mz ez lz) as H.
  destruct (binary_round_aux _ _ _ _ _ _) as [s | s | | s m e]; try reflexivity;
    subst; reflexivity.
Qed.

(** [min(1.0, x)] of a canonical value that is not below zero is a
    canonical value between 0 and 1; an infinite or undefined [x] gives
    1.0. *)
Lemma py_min_one_unit (x : float) :
  valid_binary prec emax x = true -> ltb x zero = false ->
  unit_interval (py_min f1_0 x).
Proof.
  intros Hv Hs. unfold py_min.
  destruct (ltb x f1_0) eqn:Hlt; [| repeat split; reflexivity].
  destruct x as [s | s | | s m e]; try discriminate.
  - repeat split; destruct s; reflexivity.
  - destruct s; discriminate.
  - destruct s; [cbv in Hs; discriminate |].
    split; [exact Hv |]. split; [reflexivity |].
    unfold ltb, SFltb in Hlt. unfold leb, SFleb.
    destruct (SFcompare _ _) as [[| |] |]; try discriminate; reflexivity.
Qed.

End Canonical.

(** ** The URL analyzer: names and severities *)

Section UrlIndicators.

Lemma Ok_inj {A} (a b : A) : Ok a = Ok b -> a = b.
Proof. intros [=]. assumption. Qed.

(** What every indicator of a URL analysis satisfies. *)
Lemma append_if_Forall (P : Indicator -> Prop) (c : bool) (ind : Indicator)
      (l : list Indicator) :
  Forall P l -> (c = true -> P ind) -> Forall P (append_if c ind l).
Proof.
  intros Hl Hi. unfold append_if. destruct c; [| exact Hl].
  apply Forall_app. split; [exact Hl | constructor; auto].
Qed.

Lemma append_if_names (c : bool) (ind : Indicator) (l : list Indicator) (done : list string) :
  map name l `sublist_of` done ->
  map name (append_if c ind l) `sublist_of` done ++ [name ind].
Proof.
  intros H. unfold append_if. destruct c.
  - rewrite map_app. apply sublist_app; [exact H | reflexivity].
  - apply sublist_inserts_r, H.
Qed.

Lemma scaled_count_unit (n : Z) (w : float) :
  0 <= n -> valid_binary prec emax w = true -> ltb w zero = false ->
  unit_interval (py_min f1_0 (mul (of_int n) w)).
Proof.
  intros Hn Hv Hs. apply py_min_one_unit.
  - apply mul_valid; [apply of_int_valid | exact Hv].
  - apply mul_not_negative; [apply of_int_not_negative; lia | exact Hs].
Qed.

Lemma excess_length_unit (n : Z) :
  0 <= n -> unit_interval (py_min f1_0 (div (of_int n) (of_int 100))).
Proof.
  intros Hn. apply py_min_one_unit; [apply div_valid |].
  apply div_not_negative; [apply of_int_not_negative; lia | reflexivity].
Qed.

(** The names come in the order of the ten checks, each at most once. *)
Lemma analyze_url_names (url : string) (inds : list Indicator) :
  analyze_url_heuristics url = Ok inds ->
  map name inds `sublist_of`
    [ "Excessive URL Length"; "IP Address Instead of Domain"; "Missing HTTPS";
      "Suspicious Top-Level Domain"; "URL Shortener Detected"; "Excessive Subdomains";
      "@ Symbol in URL"; "Brand Impersonation"; "Suspicious Path Keywords";
      "URL Encoding / Obfuscation" ].
Proof.
  unfold analyze_url_heuristics.
  destruct (Urllib.urlparse url) as [parsed | e]; [| discriminate].
  cbn [mbind result_bind]. intros H. apply Ok_inj in H. subst inds. cbv zeta.
  change [ "Excessive URL Length"; "IP Address Instead of Domain"; "Missing HTTPS";
      "Suspicious Top-Level Domain"; "URL Shortener Detected"; "Excessive Subdomains";
      "@ Symbol in URL"; "Brand Impersonation"; "Suspicious Path Keywords";
      "URL Encoding / Obfuscation" ] with
    ((((((((((([] : list string) ++ ["Excessive URL Length"]) ++ ["IP Address Instead of Domain"])
         ++ ["Missing HTTPS"]) ++ ["Suspicious Top-Level Domain"]) ++ ["URL Shortener Detected"])
         ++ ["Excessive Subdomains"]) ++ ["@ Symbol in URL"]) ++ ["Brand Impersonation"])
         ++ ["Suspicious Path Keywords"]) ++ ["URL Encoding / Obfuscation"]).
  apply (append_if_names _ (mkIndicator "URL Encoding / Obfuscation" _ _ _)).
  apply (append_if_names _ (mkIndicator "Suspicious Path Keywords" _ _ _)).
  match goal with
  | |- map name (match ?o with Some _ => _ | None => _ end) `sublist_of` _ =>
      destruct o as [[brand variant] |]
  end.
  1: rewrite map_app; apply sublist_app; [| reflexivity].
  2: apply sublist_inserts_r.
  all: apply (append_if_names _ (mkIndicator "@ Symbol in URL" _ _ _)).
  all: apply (append_if_names _ (mkIndicator "Excessive Subdomains" _ _ _)).
  all: apply (append_if_names _ (mkIndicator "URL Shortener Detected" _ _ _)).
  all: apply (append_if_names _ (mkIndicator "Suspicious Top-Level Domain" _ _ _)).
  all: apply (append_if_names _ (mkIndicator "Missing HTTPS" _ _ _)).
  all: apply (append_if_names _ (mkIndicator "IP Address Instead of Domain" _ _ _)).
  all: apply (append_if_names _ (mkIndicator "Excessive URL Length" _ _ _)).
  all: constructor.
Qed.

Lemma analyze_url_each (url : string) (inds : list Indicator) :
  analyze_url_heuristics url = Ok inds ->
  Forall (fun ind => detected ind = true /\ unit_interval (severity ind)) inds.
Proof.
  unfold analyze_url_heuristics.
  destruct (Urllib.urlparse url) as [parsed | e]; [| discriminate].
  cbn [mbind result_bind]. intros H. apply Ok_inj in H. subst inds. cbv zeta.
  repeat first
    [ apply append_if_Forall
    | match goal with
      | |- Forall _ (match ?o with Some _ => _ | None => _ end) =>
          destruct o as [[brand variant] |]; [apply Forall_app; split |]
      end
    | match goal with |- Forall _ [] => apply Forall_nil_2 end
    | match goal with |- Forall _ [_] => apply Forall_singleton end ];
    cbn [detected severity]; intros; (split; [reflexivity |]);
    lazymatch goal with
    | H : (75 <? _) = true |- unit_interval (py_min _ (div _ _)) =>
        apply Z.ltb_lt in H; apply excess_length_unit; lia
    | H : (3 <=? _) = true |- unit_interval (py_min _ (mul _ _)) =>
        apply Z.leb_le in H; apply scaled_count_unit; [lia | reflexivity | reflexivity]
    | |- unit_interval _ => repeat split; reflexivity
    end.
Qed.

End UrlIndicators.

(** ** URLs without square brackets always parse *)

Section Brackets.

(** [c in s] for a single character. *)
Lemma contains_char_cons (c d : ascii) (s : string) :
  Str.contains (String c EmptyString) (String d s)
  = Ascii.eqb c d || Str.contains (String c EmptyString) s.
Proof. simpl. now rewrite andb_true_r. Qed.







End Brackets.

(** ** The indicators of a URL *)

Section UrlIndicatorTheorems.

(** X1. Whenever [analyze_url_heuristics] returns, it reports at most ten
    indicators, no two of them under the same name, each one detected
    and with a severity between 0 and 1. *)
Theorem url_indicators_well_formed (url : string) (inds : list Indicator) :
  analyze_url_heuristics url = Ok inds ->
  NoDup (map name inds) /\ (length inds <= 10)%nat /\
  Forall (fun ind => detected ind = true /\ unit_interval (severity ind)) inds.
Proof.
  intros H. pose proof (analyze_url_names url inds H) as Hn.
  split; [| split].
  - refine (sublist_NoDup _ _ _ Hn). apply NoDup_ListNoDup.
    repeat (constructor; [cbv [In]; intuition discriminate |]). constructor.
  - apply sublist_length in Hn. rewrite length_map in Hn. exact Hn.
  - apply analyze_url_each with url. exact H.
Qed.

Lemma url_indicators_well_formed_witness :
  exists inds,
    analyze_url_heuristics "http://paypa1-secure.xyz/login/verify" = Ok inds /\
    NoDup (map name inds) /\ (length inds <= 10)%nat /\
    Forall (fun ind => detected ind = true /\ unit_interval (severity ind)) inds.
Proof.
  eexists. split; [vm_compute; reflexivity |].
  apply (url_indicators_well_formed "http://paypa1-secure.xyz/login/verify").
  vm_compute. reflexivity.
Defined.

(** X2. Every indicator [analyze_url_heuristics] reports is counted by
    exactly one of the domain and the structural sub-scores: its name is
    in one of the two name sets and not in the other, so the two filtered
    lists together have as many entries as the analysis returned. *)
Theorem url_indicator_in_one_category (url : string) (inds : list Indicator) :
  analyze_url_heuristics url = Ok inds ->
  Forall (fun ind =>
            (name ind ∈ domain_indicator_names /\ name ind ∉ structural_names) \/
            (name ind ∈ structural_names /\ name ind ∉ domain_indicator_names)) inds
  /\ (length (filter (fun ind => name ind ∈ domain_indicator_names ∧ detected ind = true) inds)
      + length (filter (fun ind => name ind ∈ structural_names ∧ detected ind = true) inds)
      = length inds)%nat.
Proof.
  intros H. pose proof (analyze_url_names url inds H) as Hn.
  pose proof (analyze_url_each url inds H) as He.
  assert (Hcat : Forall (fun n =>
            (n ∈ domain_indicator_names /\ n ∉ structural_names) \/
            (n ∈ structural_names /\ n ∉ domain_indicator_names)) (map name inds)).
  { apply Forall_forall. intros n Hin.
    apply (elem_of_sublist _ _ _ Hin) in Hn.
    repeat (apply elem_of_cons in Hn as [-> | Hn];
            [first [left; split; apply (bool_decide_unpack _); vm_compute; exact I
                   | right; split; apply (bool_decide_unpack _); vm_compute; exact I] |]).
    inversion Hn. }
  apply Forall_fmap in Hcat. split; [exact Hcat |].
  clear H Hn. induction inds as [| ind inds IH]; [reflexivity |].
  apply Forall_cons in Hcat as [Hc Hcat]. apply Forall_cons in He as [[Hd _] He].
  specialize (IH He Hcat). rewrite !filter_cons. simpl in Hc.
  destruct Hc as [[H1 H2] | [H1 H2]].
  - rewrite decide_True by tauto. rewrite (decide_False (P := _ ∧ _)) by tauto.
    simpl. lia.
  - rewrite decide_False by tauto. rewrite (decide_True (P := _ ∧ _)) by tauto.
    simpl. lia.
Qed.

Lemma url_indicator_in_one_category_witness :
  exists inds,
    analyze_url_heuristics "http://192.168.1.1/banking/login" = Ok inds /\
    (length (filter (fun ind => name ind ∈ domain_indicator_names ∧ detected ind = true) inds)
     + length (filter (fun ind => name ind ∈ structural_names ∧ detected ind = true) inds)
     = length inds)%nat.
Proof.
  eexists. split; [vm_compute; reflexivity |].
  apply (url_indicator_in_one_category "http://192.168.1.1/banking/login").
  vm_compute. reflexivity.
Defined.

End UrlIndicatorTheorems.

(** ** The path keywords *)

Section PathKeywords.

Lemma append_if_elem_of_names (n : string) (c : bool) (ind : Indicator) (l : list Indicator) :
  n ∈ map name (append_if c ind l) <-> n ∈ map name l \/ (c = true /\ n = name ind).
Proof.
  unfold append_if. destruct c.
  - rewrite map_app, elem_of_app. simpl. rewrite list_elem_of_singleton. intuition.
  - intuition discriminate.
Qed.

(** X3. The indicator Suspicious Path Keywords is never reported alone:
    when it is, the lower-cased path contains one of the eight keywords
    and Suspicious Top-Level Domain, Brand Impersonation or Missing HTTPS
    is reported as well. *)
Theorem path_keywords_need_another_signal (url : string) (parsed : Urllib.ParseResult)
    (inds : list Indicator) :
  Urllib.urlparse url = Ok parsed ->
  analyze_url_heuristics url = Ok inds ->
  "Suspicious Path Keywords" ∈ map name inds ->
  (exists kw, kw ∈ suspicious_paths /\
              Str.contains kw (Str.lower (Urllib.path parsed)) = true) /\
  (exists n, n ∈ ["Suspicious Top-Level Domain"; "Brand Impersonation"; "Missing HTTPS"] /\
             n ∈ map name inds).
Proof.
  intros Hp. unfold analyze_url_heuristics. rewrite Hp.
  cbn [mbind result_bind]. intros H. apply Ok_inj in H. subst inds. cbv zeta.
  match goal with |- context [existsb _ ?L] => set (L8 := L) end.
  intros Hin. rewrite !append_if_elem_of_names in Hin.
  destruct Hin as [[Hin | [Hc _]] | [_ Hn]]; [exfalso | | discriminate Hn].
  - subst L8. destruct (first_impersonation _ _) as [[b v] |];
      rewrite ?map_app, ?elem_of_app, ?append_if_elem_of_names in Hin;
      cbn [map name] in Hin; rewrite ?list_elem_of_singleton, ?elem_of_nil in Hin;
      repeat match type of Hin with
             | _ \/ _ => destruct Hin as [Hin | Hin]
             | _ /\ _ => destruct Hin as [_ Hin]
             end; (contradiction || discriminate Hin).
  - apply andb_true_iff in Hc as [Hk He]. split.
    + apply negb_true_iff, bool_decide_eq_false in Hk.
      destruct (filter _ suspicious_paths) as [| kw rest] eqn:Hf; [congruence |].
      assert (Hkw : kw ∈ filter (fun kw => Str.contains kw (Str.lower (Urllib.path parsed)) = true)
                           suspicious_paths) by (rewrite Hf; left).
      apply list_elem_of_filter in Hkw. exists kw. tauto.
    + apply existsb_exists in He as (ind & Hi & Hd).
      apply bool_decide_eq_true in Hd. exists (name ind). split; [exact Hd |].
      rewrite !append_if_elem_of_names. left. left.
      apply list_elem_of_fmap. exists ind. split; [reflexivity |].
      apply list_elem_of_In. exact Hi.
Qed.

Lemma path_keywords_need_another_signal_witness :
  exists parsed inds,
    Urllib.urlparse "http://192.168.1.1/banking/login" = Ok parsed /\
    analyze_url_heuristics "http://192.168.1.1/banking/login" = Ok inds /\
    (exists kw, kw ∈ suspicious_paths /\
                Str.contains kw (Str.lower (Urllib.path parsed)) = true) /\
    (exists n, n ∈ ["Suspicious Top-Level Domain"; "Brand Impersonation"; "Missing HTTPS"] /\
               n ∈ map name inds).
Proof.
  eexists. eexists. split; [vm_compute; reflexivity |]. split; [vm_compute; reflexivity |].
  eapply (path_keywords_need_another_signal "http://192.168.1.1/banking/login");
    [vm_compute; reflexivity | vm_compute; reflexivity |].
  apply (bool_decide_unpack _). vm_compute. exact I.
Defined.

End PathKeywords.

(** ** The URL scan returns *)

Section UrlScan.



Lemma analyze_url_raises (url : string) (e : exn) :
  Urllib.urlparse url = Raise e -> analyze_url_heuristics url = Raise e.
Proof. intros Hp. unfold analyze_url_heuristics. rewrite Hp. reflexivity. Qed.

Context (Intel : Type) (apis : string -> list ApiResult) (gather : string -> result Intel).


End UrlScan.


(** ** The education cards of a URL scan *)

Section UrlEducation.

Lemma sublist_omap {A B} (f : A -> option B) (l k : list A) :
  l `sublist_of` k -> omap f l `sublist_of` omap f k.
Proof.
  induction 1 as [| x l k _ IH | x l k _ IH]; simpl.
  - constructor.
  - destruct (f x); [constructor |]; exact IH.
  - destruct (f x); [constructor |]; exact IH.
Qed.

Lemma classify_label_cases (score : Z) :
  _classify_label score = "safe" \/ _classify_label score = "suspicious"
  \/ _classify_label score = "dangerous".
Proof.
  unfold _classify_label.
  destruct (score <=? Config.SAFE_THRESHOLD); [auto |].
  destruct (score <=? Config.SUSPICIOUS_THRESHOLD); auto.
Qed.

Lemma compute_overall_score_label (d s l a : Z) (avail : bool) (o : Z) (lbl : string) :
  compute_overall_score d s l a avail = Ok (o, lbl) -> lbl = _classify_label o.
Proof.
  rewrite compute_overall_score_unfold.
  destruct (round_clamp _) as [r | e]; simpl; [| discriminate].
  intros [= <- <-]. reflexivity.
Qed.

Context (Intel : Type) (apis : string -> list ApiResult) (gather : string -> result Intel).

(** X5. The education cards of a URL scan are pairwise distinct, and the
    last one is the closing tip: the verification tip when the label is
    safe, the reporting tip otherwise. *)
Theorem url_scan_education_distinct (request : UrlScanRequest) (res : UrlScanResult Intel) :
  scan_url Intel apis gather request = Ok res ->
  NoDup (education Intel res) /\
  last (education Intel res)
  = Some (if String.eqb (label_ Intel res) "safe" then verify_tip else report_tip).
Proof.
  intros H. unfold scan_url in H. invert_binds H. apply Ok_inj in H. subst res.
  cbn [education label_].
  match goal with
  | Hs : compute_overall_score _ _ _ _ _ = Ok _ |- _ =>
      apply compute_overall_score_label in Hs; rename Hs into Hl
  end.
  match goal with
  | Ha : analyze_url_heuristics _ = Ok ?inds |- _ =>
      pose proof (analyze_url_names _ _ Ha) as Hn; clear Ha
  end.
  rewrite generate_education_spec.
  match goal with
  | |- context [omap _ (map name (filter ?P ?inds))] =>
      assert (Hsub : omap (fun name => education_map !! name) (map name (filter P inds))
                     `sublist_of`
                     omap (fun name => education_map !! name)
                       [ "Excessive URL Length"; "IP Address Instead of Domain"; "Missing HTTPS";
                         "Suspicious Top-Level Domain"; "URL Shortener Detected";
                         "Excessive Subdomains"; "@ Symbol in URL"; "Brand Impersonation";
                         "Suspicious Path Keywords"; "URL Encoding / Obfuscation" ])
        by (apply sublist_omap; etransitivity; [| exact Hn];
            apply (fmap_sublist name), sublist_filter);
      generalize dependent (omap (fun name => education_map !! name) (map name (filter P inds)))
  end.
  intros cards Hsub.
  assert (Htip : forall tip, tip ∈ [verify_tip; report_tip] ->
                   NoDup (cards ++ [tip]) /\ last (cards ++ [tip]) = Some tip).
  { intros tip Htip. split; [| apply last_snoc].
    refine (sublist_NoDup _ _ _ (sublist_app _ _ _ _ Hsub (reflexivity [tip]))).
    apply NoDup_ListNoDup.
    apply elem_of_cons in Htip as [-> | Htip];
      [| apply list_elem_of_singleton in Htip; subst tip];
      vm_compute; repeat (constructor; [cbv [In]; intuition discriminate |]); constructor. }
  subst.
  match goal with
  | |- context [_classify_label ?o] =>
      generalize (classify_label_cases o); generalize (_classify_label o)
  end.
  intros lbl Hc.
  assert (Heq : (if String.eqb lbl "safe" then [verify_tip]
                 else if bool_decide (lbl ∈ ["suspicious"; "dangerous"]) then [report_tip]
                 else [])
                = [if String.eqb lbl "safe" then verify_tip else report_tip])
    by (destruct Hc as [-> | [-> | ->]]; reflexivity).
  rewrite Heq. apply Htip.
  destruct (String.eqb lbl "safe"); [left | right; left].
Qed.

End UrlEducation.

Lemma url_scan_education_distinct_witness :
  exists res,
    scan_url unit (fun _ => []) (fun _ => Ok tt)
             (mkUrlScanRequest "http://paypa1-secure.xyz/login/verify") = Ok res /\
    NoDup (education unit res) /\
    last (education unit res)
    = Some (if String.eqb (label_ unit res) "safe" then verify_tip else report_tip).
Proof.
  eexists. split; [vm_compute; reflexivity |].
  apply (url_scan_education_distinct unit (fun _ => []) (fun _ => Ok tt)
           (mkUrlScanRequest "http://paypa1-secure.xyz/login/verify")).
  vm_compute. reflexivity.
Defined.

(** ** The indicators of an e-mail *)

Section EmailIndicators.

(** The names come in the order of the six checks, each at most once. *)
Lemma analyze_email_names (content : string) :
  map name (fst (analyze_email_heuristics content)) `sublist_of`
    [ "Urgency Language Detected"; "Multiple URLs in Message"; "Suspicious Link Context";
      "Request for Sensitive Information"; "Generic Greeting"; "Threatening Language" ].
Proof.
  unfold analyze_email_heuristics. cbv zeta. cbn [fst].
  change [ "Urgency Language Detected"; "Multiple URLs in Message"; "Suspicious Link Context";
      "Request for Sensitive Information"; "Generic Greeting"; "Threatening Language" ]
    with ((((((([] : list string) ++ ["Urgency Language Detected"])
         ++ ["Multiple URLs in Message"]) ++ ["Suspicious Link Context"])
         ++ ["Request for Sensitive Information"]) ++ ["Generic Greeting"])
         ++ ["Threatening Language"]).
  match goal with
  | |- map name (match ?o with [] => _ | _ :: _ => _ end) `sublist_of` _ =>
      destruct o as [| first rest]
  end.
  1: apply sublist_inserts_r.
  2: rewrite map_app; apply sublist_app; [| reflexivity].
  all: apply (append_if_names _ (mkIndicator "Generic Greeting" _ _ _)).
  all: apply (append_if_names _ (mkIndicator "Request for Sensitive Information" _ _ _)).
  all: apply (append_if_names _ (mkIndicator "Suspicious Link Context" _ _ _)).
  all: apply (append_if_names _ (mkIndicator "Multiple URLs in Message" _ _ _)).
  all: apply (append_if_names _ (mkIndicator "Urgency Language Detected" _ _ _)).
  all: constructor.
Qed.

Lemma analyze_email_each (content : string) :
  Forall (fun ind => detected ind = true /\ unit_interval (severity ind))
         (fst (analyze_email_heuristics content)).
Proof.
  unfold analyze_email_heuristics. cbv zeta. cbn [fst].
  repeat first
    [ apply append_if_Forall
    | match goal with
      | |- Forall _ (match ?o with [] => _ | _ :: _ => _ end) =>
          destruct o as [| first rest]; [| apply Forall_app; split]
      end
    | match goal with |- Forall _ [] => apply Forall_nil_2 end
    | match goal with |- Forall _ [_] => apply Forall_singleton end ];
    cbn [detected severity]; intros; (split; [reflexivity |]);
    lazymatch goal with
    | |- unit_interval (py_min _ (mul _ _)) =>
        apply scaled_count_unit; [lia | reflexivity | reflexivity]
    | |- unit_interval _ => repeat split; reflexivity
    end.
Qed.

(** X4 (indicator part). *)
(** X6. For every content, [analyze_email_heuristics] reports at most six
    indicators, no two of them under the same name, each one detected
    and with a severity between 0 and 1. *)
Theorem email_indicators_well_formed (content : string) :
  NoDup (map name (fst (analyze_email_heuristics content))) /\
  (length (fst (analyze_email_heuristics content)) <= 6)%nat /\
  Forall (fun ind => detected ind = true /\ unit_interval (severity ind))
         (fst (analyze_email_heuristics content)).
Proof.
  pose proof (analyze_email_names content) as Hn.
  split; [| split].
  - refine (sublist_NoDup _ _ _ Hn). apply NoDup_ListNoDup.
    repeat (constructor; [cbv [In]; intuition discriminate |]). constructor.
  - apply sublist_length in Hn. rewrite length_map in Hn. exact Hn.
  - apply analyze_email_each.
Qed.

End EmailIndicators.

(** ** An e-mail without links *)

Section TextOnlyEmail.

(** With nothing but a language score, and no feed, the overall score is
    a quarter of it. *)
Lemma language_only_overall (l : Z) :
  0 <= l <= 100 ->
  exists o, compute_overall_score 0 0 l 0 false = Ok (o, "safe") /\ 0 <= o <= 25.
Proof.
  intros Hl. rewrite compute_overall_score_unfold.
  assert (Hall : forallb (fun l => match round_clamp (Spec.overall_final 0 0 l 0 false) with
                                   | Ok o => (0 <=? o) && (o <=? 25)
                                   | Raise _ => false
                                   end) (seqZ 0 101) = true) by (vm_compute; reflexivity).
  rewrite forallb_forall in Hall.
  specialize (Hall l). rewrite <- list_elem_of_In, elem_of_seqZ in Hall.
  specialize (Hall ltac:(lia)).
  destruct (round_clamp _) as [o | e]; [| discriminate].
  apply andb_true_iff in Hall as [H1 H2]. apply Z.leb_le in H1, H2.
  exists o. cbn [mbind result_bind]. split; [| lia].
  unfold _classify_label, Config.SAFE_THRESHOLD.
  destruct (Z.leb_spec o 30); [reflexivity | lia].
Qed.

Context (apis : string -> list ApiResult).

(** X7. An e-mail in which no link is found is always labelled safe:
    [scan_email] returns, the overall score is at most 25, the domain,
    structural and reputation sub-scores are 0, and neither a feed status
    nor a URL is reported. *)
Theorem email_without_links_is_safe (request : EmailScanRequest) :
  snd (analyze_email_heuristics (content request)) = [] ->
  exists res,
    scan_email apis request = Ok res /\
    e_label res = "safe" /\
    0 <= e_overall_score res <= 25 /\
    domain (e_sub_scores res) = 0 /\
    structural (e_sub_scores res) = 0 /\
    api_reputation (e_sub_scores res) = 0 /\
    e_api_status res = ∅ /\
    e_extracted_urls res = [].
Proof.
  intros Hu. unfold scan_email.
  pose proof (analyze_email_each (content request)) as Hall.
  pose proof (sublist_length _ _ (analyze_email_names (content request))) as Hn.
  rewrite length_map in Hn.
  destruct (analyze_email_heuristics (content request)) as [einds urls].
  cbn [fst snd length] in *. subst urls.
  assert (Hsev : Forall (fun ind => unit_interval (severity ind)) einds).
  { eapply Forall_impl; [exact Hall |]. intros ind [_ H]. exact H. }
  destruct (compute_language_score_total einds ltac:(lia) Hsev) as (l & Hl & Hlr).
  destruct (language_only_overall l Hlr) as (o & Ho & Hor).
  cbn [take scan_extracted mbind result_bind]. rewrite Hl. cbn [mbind result_bind].
  rewrite Ho. cbn [mbind result_bind].
  eexists. split; [reflexivity |]. cbn. repeat split; lia.
Qed.

End TextOnlyEmail.

Lemma email_without_links_is_safe_witness :
  exists res,
    scan_email (fun _ => [])
      (mkEmailScanRequest
         "URGENT: your account will be suspended, verify your password immediately") = Ok res /\
    e_label res = "safe" /\
    0 <= e_overall_score res <= 25 /\
    domain (e_sub_scores res) = 0 /\
    structural (e_sub_scores res) = 0 /\
    api_reputation (e_sub_scores res) = 0 /\
    e_api_status res = ∅ /\
    e_extracted_urls res = [].
Proof.
  apply (email_without_links_is_safe (fun _ => [])
           (mkEmailScanRequest
              "URGENT: your account will be suspended, verify your password immediately")).
  vm_compute. reflexivity.
Defined.

(** ** The weights, and a scan without feeds *)

Section Weights.

Lemma pairs_check (P : Z -> Z -> bool) (n : Z) :
  forallb (fun a => forallb (P a) (seqZ 0 n)) (seqZ 0 n) = true ->
  forall a b, 0 <= a < n -> 0 <= b < n -> P a b = true.
Proof.
  intros H a b Ha Hb. rewrite forallb_forall in H.
  specialize (H a). rewrite <- list_elem_of_In, elem_of_seqZ in H.
  specialize (H ltac:(lia)). rewrite forallb_forall in H.
  specialize (H b). rewrite <- list_elem_of_In, elem_of_seqZ in H.
  apply H. lia.
Qed.

(** X8. When all the sub-scores that carry weight have the same value [x]
    between 0 and 100, the overall score is [x]: four equal sub-scores
    with the feeds available, three equal sub-scores without them,
    whatever the api score is. The binary64 weighted sum rounds back to
    [x] in each case. *)
Theorem equal_sub_scores_give_that_score (x a : Z) :
  0 <= x <= 100 -> 0 <= a <= 100 ->
  compute_overall_score x x x x true = Ok (x, _classify_label x) /\
  compute_overall_score x x x a false = Ok (x, _classify_label x).
Proof.
  intros Hx Ha. rewrite !compute_overall_score_unfold.
  pose proof (pairs_check
    (fun x a => match round_clamp (Spec.overall_final x x x x true),
                      round_clamp (Spec.overall_final x x x a false) with
                | Ok o1, Ok o2 => (o1 =? x) && (o2 =? x)
                | _, _ => false
                end) 101 ltac:(vm_compute; reflexivity) x a ltac:(lia) ltac:(lia)) as H.
  cbv beta in H.
  destruct (round_clamp (Spec.overall_final x x x x true)) as [o1 |]; [| discriminate].
  destruct (round_clamp (Spec.overall_final x x x a false)) as [o2 |]; [| discriminate].
  apply andb_true_iff in H as [H1 H2]. apply Z.eqb_eq in H1, H2. subst o1 o2.
  split; reflexivity.
Qed.

Lemma equal_sub_scores_give_that_score_witness :
  compute_overall_score 61 61 61 61 true = Ok (61, _classify_label 61) /\
  compute_overall_score 61 61 61 7 false = Ok (61, _classify_label 61).
Proof. apply (equal_sub_scores_give_that_score 61 7); lia. Defined.

Lemma no_feed_overall_cap (d s : Z) (o : Z) (lbl : string) :
  0 <= d <= 100 -> 0 <= s <= 100 ->
  compute_overall_score d s 0 0 false = Ok (o, lbl) -> o <= 75.
Proof.
  intros Hd Hs. rewrite compute_overall_score_unfold.
  pose proof (pairs_check
    (fun d s => match round_clamp (Spec.overall_final d s 0 0 false) with
                | Ok o => o <=? 75
                | _ => false
                end) 101 ltac:(vm_compute; reflexivity) d s ltac:(lia) ltac:(lia)) as H.
  cbv beta in H.
  destruct (round_clamp _) as [o1 |]; [| discriminate].
  cbn [mbind result_bind]. intros [= <- _]. apply Z.leb_le. exact H.
Qed.

Lemma round_clamp_range (x : float) (r : Z) : round_clamp x = Ok r -> 0 <= r <= 100.
Proof.
  unfold round_clamp. destruct (py_round x); simpl; [| discriminate].
  intros [= <-]. apply clamp_range.
Qed.

Lemma compute_domain_score_range (inds : list Indicator) (ml : option MlResult) (r : Z) :
  compute_domain_score inds ml = Ok r -> 0 <= r <= 100.
Proof.
  rewrite compute_domain_score_spec.
  destruct (Spec.domain_final inds ml); simpl; [apply round_clamp_range | discriminate].
Qed.

Lemma compute_structural_score_range (inds : list Indicator) (r : Z) :
  compute_structural_score inds = Ok r -> 0 <= r <= 100.
Proof.
  rewrite compute_structural_score_spec.
  destruct (Spec.structural_final inds); simpl; [apply round_clamp_range | discriminate].
Qed.

Lemma no_feed_available (feeds : list ApiResult) :
  Forall (fun r => is_available r = false) feeds -> Spec.available_feeds feeds = [].
Proof.
  unfold Spec.available_feeds. induction 1 as [| r l Hr _ IH]; [reflexivity |].
  rewrite filter_cons, decide_False by congruence. exact IH.
Qed.

Context (Intel : Type) (apis : string -> list ApiResult) (gather : string -> result Intel).

(** X9. When no reputation feed is available, a URL scan reports the api
    sub-score 0 and an overall score of at most 75, whatever the
    heuristics found. *)
Theorem url_scan_without_feeds_is_capped (request : UrlScanRequest)
    (res : UrlScanResult Intel) :
  Forall (fun r => is_available r = false) (apis (url request)) ->
  scan_url Intel apis gather request = Ok res ->
  overall_score Intel res <= 75 /\ api_reputation (sub_scores Intel res) = 0.
Proof.
  intros Hf H. unfold scan_url in H.
  rewrite (no_available_feed (apis (url request)) (no_feed_available _ Hf)) in H.
  invert_binds H. apply Ok_inj in H. subst res. cbn.
  match goal with
  | Ha : Ok (0, false) = Ok (_, _) |- _ => injection Ha as <- <-
  end.
  match goal with
  | Hd : compute_domain_score _ _ = Ok _, Hs : compute_structural_score _ = Ok _,
    Ho : compute_overall_score _ _ _ _ _ = Ok _ |- _ =>
      apply compute_domain_score_range in Hd; apply compute_structural_score_range in Hs;
      apply no_feed_overall_cap in Ho; [auto | lia | lia]
  end.
Qed.

End Weights.

Lemma url_scan_without_feeds_is_capped_witness :
  exists res,
    scan_url unit
      (fun _ => [mkApiResult "google_safe_browsing" false zero (Some true)
                   (Some "API key not configured")])
      (fun _ => Ok tt)
      (mkUrlScanRequest "http://paypa1-secure.xyz/login/verify") = Ok res /\
    overall_score unit res <= 75 /\ api_reputation (sub_scores unit res) = 0.
Proof.
  eexists. split; [vm_compute; reflexivity |].
  apply (url_scan_without_feeds_is_capped unit
           (fun _ => [mkApiResult "google_safe_browsing" false zero (Some true)
                        (Some "API key not configured")])
           (fun _ => Ok tt) (mkUrlScanRequest "http://paypa1-secure.xyz/login/verify")).
  - repeat constructor.
  - vm_compute. reflexivity.
Defined.

(** ** The summary of a bulk scan *)

Section BulkSummary.
Context (Intel : Type) (apis : string -> list ApiResult)
        (gather : string -> result Intel) (verr : string -> string).

(** The mean of at most ten scores, as the float division and [round]
    compute it, is the exact mean rounded to the nearest integer, ties to
    the even one. *)
Lemma mean_is_exact (s n : Z) :
  1 <= n <= 10 -> 0 <= s <= 1000 ->
  exists avg,
    py_round (div (of_int s) (of_int n)) = Ok avg /\
    Z.abs (2 * s - 2 * n * avg) <= n /\
    (Z.abs (2 * s - 2 * n * avg) = n -> Z.even avg = true).
Proof.
  intros Hn Hs.
  assert (Hall : forallb (fun n => forallb (fun s =>
            match py_round (div (of_int s) (of_int n)) with
            | Ok avg => (Z.abs (2 * s - 2 * n * avg) <=? n)
                        && (negb (Z.abs (2 * s - 2 * n * avg) =? n) || Z.even avg)
            | Raise _ => false
            end) (seqZ 0 1001)) (seqZ 1 10) = true) by (vm_compute; reflexivity).
  rewrite forallb_forall in Hall. specialize (Hall n).
  rewrite <- list_elem_of_In, elem_of_seqZ in Hall. specialize (Hall ltac:(lia)).
  rewrite forallb_forall in Hall. specialize (Hall s).
  rewrite <- list_elem_of_In, elem_of_seqZ in Hall. specialize (Hall ltac:(lia)).
  destruct (py_round _) as [avg | e]; [| discriminate].
  apply andb_true_iff in Hall as [H1 H2]. apply Z.leb_le in H1.
  exists avg. split; [reflexivity |]. split; [exact H1 |].
  intros Heq. apply Z.eqb_eq in Heq. rewrite Heq in H2. exact H2.
Qed.

Lemma scan_url_label (req : UrlScanRequest) (r : UrlScanResult Intel) :
  scan_url Intel apis gather req = Ok r ->
  label_ Intel r ∈ ["safe"; "suspicious"; "dangerous"].
Proof.
  intros H. unfold scan_url in H. invert_binds H. apply Ok_inj in H. subst r.
  cbn [label_].
  match goal with
  | Ho : compute_overall_score _ _ _ _ _ = Ok (?o, _) |- _ =>
      apply compute_overall_score_label in Ho; subst;
      destruct (classify_label_cases o) as [-> | [-> | ->]]
  end; set_solver.
Qed.

Lemma scored_labels (urls : list string) :
  Forall (fun r => label_ Intel r ∈ ["safe"; "suspicious"; "dangerous"])
         (scored Intel (map (item_of Intel apis gather verr) urls)).
Proof.
  induction urls as [| url urls IH]; [constructor |].
  simpl. unfold Bulk.item_of at 1, Bulk.attempt.
  destruct (new_UrlScanRequest verr url) as [req | e]; simpl; [| exact IH].
  destruct (scan_url Intel apis gather req) as [r | e] eqn:Hs; simpl; [| exact IH].
  constructor; [now apply (scan_url_label req) | exact IH].
Qed.

Lemma labelled_partition (rs : list (UrlScanResult Intel)) :
  Forall (fun r => label_ Intel r ∈ ["safe"; "suspicious"; "dangerous"]) rs ->
  labelled Intel "safe" rs + labelled Intel "suspicious" rs + labelled Intel "dangerous" rs
  = Z.of_nat (length rs).
Proof.
  unfold labelled. induction 1 as [| r rs Hr _ IH]; [reflexivity |].
  rewrite !filter_cons. cbn [length].
  repeat (apply elem_of_cons in Hr as [Hr | Hr]); [| | | inversion Hr];
    rewrite Hr; repeat case_decide; try discriminate; try congruence;
    cbn [length]; lia.
Qed.

Lemma int_sum_bounds (xs : list Z) (lo hi : Z) :
  Forall (fun x => lo <= x <= hi) xs ->
  Z.of_nat (length xs) * lo <= int_sum xs <= Z.of_nat (length xs) * hi.
Proof.
  unfold int_sum. intros H.
  assert (G : forall acc, acc + Z.of_nat (length xs) * lo <= fold_left Z.add xs acc
                          <= acc + Z.of_nat (length xs) * hi).
  { induction H as [| x xs Hx _ IH]; intros acc; simpl fold_left; [simpl; lia |].
    specialize (IH (acc + x)). simpl length. lia. }
  specialize (G 0). lia.
Qed.

(** The response to a validated batch, written out. *)
Lemma post_bulk_response (raw : list string) (resp : Response Intel) :
  post_bulk Intel apis gather verr raw = Ok resp ->
  exists cleaned avg,
    validate_urls raw = Ok cleaned /\
    let results := map (item_of Intel apis gather verr) cleaned in
    let ok := scored Intel results in
    let scores := map (overall_score Intel) ok in
    resp = mkResponse Intel
             (mkSummary (Z.of_nat (length cleaned)) (Z.of_nat (length ok))
                (Z.of_nat (length cleaned) - Z.of_nat (length ok))
                avg (int_max_default scores)
                (mkDistribution (labelled Intel "safe" ok) (labelled Intel "suspicious" ok)
                   (labelled Intel "dangerous" ok)))
             results /\
    (ok = [] -> avg = 0) /\
    (ok <> [] ->
     py_round (div (of_int (int_sum scores)) (of_int (Z.of_nat (length ok)))) = Ok avg).
Proof.
  unfold post_bulk, new_BulkScanRequest.
  destruct (validate_urls raw) as [cleaned | e] eqn:Hval; [| discriminate].
  cbn [mbind result_bind try_except]. unfold scan_bulk. cbn [urls].
  rewrite scan_all_map. cbn [mbind result_bind app].
  set (results := map (item_of Intel apis gather verr) cleaned).
  destruct (valid_results_scored Intel results) as [Hscores Hcount].
  rewrite Hscores, Hcount, !count_label_scored by discriminate.
  assert (Hlr : length results = length cleaned) by (unfold results; apply length_map).
  rewrite Hlr.
  destruct (filter _ results) as [| v0 vs] eqn:Hv.
  - cbn [mbind result_bind]. intros H. apply Ok_inj in H. subst resp.
    exists cleaned, 0. split; [reflexivity |]. cbv zeta. subst results.
    destruct (scored Intel _); [| discriminate Hcount].
    repeat split; congruence.
  - assert (Hsne : scored Intel results <> []).
    { intros Hnil. rewrite Hnil in Hcount. discriminate Hcount. }
    unfold int_truediv.
    replace (Z.of_nat (length (scored Intel results)) =? 0) with false
      by (symmetry; apply Z.eqb_neq; destruct (scored Intel results);
          [congruence | simpl length; lia]).
    cbn [mbind result_bind].
    destruct (py_round _) as [avg | e] eqn:Havg; [| discriminate].
    cbn [mbind result_bind]. intros H. apply Ok_inj in H. subst resp.
    exists cleaned, avg. split; [reflexivity |]. cbv zeta. subst results.
    repeat split; [congruence | intros _; exact Havg].
Qed.

(** X10. In every bulk response, [total] is the number of result entries,
    between 1 and 10, and equals [scanned] plus [errors]; the counts of
    the three labels add up to [scanned]. *)
Theorem bulk_summary_counts_add_up (raw : list string) (resp : Response Intel) :
  post_bulk Intel apis gather verr raw = Ok resp ->
  let s := summary Intel resp in
  total s = Z.of_nat (length (results Intel resp)) /\
  1 <= total s <= 10 /\
  0 <= scanned s /\ 0 <= errors s /\
  total s = scanned s + errors s /\
  safe (distribution s) + suspicious (distribution s) + dangerous (distribution s)
  = scanned s.
Proof.
  intros H. destruct (post_bulk_response raw resp H) as (cleaned & avg & Hval & Hresp & _).
  cbv zeta in Hresp. subst resp.
  cbn [summary results total scanned errors distribution safe suspicious dangerous].
  destruct (validate_urls_cleaned raw cleaned Hval) as [Hne Hlen].
  pose proof (scored_length Intel (map (item_of Intel apis gather verr) cleaned)) as Hok.
  rewrite length_map in Hok |- *.
  rewrite labelled_partition by apply scored_labels.
  destruct cleaned; [congruence |]. simpl length in *. lia.
Qed.

(** X11. The [avg_score] of a bulk response is the exact mean of the scored
    entries' overall scores, rounded to the nearest integer with ties to
    the even one: the float division and [round] lose nothing. It lies
    between the smallest score and [highest_risk], which is one of the
    scores; both are 0 when no entry was scored. *)
Theorem bulk_average_is_exact_mean (raw : list string) (resp : Response Intel) :
  post_bulk Intel apis gather verr raw = Ok resp ->
  let scores := map (overall_score Intel) (scored Intel (results Intel resp)) in
  let n := Z.of_nat (length scores) in
  let s := summary Intel resp in
  (scores = [] -> avg_score s = 0 /\ highest_risk s = 0) /\
  (scores <> [] ->
     Z.abs (2 * int_sum scores - 2 * n * avg_score s) <= n /\
     (Z.abs (2 * int_sum scores - 2 * n * avg_score s) = n -> Z.even (avg_score s) = true) /\
     (forall lo, Forall (fun x => lo <= x) scores -> lo <= avg_score s) /\
     avg_score s <= highest_risk s /\
     highest_risk s ∈ scores) /\
  0 <= avg_score s <= 100 /\ 0 <= highest_risk s <= 100.
Proof.
  intros H.
  destruct (post_bulk_response raw resp H) as (cleaned & avg & Hval & Hresp & Hz & Hm).
  cbv zeta in Hresp, Hz, Hm. subst resp.
  cbn [summary results avg_score highest_risk]. cbv zeta.
  destruct (validate_urls_cleaned raw cleaned Hval) as [Hne Hlen].
  pose proof (scored_length Intel (map (item_of Intel apis gather verr) cleaned)) as Hok.
  rewrite length_map in Hok.
  pose proof (scored_range Intel apis gather verr cleaned) as Hrange.
  set (ok := scored Intel (map (item_of Intel apis gather verr) cleaned)) in *.
  set (scores := map (overall_score Intel) ok).
  assert (Hsr : Forall (fun x => 0 <= x <= 100) scores) by (apply Forall_map; exact Hrange).
  assert (Hlen_s : length scores = length ok) by apply length_map.
  rewrite Hlen_s.
  destruct ok as [| r0 ok'] eqn:Hok_eq.
  - specialize (Hz eq_refl). subst avg. cbn.
    repeat split; try lia; try congruence.
  - assert (Hsne : scores <> []) by (unfold scores; discriminate).
    specialize (Hm ltac:(discriminate)).
    pose proof (int_sum_range scores Hsr) as Hsum. rewrite Hlen_s in Hsum.
    destruct (int_max_default_spec scores Hsne) as [Hin Hmax].
    set (n := Z.of_nat (length (r0 :: ok'))) in *.
    assert (Hn : 1 <= n <= 10) by (unfold n; simpl length in *; lia).
    destruct (mean_is_exact (int_sum scores) n Hn ltac:(lia)) as (avg' & Hr & Habs & Heven).
    fold scores in Hm. rewrite Hr in Hm. injection Hm as <-.
    assert (Hsum_hi : int_sum scores <= n * int_max_default scores).
    { unfold n. rewrite <- Hlen_s.
      apply (int_sum_bounds scores 0 (int_max_default scores)).
      rewrite Forall_forall in Hsr, Hmax |- *. intros x Hx.
      specialize (Hsr x Hx). specialize (Hmax x Hx). lia. }
    assert (Hlow : forall lo, Forall (fun x => lo <= x) scores -> n * lo <= int_sum scores).
    { intros lo Hlo. unfold n. rewrite <- Hlen_s.
      apply (int_sum_bounds scores lo 100).
      rewrite Forall_forall in Hsr, Hlo |- *. intros x Hx.
      specialize (Hsr x Hx). specialize (Hlo x Hx). lia. }
    assert (Hmax_r : 0 <= int_max_default scores <= 100).
    { rewrite Forall_forall in Hsr. apply Hsr. exact Hin. }
    assert (Hub : avg' <= int_max_default scores) by nia.
    assert (Hlb : forall lo, Forall (fun x => lo <= x) scores -> lo <= avg').
    { intros lo Hlo. specialize (Hlow lo Hlo). nia. }
    assert (H0 : 0 <= avg').
    { apply Hlb. eapply Forall_impl; [exact Hsr |]. simpl. lia. }
    split; [congruence |]. split; [| lia].
    intros _. repeat split; auto.
Qed.

End BulkSummary.

Lemma bulk_summary_counts_add_up_witness :
  exists resp,
    post_bulk unit (fun _ => []) (fun _ => Ok tt) (fun msg => msg)
      ["http://192.168.1.1/banking/login"; "   "; "http://[::1/x"; "https://www.google.com "]
    = Ok resp /\
    total (summary unit resp) = 3 /\
    scanned (summary unit resp) = 2 /\
    total (summary unit resp) = scanned (summary unit resp) + errors (summary unit resp).
Proof.
  eexists. split; [vm_compute; reflexivity |].
  split; [vm_compute; reflexivity |]. split; [vm_compute; reflexivity |].
  apply (bulk_summary_counts_add_up unit (fun _ => []) (fun _ => Ok tt) (fun msg => msg)
           ["http://192.168.1.1/banking/login"; "   "; "http://[::1/x";
            "https://www.google.com "]).
  vm_compute. reflexivity.
Defined.

Lemma bulk_average_is_exact_mean_witness :
  exists resp,
    post_bulk unit (fun _ => []) (fun _ => Ok tt) (fun msg => msg)
      ["http://192.168.1.1/banking/login"; "   "; "http://[::1/x"; "https://www.google.com "]
    = Ok resp /\
    map (overall_score unit) (scored unit (results unit resp)) = [43; 0] /\
    avg_score (summary unit resp) = 22 /\
    0 <= avg_score (summary unit resp) <= 100.
Proof.
  eexists. split; [vm_compute; reflexivity |].
  split; [vm_compute; reflexivity |]. split; [vm_compute; reflexivity |].
  apply (bulk_average_is_exact_mean unit (fun _ => []) (fun _ => Ok tt) (fun msg => msg)
           ["http://192.168.1.1/banking/login"; "   "; "http://[::1/x";
            "https://www.google.com "]).
  vm_compute. reflexivity.
Defined.

(** ** The cleaned list of a bulk request *)

Section Strip.

Lemma rstrip_with_cons (f : ascii -> bool) (c : ascii) (s : string) :
  Str.rstrip_with f (String c s)
  = match Str.rstrip_with f s with
    | EmptyString => if f c then EmptyString else String c EmptyString
    | kept => String c kept
    end.
Proof. reflexivity. Qed.

Lemma rstrip_with_idem (f : ascii -> bool) (s : string) :
  Str.rstrip_with f (Str.rstrip_with f s) = Str.rstrip_with f s.
Proof.
  induction s as [| c s IH]; [reflexivity |].
  rewrite rstrip_with_cons.
  destruct (Str.rstrip_with f s) as [| d kept] eqn:Hk.
  - destruct (f c) eqn:Hc; [reflexivity |]. rewrite rstrip_with_cons. simpl. now rewrite Hc.
  - rewrite rstrip_with_cons, IH. reflexivity.
Qed.

Lemma rstrip_with_head (f : ascii -> bool) (c : ascii) (s : string) :
  f c = false -> exists k, Str.rstrip_with f (String c s) = String c k.
Proof.
  intros Hc. rewrite rstrip_with_cons.
  destruct (Str.rstrip_with f s); [rewrite Hc |]; eauto.
Qed.

Lemma lstrip_with_head (f : ascii -> bool) (s : string) :
  Str.lstrip_with f s = EmptyString \/
  exists c k, Str.lstrip_with f s = String c k /\ f c = false.
Proof.
  induction s as [| c s IH]; [now left |].
  cbn [Str.lstrip_with]. destruct (f c) eqn:Hc; [exact IH |]. right. eauto.
Qed.

Lemma strip_head (s : string) :
  Str.strip s = EmptyString \/
  exists c k, Str.strip s = String c k /\ Str.isspace c = false.
Proof.
  unfold Str.strip.
  destruct (lstrip_with_head Str.isspace s) as [-> | (c & k & -> & Hc)]; [now left |].
  destruct (rstrip_with_head Str.isspace c k Hc) as [k' ->]. right. eauto.
Qed.

(** [s.strip().strip() == s.strip()] *)
Lemma strip_idem (s : string) : Str.strip (Str.strip s) = Str.strip s.
Proof.
  destruct (strip_head s) as [-> | (c & k & Hs & Hc)]; [reflexivity |].
  unfold Str.strip at 1. rewrite Hs. cbn [Str.lstrip_with]. rewrite Hc.
  rewrite <- Hs. unfold Str.strip. apply rstrip_with_idem.
Qed.

End Strip.

Section ValidateUrls.

Lemma cleaned_loop (v acc : list string) :
  fold_left (fun cleaned url =>
               let url := Str.strip url in
               if Str.is_empty url then cleaned else cleaned ++ [url]) v acc
  = acc ++ filter (fun u => u <> EmptyString) (map Str.strip v).
Proof.
  revert acc. induction v as [| u v IH]; intros acc; simpl fold_left.
  - simpl. now rewrite app_nil_r.
  - rewrite IH. cbn [map]. rewrite filter_cons.
    destruct (decide (Str.strip u <> EmptyString)) as [Hu | Hu];
      destruct (Str.strip u) eqn:Es; cbn [Str.is_empty]; try congruence.
    + now rewrite <- app_assoc.
    + exfalso. apply Hu. discriminate.
Qed.

(** X12. [validate_urls] accepts a list exactly when it has between 1 and 10
    entries of which at least one is not blank, and then returns the
    stripped entries that are not empty, in order; validating its own
    output again changes nothing. *)
Theorem validate_urls_keeps_stripped_non_empty (raw cleaned : list string) :
  (validate_urls raw = Ok cleaned <->
   (1 <= length raw <= 10)%nat /\
   cleaned = filter (fun u => u <> EmptyString) (map Str.strip raw) /\
   cleaned <> [])
  /\ (validate_urls raw = Ok cleaned -> validate_urls cleaned = Ok cleaned).
Proof.
  assert (Hiff : forall raw cleaned,
    validate_urls raw = Ok cleaned <->
    (1 <= length raw <= 10)%nat /\
    cleaned = filter (fun u => u <> EmptyString) (map Str.strip raw) /\
    cleaned <> []).
  { clear. intros raw cleaned. unfold validate_urls. cbv zeta.
    destruct raw as [| u raw]; [split; [discriminate | simpl; lia] |].
    rewrite cleaned_loop. cbn [app].
    destruct (Z.ltb_spec 10 (Z.of_nat (length (u :: raw)))) as [Hl | Hl].
    { split; [discriminate | intros [? _]; lia]. }
    destruct (filter _ _) as [| c cs] eqn:Hf.
    - split; [discriminate | intros (_ & -> & Hne); congruence].
    - split.
      + intros [= <-]. repeat split; simpl length in *; try lia. discriminate.
      + intros (_ & -> & _). reflexivity. }
  split; [apply Hiff |].
  intros H. apply Hiff in H as (Hlen & Hc & Hne). apply Hiff.
  assert (Hfix : filter (fun u => u <> EmptyString) (map Str.strip cleaned) = cleaned).
  { subst cleaned. clear. induction raw as [| u raw IH]; [reflexivity |].
    cbn [map]. rewrite filter_cons.
    destruct (decide (Str.strip u <> EmptyString)) as [Hu | Hu]; [| exact IH].
    cbn [map]. rewrite filter_cons, strip_idem, decide_True by exact Hu.
    now rewrite IH. }
  rewrite Hfix. repeat split; try exact Hne.
  - destruct cleaned; [congruence | simpl; lia].
  - subst cleaned. etransitivity; [apply length_filter |]. rewrite length_map. lia.
Qed.

Lemma validate_urls_keeps_stripped_non_empty_witness :
  validate_urls ["  http://a.example "; "   "; "b.example"]
    = Ok ["http://a.example"; "b.example"] /\
  validate_urls ["http://a.example"; "b.example"] = Ok ["http://a.example"; "b.example"].
Proof.
  split; [vm_compute; reflexivity |].
  apply (proj2 (validate_urls_keeps_stripped_non_empty
                  ["  http://a.example "; "   "; "b.example"]
                  ["http://a.example"; "b.example"])).
  vm_compute. reflexivity.
Defined.

End ValidateUrls.

(** ** The feed status and the reported indicators *)

Section ApiStatus.

Lemma build_api_status_loop (rs : list ApiResult) (status : gmap string string) (n : string) :
  fold_left (fun status r =>
               <[ api_name r :=
                    if default false (unavailable r) then "unavailable" else "available" ]>
                 status) rs status !! n
  = match last (filter (fun r => api_name r = n) rs) with
    | Some r => Some (if default false (unavailable r) then "unavailable" else "available")
    | None => status !! n
    end.
Proof.
  revert status. induction rs as [| r rs IH]; intros status; [reflexivity |].
  cbn [fold_left]. rewrite IH, filter_cons.
  destruct (decide (api_name r = n)) as [Heq | Hne].
  - destruct (filter _ rs) as [| r' rs'] eqn:Hf.
    + cbn [last]. subst n. apply lookup_insert_eq.
    + change (last (r :: r' :: rs')) with (last (r' :: rs')).
      destruct (last (r' :: rs')) eqn:Hl; [reflexivity |].
      apply last_None in Hl. discriminate.
  - destruct (last (filter _ rs)); [reflexivity |]. now apply lookup_insert_ne.
Qed.

(** X13. The status reported for a feed name is that of the last result
    under this name: unavailable when its flag is present and true,
    available otherwise. A name without a result has no status. *)
Theorem build_api_status_last_wins (api_results : list ApiResult) (n : string) :
  _build_api_status api_results !! n
  = (fun r => if default false (unavailable r) then "unavailable" else "available")
      <$> last (filter (fun r => api_name r = n) api_results).
Proof.
  unfold _build_api_status. rewrite build_api_status_loop.
  destruct (last _); reflexivity.
Qed.

End ApiStatus.

Section UniqueIndicators.



End UniqueIndicators.

(** ** What the URL validator checks *)

Section UrlPattern.

Lemma run_star_cases {A} (a : Re.regex) (s : string) (k : string -> option A) (x : A) :
  Re.run (Re.Star a) s k = Some x ->
  k s = Some x \/ exists k', Re.run a s k' = Some x.
Proof.
  cbn [Re.run]. destruct (String.length s) as [| fuel]; [auto |].
  match goal with |- context [Re.run a s ?k'] => destruct (Re.run a s k') eqn:Hr end.
  - intros [= <-]. right. eauto.
  - auto.
Qed.

Lemma run_star_total {A} (a : Re.regex) (s : string) (k : string -> option A) (x : A) :
  k s = Some x -> exists y, Re.run (Re.Star a) s k = Some y.
Proof.
  intros Hk. cbn [Re.run]. destruct (String.length s) as [| fuel]; [eauto |].
  match goal with |- context [Re.run a s ?k'] => destruct (Re.run a s k') end; eauto.
Qed.

Lemma run_host_label_head {A} (s : string) (k : string -> option A) (x : A) :
  Re.run host_label s k = Some x ->
  exists c t, s = String c t /\ is_alnum c = true.
Proof.
  unfold host_label. cbn [Re.run Re.alnum]. destruct s as [| c t]; [discriminate |].
  fold (is_alnum c). destruct (is_alnum c) eqn:Hc; [eauto | discriminate].
Qed.

Lemma run_host_label_total (c : ascii) (t : string) :
  is_alnum c = true -> exists y, Re.run host_label (String c t) (fun rest => Some rest) = Some y.
Proof.
  intros Hc. unfold host_label, Re.Opt. cbn [Re.run Re.alnum].
  fold (is_alnum c). rewrite Hc.
  match goal with |- context [match ?r with Some _ => _ | None => _ end] => destruct r end;
    eauto.
Qed.

Lemma run_after_scheme (w : string) :
  (exists y, Re.run after_scheme w (fun rest => Some rest) = Some y) <->
  exists c t, w = String c t /\ is_alnum c = true.
Proof.
  unfold after_scheme. split.
  - intros [y Hy]. change (Re.run (Re.Seq ?a ?b) ?s ?k)
      with (Re.run a s (fun s' => Re.run b s' k)) in Hy.
    apply run_star_cases in Hy as [Hy | [k' Hy]].
    + eapply run_host_label_head, Hy.
    + change (Re.run (Re.Seq ?a ?b) ?s ?k)
        with (Re.run a s (fun s' => Re.run b s' k)) in Hy.
      eapply run_host_label_head, Hy.
  - intros (c & t & -> & Hc).
    change (Re.run (Re.Seq ?a ?b) ?s ?k)
      with (Re.run a s (fun s' => Re.run b s' k)).
    destruct (run_host_label_total c t Hc) as [y Hy].
    eapply run_star_total. exact Hy.
Qed.

Lemma url_pattern_http (w : string) :
  Re.match_prefix url_pattern ("http://" +:+ w)
  = match Re.run after_scheme w (fun rest => Some rest) with
    | Some x => Some x
    | None => None
    end.
Proof. reflexivity. Qed.

Lemma url_pattern_https (w : string) :
  Re.match_prefix url_pattern ("https://" +:+ w)
  = match match Re.run after_scheme w (fun rest => Some rest) with
          | Some x => Some x
          | None => None
          end with
    | Some x => Some x
    | None => None
    end.
Proof. reflexivity. Qed.

Lemma startswith_spec (p s : string) :
  Str.startswith p s = true <-> exists w, s = p +:+ w.
Proof.
  revert s. induction p as [| a p IH]; intros s.
  - split; [intros _; exists s; reflexivity | reflexivity].
  - destruct s as [| b s]; cbn [Str.startswith].
    + split; [discriminate | intros [w Hw]; discriminate].
    + rewrite andb_true_iff, IH. split.
      * intros [Hab [w ->]]. apply Ascii.eqb_eq in Hab. subst b. exists w. reflexivity.
      * intros [w [= -> ->]]. split; [apply Ascii.eqb_refl | eauto].
Qed.

Lemma matches_http (w : string) :
  Re.matches url_pattern ("http://" +:+ w) = true <->
  exists c t, w = String c t /\ is_alnum c = true.
Proof.
  unfold Re.matches. rewrite url_pattern_http, <- run_after_scheme.
  destruct (Re.run after_scheme w _); split; eauto; try discriminate.
  intros [y Hy]. discriminate.
Qed.

Lemma matches_https (w : string) :
  Re.matches url_pattern ("https://" +:+ w) = true <->
  exists c t, w = String c t /\ is_alnum c = true.
Proof.
  unfold Re.matches. rewrite url_pattern_https, <- run_after_scheme.
  destruct (Re.run after_scheme w _); split; eauto; try discriminate.
  intros [y Hy]. discriminate.
Qed.

Lemma with_scheme_cases (raw : string) :
  exists w, with_scheme raw = "http://" +:+ w \/ with_scheme raw = "https://" +:+ w.
Proof.
  unfold with_scheme. cbv zeta.
  destruct (Str.startswith "http://" (Str.strip raw)) eqn:H1.
  - apply startswith_spec in H1 as [w ->]. exists w. now left.
  - destruct (Str.startswith "https://" (Str.strip raw)) eqn:H2.
    + apply startswith_spec in H2 as [w ->]. exists w. now right.
    + exists (Str.strip raw). now left.
Qed.

Lemma validate_url_spec (raw v : string) :
  validate_url raw = Ok v <->
  Str.strip raw <> EmptyString /\ v = with_scheme raw /\
  exists c t, (v = "http://" +:+ String c t \/ v = "https://" +:+ String c t) /\
              is_alnum c = true.
Proof.
  unfold validate_url. cbv zeta. fold (with_scheme raw).
  destruct (Str.strip raw) as [| c0 s0] eqn:Hs.
  { cbn [Str.is_empty]. split; [discriminate | intros [H _]; congruence]. }
  cbn [Str.is_empty].
  destruct (with_scheme_cases raw) as [w [Hw | Hw]]; rewrite Hw.
  - destruct (Re.matches url_pattern ("http://" +:+ w)) eqn:Hm; cbn [negb].
    + apply matches_http in Hm as (c & t & -> & Hc). split.
      * intros [= <-]. repeat split; [discriminate |]. exists c, t. auto.
      * intros (_ & -> & _). reflexivity.
    + split; [discriminate |]. intros (_ & -> & c & t & [He | He] & Hc).
      * cbv [String.append] in He. injection He as ->.
        assert (Re.matches url_pattern ("http://" +:+ String c t) = true)
          by (apply matches_http; eauto). congruence.
      * discriminate He.
  - destruct (Re.matches url_pattern ("https://" +:+ w)) eqn:Hm; cbn [negb].
    + apply matches_https in Hm as (c & t & -> & Hc). split.
      * intros [= <-]. repeat split; [discriminate |]. exists c, t. auto.
      * intros (_ & -> & _). reflexivity.
    + split; [discriminate |]. intros (_ & -> & c & t & [He | He] & Hc).
      * discriminate He.
      * cbv [String.append] in He. injection He as ->.
        assert (Re.matches url_pattern ("https://" +:+ String c t) = true)
          by (apply matches_https; eauto). congruence.
Qed.


Lemma rstrip_with_app (f : ascii -> bool) (p s : string) :
  Str.rstrip_with f s <> EmptyString ->
  Str.rstrip_with f (p +:+ s) = p +:+ Str.rstrip_with f s.
Proof.
  intros Hs. induction p as [| c p IH]; [reflexivity |].
  change (String c p +:+ s) with (String c (p +:+ s)).
  rewrite rstrip_with_cons, IH.
  change (String c p +:+ Str.rstrip_with f s) with (String c (p +:+ Str.rstrip_with f s)).
  destruct (p +:+ Str.rstrip_with f s) eqn:Hp; [| reflexivity].
  destruct p; [cbv [String.append] in Hp; congruence | discriminate Hp].
Qed.

Lemma strip_with_scheme (raw : string) :
  Str.strip raw <> EmptyString -> Str.strip (with_scheme raw) = with_scheme raw.
Proof.
  intros Hne. unfold with_scheme. cbv zeta.
  destruct (negb _); [| apply strip_idem].
  unfold Str.strip at 1.
  change (Str.lstrip_with Str.isspace ("http://" +:+ Str.strip raw))
    with ("http://" +:+ Str.strip raw).
  assert (Hr : Str.rstrip_with Str.isspace (Str.strip raw) = Str.strip raw)
    by (unfold Str.strip; apply rstrip_with_idem).
  rewrite rstrip_with_app; rewrite Hr; auto.
Qed.

(** X16. A URL that [validate_url] returns is accepted unchanged when it is
    validated again. *)
Theorem validate_url_is_idempotent (raw v : string) :
  validate_url raw = Ok v -> validate_url v = Ok v.
Proof.
  intros H. apply validate_url_spec in H as (Hne & Hv & c & t & Hform & Hc).
  assert (Hs : Str.strip v = v) by (subst v; now apply strip_with_scheme).
  assert (Hw : with_scheme v = v).
  { unfold with_scheme. cbv zeta. rewrite Hs.
    destruct Hform as [-> | ->]; reflexivity. }
  apply validate_url_spec. rewrite Hs, Hw. repeat split.
  - destruct Hform as [-> | ->]; discriminate.
  - eauto.
Qed.

End UrlPattern.

Lemma validate_url_is_idempotent_witness :
  validate_url "  Example.com/login " = Ok "http://Example.com/login" /\
  validate_url "http://Example.com/login" = Ok "http://Example.com/login".
Proof.
  split; [vm_compute; reflexivity |].
  apply (validate_url_is_idempotent "  Example.com/login "). vm_compute. reflexivity.
Defined.

(** ** The feature vector of the classifier *)

Import UrlFeatures.

Lemma count_char_contains (c : ascii) (s : string) :
  0 < Str.count_char c s <-> Str.contains (String c EmptyString) s = true.
Proof.
  induction s as [| d s IH]; [cbn; split; [lia | discriminate] |].
  rewrite contains_char_cons. cbn [Str.count_char].
  assert (0 <= Str.count_char c s).
  { clear. induction s as [| x s IH]; cbn [Str.count_char]; [lia |].
    destruct (Ascii.eqb c x); lia. }
  destruct (Ascii.eqb c d); cbn [orb]; [split; [reflexivity | lia] |].
  rewrite <- IH. lia.
Qed.

(** Which names a run of the ten checks leaves in the list. *)
Lemma checks_names (c1 c2 c3 c4 c5 c6 c7 c9 c10 : bool)
      (i1 i2 i3 i4 i5 i6 i7 i9 i10 : Indicator) (o : option (string * string))
      (mk : string -> string -> Indicator) (f : Indicator -> bool) (n : string) :
  n ∈ map name
        (append_if c10 i10
           (append_if
              (c9 && existsb f
                       match o with
                       | Some (brand, variant) =>
                           append_if c7 i7 (append_if c6 i6 (append_if c5 i5 (append_if c4 i4
                             (append_if c3 i3 (append_if c2 i2 (append_if c1 i1 []))))))
                           ++ [mk brand variant]
                       | None =>
                           append_if c7 i7 (append_if c6 i6 (append_if c5 i5 (append_if c4 i4
                             (append_if c3 i3 (append_if c2 i2 (append_if c1 i1 []))))))
                       end)
              i9
              match o with
              | Some (brand, variant) =>
                  append_if c7 i7 (append_if c6 i6 (append_if c5 i5 (append_if c4 i4
                    (append_if c3 i3 (append_if c2 i2 (append_if c1 i1 []))))))
                  ++ [mk brand variant]
              | None =>
                  append_if c7 i7 (append_if c6 i6 (append_if c5 i5 (append_if c4 i4
                    (append_if c3 i3 (append_if c2 i2 (append_if c1 i1 []))))))
              end)) ->
  (c1 = true /\ n = name i1) \/ (c2 = true /\ n = name i2) \/ (c3 = true /\ n = name i3) \/
  (c4 = true /\ n = name i4) \/ (c5 = true /\ n = name i5) \/ (c6 = true /\ n = name i6) \/
  (c7 = true /\ n = name i7) \/
  (exists brand variant, o = Some (brand, variant) /\ n = name (mk brand variant)) \/
  (c9 = true /\ n = name i9) \/ (c10 = true /\ n = name i10).
Proof.
  intros H.
  destruct o as [[b v] |];
    repeat first [ rewrite map_app in H | rewrite elem_of_app in H
                 | rewrite append_if_elem_of_names in H ];
    cbn [map] in H; rewrite ?list_elem_of_singleton, ?elem_of_nil, ?andb_true_iff in H;
    repeat match type of H with _ \/ _ => destruct H as [H | H] end;
    try contradiction;
    repeat first [ left; solve [tauto | eauto] | right ]; solve [tauto | eauto].
Qed.

Lemma check_fires (c : bool) (ind : Indicator) (l : list Indicator) :
  c = true -> name ind ∈ map name (append_if c ind l).
Proof. intros ->. unfold append_if. rewrite map_app. apply elem_of_app. right. left. Qed.

Lemma check_keeps (n : string) (c : bool) (ind : Indicator) (l : list Indicator) :
  n ∈ map name l -> n ∈ map name (append_if c ind l).
Proof. intros H. apply append_if_elem_of_names. now left. Qed.

Lemma brand_keeps (n : string) (o : option (string * string))
      (mk : string -> string -> Indicator) (l : list Indicator) :
  n ∈ map name l ->
  n ∈ map name match o with
               | Some (brand, variant) => l ++ [mk brand variant]
               | None => l
               end.
Proof.
  intros H. destruct o as [[b v] |]; [| exact H]. rewrite map_app. apply elem_of_app. now left.
Qed.

Ltac wrong_names H :=
  repeat match type of H with
         | _ \/ _ => destruct H as [H | H]
         end;
  match type of H with
  | _ /\ _ => let Hc := fresh in let He := fresh in
              destruct H as [Hc He]; first [discriminate He | exact Hc]
  | exists _, _ => let He := fresh in destruct H as (? & ? & _ & He); discriminate He
  end.

Ltac fire_name Hc :=
  repeat first
    [ apply (check_fires _ (mkIndicator _ _ _ _)); exact Hc
    | apply check_keeps
    | apply brand_keeps ].

Lemma fired_iff (url : string) (parsed : Urllib.ParseResult) (inds : list Indicator) :
  Urllib.urlparse url = Ok parsed ->
  analyze_url_heuristics url = Ok inds ->
  let hostname := default EmptyString (Urllib.hostname parsed) in
  ("Excessive URL Length" ∈ map name inds <-> (75 <? Str.len url) = true) /\
  ("IP Address Instead of Domain" ∈ map name inds <-> is_ip_literal hostname = true) /\
  ("Missing HTTPS" ∈ map name inds <->
     negb (String.eqb (Urllib.scheme parsed) "https") = true) /\
  ("Excessive Subdomains" ∈ map name inds <->
     (3 <=? (if Str.is_empty hostname then 0
             else Z.max 0 (Str.count_char "." hostname - 1))) = true) /\
  ("@ Symbol in URL" ∈ map name inds <-> Str.contains "@" url = true).
Proof.
  intros Hp. unfold analyze_url_heuristics. rewrite Hp.
  cbn [mbind result_bind]. intros H. apply Ok_inj in H. subst inds. cbv zeta.
  repeat match goal with |- _ /\ _ => split end;
    (split; intros H;
     [apply (checks_names _ _ _ _ _ _ _ _ _ _ _ _ _ _ _ _ _ _ _
               (fun brand variant => mkIndicator "Brand Impersonation" true f0_95 _)) in H;
      cbn [name] in H; wrong_names H
     | fire_name H]).
Qed.


Section Features.
Context (math_log2 : float -> result float).

Lemma url_features_to_array_zip (values : list value) :
  length values = 22%nat ->
  url_features_to_array (list_to_map (zip FEATURE_NAMES values)) = Ok values.
Proof.
  intros Hlen.
  do 23 (destruct values as [| ? values]; try discriminate Hlen).
  vm_compute. reflexivity.
Qed.

Lemma extract_url_features_zip (url : string) (feats : gmap string value) :
  extract_url_features math_log2 url = Ok feats ->
  exists values, length values = 22%nat /\ feats = list_to_map (zip FEATURE_NAMES values).
Proof.
  unfold extract_url_features. intros H. invert_binds H. cbv zeta in H.
  apply Ok_inj in H. subst feats.
  match goal with
  | |- exists values, _ /\ list_to_map ?l = _ => exists (map snd l)
  end.
  split; [reflexivity |]. apply (f_equal list_to_map). reflexivity.
Qed.

(** X17. The dict of [extract_url_features] has exactly the 22 keys of
    [FEATURE_NAMES], so [url_features_to_array] never fails on it and
    returns the 22 values in the order of [FEATURE_NAMES]. *)
Theorem feature_vector_is_complete (url : string) (feats : gmap string value) :
  extract_url_features math_log2 url = Ok feats ->
  dom feats = list_to_set FEATURE_NAMES /\
  exists arr,
    url_features_to_array feats = Ok arr /\ length arr = length FEATURE_NAMES /\
    Forall2 (fun name v => feats !! name = Some v) FEATURE_NAMES arr.
Proof.
  intros H. apply extract_url_features_zip in H as (values & Hlen & ->).
  do 23 (destruct values as [| ? values]; try discriminate Hlen).
  split.
  - apply (bool_decide_unpack _). vm_compute. exact I.
  - eexists. split; [apply url_features_to_array_zip; reflexivity |].
    split; [reflexivity |].
    repeat (constructor; [vm_compute; reflexivity |]). constructor.
Qed.

Lemma feature_lookups (v1 v2 v3 v4 v5 v6 v7 v8 v9 v10 v11 v12 v13 v14 v15 v16 v17 v18 v19 v20 v21 v22 : value) :
  let d : gmap string value :=
    list_to_map
    [ ("url_length", v1);
      ("hostname_length", v2);
      ("path_length", v3);
      ("digit_count", v4);
      ("letter_count", v5);
      ("special_count", v6);
      ("dot_count", v7);
      ("hyphen_count", v8);
      ("underscore_count", v9);
      ("slash_count", v10);
      ("at_count", v11);
      ("question_count", v12);
      ("ampersand_count", v13);
      ("equals_count", v14);
      ("subdomain_count", v15);
      ("path_depth", v16);
      ("query_param_count", v17);
      ("has_https", v18);
      ("has_ip", v19);
      ("domain_entropy", v20);
      ("digit_ratio", v21);
      ("special_ratio", v22) ] in
  d !! "url_length" = Some v1 /\ d !! "at_count" = Some v11 /\
  d !! "subdomain_count" = Some v15 /\ d !! "has_https" = Some v18 /\
  d !! "has_ip" = Some v19.
Proof. vm_compute. repeat split. Qed.

(** X18. The features of the classifier and the heuristic indicators read
    the same facts off a URL: [has_https] is 0 exactly when Missing HTTPS
    is reported, [has_ip] is 1 exactly when the IP-address indicator is,
    and the indicators for subdomains, length and the at sign are
    reported exactly when [subdomain_count] is at least 3, [url_length]
    is above 75 and [at_count] is positive. *)
Theorem features_agree_with_heuristics (url : string) (feats : gmap string value)
    (inds : list Indicator) :
  extract_url_features math_log2 url = Ok feats ->
  analyze_url_heuristics url = Ok inds ->
  (feats !! "has_https" = Some (VInt 0) <-> "Missing HTTPS" ∈ map name inds) /\
  (feats !! "has_ip" = Some (VInt 1) <-> "IP Address Instead of Domain" ∈ map name inds) /\
  (exists k, feats !! "subdomain_count" = Some (VInt k) /\
             (3 <= k <-> "Excessive Subdomains" ∈ map name inds)) /\
  (exists k, feats !! "url_length" = Some (VInt k) /\
             (75 < k <-> "Excessive URL Length" ∈ map name inds)) /\
  (exists k, feats !! "at_count" = Some (VInt k) /\
             (0 < k <-> "@ Symbol in URL" ∈ map name inds)).
Proof.
  intros Hf Ha. unfold extract_url_features in Hf. invert_binds Hf. cbv zeta in Hf.
  apply Ok_inj in Hf. subst feats.
  match goal with Hp : Urllib.urlparse url = Ok ?p |- _ =>
    destruct (fired_iff url p inds Hp Ha) as (Hlen & Hip & Hhttps & Hsub & Hat)
  end.
  match goal with
  | |- context [list_to_map
      [ (_, ?v1);
        (_, ?v2);
        (_, ?v3);
        (_, ?v4);
        (_, ?v5);
        (_, ?v6);
        (_, ?v7);
        (_, ?v8);
        (_, ?v9);
        (_, ?v10);
        (_, ?v11);
        (_, ?v12);
        (_, ?v13);
        (_, ?v14);
        (_, ?v15);
        (_, ?v16);
        (_, ?v17);
        (_, ?v18);
        (_, ?v19);
        (_, ?v20);
        (_, ?v21);
        (_, ?v22) ]] =>
      destruct (feature_lookups v1 v2 v3 v4 v5 v6 v7 v8 v9 v10 v11 v12 v13 v14 v15 v16 v17 v18 v19 v20 v21 v22)
        as (L1 & L11 & L15 & L18 & L19)
  end.
  cbv zeta in L1, L11, L15, L18, L19. rewrite L1, L11, L15, L18, L19.
  split; [| split; [| split; [| split]]].
  - rewrite Hhttps. destruct (String.eqb _ "https"); split; (discriminate || reflexivity).
  - rewrite Hip. destruct (is_ip_literal _); split; (discriminate || reflexivity).
  - eexists. split; [reflexivity |]. rewrite Hsub, Z.leb_le. reflexivity.
  - eexists. split; [reflexivity |]. rewrite Hlen, Z.ltb_lt. reflexivity.
  - eexists. split; [reflexivity |]. rewrite Hat. apply count_char_contains.
Qed.

End Features.

Lemma features_agree_with_heuristics_witness :
  exists feats inds,
    UrlFeatures.extract_url_features (fun _ => Ok Float64.zero)
      "http://192.168.1.1/banking/login" = Ok feats /\
    analyze_url_heuristics "http://192.168.1.1/banking/login" = Ok inds /\
    (feats !! "has_https" = Some (VInt 0) <-> "Missing HTTPS" ∈ map name inds) /\
    (feats !! "has_ip" = Some (VInt 1) <-> "IP Address Instead of Domain" ∈ map name inds).
Proof.
  eexists. eexists. split; [reflexivity |]. split; [reflexivity |].
  match goal with
  | |- (?feats !! _ = _ <-> _ ∈ map name ?inds) /\ _ =>
      destruct (features_agree_with_heuristics (fun _ => Ok Float64.zero)
                  "http://192.168.1.1/banking/login" feats inds eq_refl eq_refl)
        as (H1 & H2 & _)
  end.
  split; [exact H1 | exact H2].
Defined.

Lemma feature_vector_is_complete_witness :
  exists feats,
    UrlFeatures.extract_url_features (fun _ => Ok Float64.zero)
      "http://192.168.1.1/banking/login" = Ok feats /\
    dom feats = list_to_set FEATURE_NAMES.
Proof.
  eexists. split; [reflexivity |].
  apply (feature_vector_is_complete (fun _ => Ok Float64.zero)
           "http://192.168.1.1/banking/login" _ eq_refl).
Defined.

(** ** The screenshot and the shortener lookups *)

Import Intel.

Section ScreenshotAndUnshorten.


Context (requests_head : string -> result Response).

(** X20. [unshorten_url] never raises. For a URL whose host is not in
    [SHORTENER_DOMAINS] the answer is the same whatever the network
    would do (no request is made): not shortened, the URL as given, no
    redirect count. [is_shortened] is true only after a request for a
    shortener host that succeeded and ended at another URL, and an
    answer with an error gives the URL back unchanged. *)
Theorem unshorten_asks_only_for_shorteners (url : string) :
  exists r,
    unshorten_url requests_head url = Ok r /\
    ((forall parsed h, Urllib.urlparse url = Ok parsed ->
                       Urllib.hostname parsed = Some h -> h ∉ SHORTENER_DOMAINS) ->
     (forall any_head, unshorten_url any_head url = Ok r) /\
     is_shortened r = false /\ final_url r = url /\ redirect_chain_length r = None) /\
    (is_shortened r = true ->
     final_url r <> url /\ u_error r = None /\
     exists parsed h response,
       Urllib.urlparse url = Ok parsed /\ Urllib.hostname parsed = Some h /\
       h ∈ SHORTENER_DOMAINS /\ requests_head url = Ok response /\
       final_url r = response_url response /\
       redirect_chain_length r = Some (history_length response)) /\
    (forall msg, u_error r = Some msg -> is_shortened r = false /\ final_url r = url).
Proof.
  unfold unshorten_url.
  destruct (Urllib.urlparse url) as [parsed | e] eqn:Hp; cbn [mbind result_bind try_except].
  2: { eexists. split; [reflexivity |]. cbn. repeat split; try discriminate. }
  destruct (Urllib.hostname parsed) as [h |] eqn:Hh; cbn [try_except].
  2: { eexists. split; [reflexivity |]. cbn. repeat split; try discriminate. }
  destruct (bool_decide (h ∉ SHORTENER_DOMAINS)) eqn:Hs; cbn [try_except].
  { eexists. split; [reflexivity |]. cbn. repeat split; try discriminate. }
  apply bool_decide_eq_false in Hs.
  assert (Hin : h ∈ SHORTENER_DOMAINS) by (destruct (decide (h ∈ SHORTENER_DOMAINS)); tauto).
  destruct (requests_head url) as [response | e] eqn:Hr; cbn [mbind result_bind try_except];
    eexists; (split; [reflexivity |]); cbn [is_shortened final_url u_error redirect_chain_length].
  - split; [intros Hall; exfalso; exact (Hall parsed h eq_refl Hh Hin) |].
    split; [| discriminate].
    intros Hne. apply negb_true_iff, String.eqb_neq in Hne.
    repeat split; auto. exists parsed, h, response. repeat split; auto.
  - split; [intros Hall; exfalso; exact (Hall parsed h eq_refl Hh Hin) |].
    split; [discriminate | auto].
Qed.

End ScreenshotAndUnshorten.

Section ShortenerTables.








End ShortenerTables.

